(** * Shopline / Buy-with-Prime catalog synchronisation: a shallow embedding

    The Lambda handlers of the repository are embedded as Rocq functions.
    Asynchronous handlers run one [await] after the other, so each one
    is a sequential program over an explicit state: the outside world (the
    DynamoDB tables, Secrets Manager, the two platforms' HTTP APIs) plus
    what the handler writes to the console.  An exception is a value of
    [JsError] carried in the left summand of the result.

    - [EventSync]: the scheduled sync, event.mjs (unnamed/part_001)
    - [Webhook]: the product webhook, webhook.mjs
      (lambda/product/crud.mjs, lines 179-334)
    - [ShoplineSign]: the signed Shopline requests
      (lambda/auth/shopline/callback.mjs, lines 1-273)
    - [Refresh]: the token refresh sweep, refresh.mjs (same file, lines
      402-549)
    - [BwpAuth]: the Buy with Prime router (same file, lines 565-835)
    - [ShoplineOAuth]: shopline-install.mjs (code/shoplineinstall/index.mjs)
    - [OAuthState]: the [state] of an installation in the two flows
    - [Crud]: the product CRUD handler (lambda/product/crud.mjs, lines
      1-162)
 *)

From Stdlib Require Import ZArith QArith List Ascii String Bool Lia.
From Stdlib Require Import DecimalString Permutation Sorted.
From stdpp Require Import base option list strings gmap.
Import ListNotations.
Local Open Scope string_scope.
Local Open Scope Z_scope.
Local Open Scope list_scope.

(** ** JavaScript values and exceptions *)

Module Js.

(** [!s] for a value that is a string or [undefined]: the empty string is
    falsy as well. *)
Definition truthy (v : option string) : bool :=
  match v with
  | Some s => negb (String.eqb s "")
  | None => false
  end.

(** [!o] for a value that is an object or [undefined]. *)
Definition isUndefined {A} (o : option A) : bool :=
  match o with
  | Some _ => false
  | None => true
  end.

(** An exception object: its [message] and, when it has one, its
    [statusCode] property. *)
Record JsError : Type := mkJsError {
  err_message : string;
  err_statusCode : option Z
}.

(** [new Error(msg)] *)
Definition Error (msg : string) : JsError :=
  {| err_message := msg; err_statusCode := None |}.

(** [error.statusCode || 500]: [undefined] and [0] are falsy. *)
Definition statusCodeOr500 (e : JsError) : Z :=
  match err_statusCode e with
  | Some c => if Z.eqb c 0 then 500 else c
  | None => 500
  end.

(** [error.message || dflt] *)
Definition messageOr (e : JsError) (dflt : string) : string :=
  if String.eqb (err_message e) "" then dflt else err_message e.

(** Strict equality on a property that holds a string or is absent. *)
Definition optStringEqb (a b : option string) : bool :=
  match a, b with
  | Some x, Some y => String.eqb x y
  | None, None => true
  | _, _ => false
  end.

Lemma truthy_Some (v : option string) :
  truthy v = true -> exists s, v = Some s /\ s <> "".
Proof.
  destruct v as [s|]; simpl; [|discriminate].
  intros H. exists s. split; [reflexivity|].
  intros ->. discriminate.
Qed.

Lemma optStringEqb_eq (a b : option string) :
  optStringEqb a b = true <-> a = b.
Proof.
  destruct a as [x|], b as [y|]; simpl; split; try congruence.
  - intros H%String.eqb_eq. congruence.
  - intros [= ->]. apply String.eqb_refl.
Qed.

End Js.
Import Js.

(** ** Sequential execution with exceptions

  [Exec S A] is a computation over the state [S] that either returns an
  [A] or throws. *)

Module Exec.
Section Exec.
Context {S : Type}.

Definition Exec (A : Type) : Type := S -> (JsError + A) * S.

Definition ret {A} (a : A) : Exec A := fun s => (inr a, s).

Definition throw {A} (e : JsError) : Exec A := fun s => (inl e, s).

Definition bind {A B} (m : Exec A) (k : A -> Exec B) : Exec B :=
  fun s =>
    match m s with
    | (inl e, s') => (inl e, s')
    | (inr a, s') => k a s'
    end.

(** [try { m } catch (error) { h error }] *)
Definition tryCatch {A} (m : Exec A) (h : JsError -> Exec A) : Exec A :=
  fun s =>
    match m s with
    | (inl e, s') => h e s'
    | (inr a, s') => (inr a, s')
    end.

(** [for (const x of xs) { body x }]; an exception leaves the loop. *)
Fixpoint forOf {X} (xs : list X) (body : X -> Exec unit) : Exec unit :=
  match xs with
  | [] => ret tt
  | x :: rest => bind (body x) (fun _ => forOf rest body)
  end.

End Exec.
Arguments Exec : clear implicits.
End Exec.
Import Exec.

Declare Scope exec_scope.
Delimit Scope exec_scope with exec.
Notation "x <- c ;; k" := (bind c (fun x => k))
(at level 100, c at next level, right associativity) : exec_scope.
Notation "c ;; k" := (bind c (fun _ => k))
(at level 100, right associativity) : exec_scope.
Local Open Scope exec_scope.

Section ExecFacts.
Context {S : Type}.

Lemma bind_ret_l {A B} (a : A) (k : A -> Exec S B) (s : S) :
  bind (ret a) k s = k a s.
Proof. reflexivity. Qed.

Lemma bind_throw {A B} (e : JsError) (k : A -> Exec S B) (s : S) :
  bind (throw e) k s = (inl e, s).
Proof. reflexivity. Qed.

Lemma bind_assoc {A B C} (m : Exec S A) (f : A -> Exec S B)
      (g : B -> Exec S C) (s : S) :
  bind (bind m f) g s = bind m (fun a => bind (f a) g) s.
Proof.
  unfold bind. destruct (m s) as [[e|a] s']; reflexivity.
Qed.

Lemma forOf_app {X} (xs ys : list X) (body : X -> Exec S unit) (s : S) :
  forOf (xs ++ ys) body s = bind (forOf xs body) (fun _ => forOf ys body) s.
Proof.
  revert s. induction xs as [|x xs IH]; intros s; simpl.
  - reflexivity.
  - unfold bind in *. destruct (body x s) as [[e|[]] s'].
    + reflexivity.
    + apply IH.
Qed.

End ExecFacts.

(** ** Scheduled product sync (event.mjs)

    [handler] scans the installation table and, store by store, lists the
    products of both platforms and pushes to Buy with Prime what differs. *)

Module EventSync.

(** An item of the installation table, as far as the handler reads it. *)
Record Store : Type := mkStore {
  store_id : string;
  store_bwpInstallationId : option string
}.

(** A product as either platform returns it (interface [ProductData]:
    [id] and [title] are strings, [description] is optional, [price] is a
    number).  A price comes out of a JSON document, so it is a finite
    number, and [===] on finite numbers is equality of their values.  The
    handler reads no other property. *)
Record Product : Type := mkProduct {
  p_id : string;
  p_title : string;
  p_description : option string;
  p_price : Q;
  (* every other property of the object, such as updatedAt *)
  p_rest : list (string * string)
}.

(** The object built by [convertToBWPFormat]. *)
Record BwpFormat : Type := mkBwpFormat {
  f_title : string;
  f_description : option string;
  f_price : Q
}.

(** An item of the token table. *)
Record TokenItem : Type := mkTokenItem {
  item_token : option string;
  item_refresh_token : option string
}.

(** The result of [getShoplineCredentials] and of [getBWPCredentials]: only
    these two properties are read. *)
Record Credentials : Type := mkCredentials {
  accessToken : option string;
  refreshToken : option string
}.

(** What the handler writes to the console. *)
Inductive LogLine : Type :=
| LogReceived (event : string)
    (* Received event: ... *)
| LogSkipStore (handle : string)
    (* BWP installation ID not found for store ..., skipping... *)
| LogUpdated (productId handle : string)
    (* Updated BWP product ... for store ... *)
| LogCreated (productId handle : string)
    (* Created new BWP product ... for store ... *)
| LogNoUpdate (productId handle : string)
    (* No update needed for BWP product ... for store ... *)
| LogError (error : JsError).
    (* Error processing event: ... *)

(** The body is [JSON.stringify] of an object with one property. *)
Inductive Body : Type :=
| BodyMessage (message : string)
| BodyError (error : string).

Record Response : Type := mkResponse {
  statusCode : Z;
  body : Body
}.

Section Handler.
Context {W : Type}.

(** The calls that leave the process.  Each one reads or changes the
    outside world [W] and returns or throws.  [Authorization] is the
    bearer token of the request; the product list of Buy with Prime is
    addressed by that token alone. *)
Record Services : Type := mkServices {
  scanInstallations : W -> (JsError + list Store) * W;
  getTokenItem : string -> W -> (JsError + option TokenItem) * W;
  getShoplineSecret : W -> (JsError + Credentials) * W;
  getBwpSecret : W -> (JsError + Credentials) * W;
  httpGetShoplineProducts :
    string -> option string -> W -> (JsError + list Product) * W;
  httpGetBwpProducts : option string -> W -> (JsError + list Product) * W;
  httpPutBwpProduct :
    string -> BwpFormat -> option string -> W -> (JsError + unit) * W
}.

Record State : Type := mkState {
  world : W;
  console : list LogLine
}.

Variable svc : Services.

Definition call {A} (op : W -> (JsError + A) * W) : Exec State A :=
  fun st =>
    let '(r, w) := op (world st) in
    (r, {| world := w; console := console st |}).

Definition consoleLog (l : LogLine) : Exec State unit :=
  fun st => (inr tt, {| world := world st; console := console st ++ [l] |}).

Definition getShoplineCredentials : Exec State Credentials :=
  call (getShoplineSecret svc).

Definition getBWPCredentials (installationId : string)
  : Exec State Credentials :=
  tokenData <- call (getTokenItem svc installationId);;
  match tokenData with
  | None => throw (Error "BWP token not found")
  | Some item =>
      _ <- call (getBwpSecret svc);;
      ret {| accessToken := item_token item;
             refreshToken := item_refresh_token item |}
  end.

Definition getAllStores : Exec State (list Store) :=
  call (scanInstallations svc).

Definition getShoplineProducts (handle : string)
  : Exec State (list Product) :=
  credentials <- getShoplineCredentials;;
  call (httpGetShoplineProducts svc handle (accessToken credentials)).

Definition getBWPProducts (installationId : string)
  : Exec State (list Product) :=
  credentials <- getBWPCredentials installationId;;
  call (httpGetBwpProducts svc (accessToken credentials)).

Definition updateBWPProduct (installationId productId : string)
           (productData : BwpFormat) : Exec State unit :=
  credentials <- getBWPCredentials installationId;;
  call (httpPutBwpProduct svc productId productData (accessToken credentials)).

(** [true] when one of the three fields differs ([!==]). *)
Definition compareProducts (shoplineProduct bwpProduct : Product) : bool :=
  negb (String.eqb (p_title shoplineProduct) (p_title bwpProduct))
  || negb (optStringEqb (p_description shoplineProduct)
                        (p_description bwpProduct))
  || negb (Qeq_bool (p_price shoplineProduct) (p_price bwpProduct)).

Definition convertToBWPFormat (shoplineProduct : Product) : BwpFormat :=
  {| f_title := p_title shoplineProduct;
     f_description := p_description shoplineProduct;
     f_price := p_price shoplineProduct |}.

(** [bwpProducts.find(p => p.id === shoplineProduct.id)] *)
Definition findById (bwpProducts : list Product) (productId : string)
  : option Product :=
  List.find (fun p => String.eqb (p_id p) productId) bwpProducts.

(** The body of the inner loop.  A found product is an object, hence
    truthy; [compareProducts] is only reached in that case. *)
Definition syncProduct (bwpInstallationId handle : string)
           (bwpProducts : list Product) (shoplineProduct : Product)
  : Exec State unit :=
  let bwpProduct := findById bwpProducts (p_id shoplineProduct) in
  if match bwpProduct with
     | Some found => compareProducts shoplineProduct found
     | None => false
     end
  then
    let updatedBWPProduct := convertToBWPFormat shoplineProduct in
    updateBWPProduct bwpInstallationId (p_id shoplineProduct)
                     updatedBWPProduct;;
    consoleLog (LogUpdated (p_id shoplineProduct) handle)
  else if isUndefined bwpProduct then
    let newBWPProduct := convertToBWPFormat shoplineProduct in
    updateBWPProduct bwpInstallationId (p_id shoplineProduct) newBWPProduct;;
    consoleLog (LogCreated (p_id shoplineProduct) handle)
  else
    consoleLog (LogNoUpdate (p_id shoplineProduct) handle).

(** The body of the outer loop; [continue] ends it for the store. *)
Definition syncStore (store : Store) : Exec State unit :=
  let handle := store_id store in
  let bwpInstallationId := store_bwpInstallationId store in
  if negb (truthy bwpInstallationId) then
    consoleLog (LogSkipStore handle)
  else
    let bwpInstallationId := default "" bwpInstallationId in
    shoplineProducts <- getShoplineProducts handle;;
    bwpProducts <- getBWPProducts bwpInstallationId;;
    forOf shoplineProducts
          (syncProduct bwpInstallationId handle bwpProducts).

Definition handler (event : string) : Exec State Response :=
  tryCatch
    (consoleLog (LogReceived event);;
     stores <- getAllStores;;
     forOf stores syncStore;;
     ret {| statusCode := 200;
            body := BodyMessage "Product sync completed successfully" |})
    (fun error =>
       consoleLog (LogError error);;
       ret {| statusCode := 500;
              body := BodyError "Failed to process event" |}).

End Handler.
Arguments Services : clear implicits.
Arguments State : clear implicits.

(** *** A closed world to run the handler in

    The two platforms and the tables as plain data.  Buy with Prime keeps
    one catalogue per bearer token.  What a successful [PUT /products/id]
    does to a catalogue is the platform's business and is not in the
    repository: it is the parameter [put] of the world, and the theorems
    about what a pass leaves behind name what they assume of it. *)

Record Sim : Type := mkSim {
  (* the installation table; [None] when the scan fails *)
  sim_installations : option (list Store);
  (* the token table, by installation id *)
  sim_tokens : gmap string TokenItem;
  (* Shopline's product list by handle; no entry: the request fails *)
  sim_shopline : gmap string (list Product);
  (* Buy with Prime catalogues by bearer token; no entry: request fails *)
  sim_bwp : gmap string (list Product);
  (* bearer tokens whose PUT requests are rejected *)
  sim_putRejected : gset string
}.

Definition requestFailed : JsError :=
  Error "Request failed with status code 404".

Definition platformServices
           (put : string -> BwpFormat -> list Product -> list Product)
  : Services Sim :=
  {| scanInstallations w :=
       match sim_installations w with
       | Some items => (inr items, w)
       | None => (inl (Error "Requested resource not found"), w)
       end;
     getTokenItem installationId w := (inr (sim_tokens w !! installationId), w);
     getShoplineSecret w :=
       (inr {| accessToken := None; refreshToken := None |}, w);
     getBwpSecret w :=
       (inr {| accessToken := None; refreshToken := None |}, w);
     httpGetShoplineProducts handle authorization w :=
       match sim_shopline w !! handle with
       | Some products => (inr products, w)
       | None => (inl requestFailed, w)
       end;
     httpGetBwpProducts authorization w :=
       match authorization ≫= (fun t => sim_bwp w !! t) with
       | Some products => (inr products, w)
       | None => (inl requestFailed, w)
       end;
     httpPutBwpProduct productId data authorization w :=
       match authorization with
       | Some t =>
           match sim_bwp w !! t with
           | Some catalogue =>
               if bool_decide (t ∈ sim_putRejected w) then
                 (inl (Error "Request failed with status code 403"), w)
               else
                 (inr tt,
                  {| sim_installations := sim_installations w;
                     sim_tokens := sim_tokens w;
                     sim_shopline := sim_shopline w;
                     sim_bwp := <[t := put productId data catalogue]> (sim_bwp w);
                     sim_putRejected := sim_putRejected w |})
           | None => (inl requestFailed, w)
           end
       | None => (inl requestFailed, w)
       end |}.

(** One platform, for the concrete runs: the product is overwritten where
    it is and added where it is not. *)
Definition bwpUpsert (productId : string) (data : BwpFormat)
           (catalogue : list Product) : list Product :=
  if existsb (fun p => String.eqb (p_id p) productId) catalogue then
    map (fun p =>
           if String.eqb (p_id p) productId then
             {| p_id := p_id p; p_title := f_title data;
                p_description := f_description data;
                p_price := f_price data; p_rest := p_rest p |}
           else p)
        catalogue
  else
    catalogue ++ [ {| p_id := productId; p_title := f_title data;
                      p_description := f_description data;
                      p_price := f_price data; p_rest := [] |} ].

Definition simServices : Services Sim := platformServices bwpUpsert.

(** *** The reconciliation rule, in the words of the specification *)

Inductive Action : Type := Create | Update | Skipped.

(** [b] is the first product of [products] whose id is [i]. *)
Definition firstWithId (products : list Product) (i : string) (b : Product)
  : Prop :=
  exists pre post,
    products = pre ++ b :: post /\ p_id b = i /\
    forall x, In x pre -> p_id x <> i.

Definition fieldsDiffer (a b : Product) : Prop :=
  p_title a <> p_title b \/
  p_description a <> p_description b \/
  ~ (p_price a == p_price b)%Q.

Inductive chosen (a : Product) (bwpProducts : list Product)
  : Action -> Prop :=
| ChosenCreate :
    (forall b, In b bwpProducts -> p_id b <> p_id a) ->
    chosen a bwpProducts Create
| ChosenUpdate b :
    firstWithId bwpProducts (p_id a) b -> fieldsDiffer a b ->
    chosen a bwpProducts Update
| ChosenSkipped b :
    firstWithId bwpProducts (p_id a) b -> ~ fieldsDiffer a b ->
    chosen a bwpProducts Skipped.

(** *** The requests and the records, written out

    What "push to Buy with Prime", "list the products" and "write the
    outcome" stand for, request by request.  Nothing here is built from
    the handler's functions: the requests are the calls that leave the
    process, and the body of a push is spelled out field by field. *)

Section Requests.
Context {W : Type} (svc : Services W).

(** A request to Buy with Prime on behalf of an installation: the token
    item of the installation is read, then the secret, and the request
    goes out with the item's token as bearer.  Without a token item there
    is no request. *)
Definition bwpRequest {A} (installationId : string)
           (request : option string -> W -> (JsError + A) * W) (w : W)
  : (JsError + A) * W :=
  match getTokenItem svc installationId w with
  | (inl error, w1) => (inl error, w1)
  | (inr None, w1) => (inl (Error "BWP token not found"), w1)
  | (inr (Some item), w1) =>
      match getBwpSecret svc w1 with
      | (inl error, w2) => (inl error, w2)
      | (inr _, w2) => request (item_token item) w2
      end
  end.

(** The push of the Shopline product [a]: [PUT /products/ID] with the id
    of [a] and its title, description and price as the body. *)
Definition pushRequest (installationId : string) (a : Product)
  : W -> (JsError + unit) * W :=
  bwpRequest installationId
             (httpPutBwpProduct svc (p_id a)
                                {| f_title := p_title a;
                                   f_description := p_description a;
                                   f_price := p_price a |}).

(** The product list of a store on Shopline and on Buy with Prime. *)
Definition shoplineList (handle : string) (w : W)
  : (JsError + list Product) * W :=
  match getShoplineSecret svc w with
  | (inl error, w1) => (inl error, w1)
  | (inr credentials, w1) =>
      httpGetShoplineProducts svc handle (accessToken credentials) w1
  end.

Definition bwpList (installationId : string)
  : W -> (JsError + list Product) * W :=
  bwpRequest installationId (httpGetBwpProducts svc).

(** The line an action leaves on the console. *)
Definition outcomeLine (act : Action) (a : Product) (handle : string)
  : LogLine :=
  match act with
  | Create => LogCreated (p_id a) handle
  | Update => LogUpdated (p_id a) handle
  | Skipped => LogNoUpdate (p_id a) handle
  end.

(** Carrying out one action: create and update push and then write their
    line; skipped sends nothing and writes its line.  A push that fails
    ends the action with its error and without a line. *)
Definition carryOut (installationId handle : string) (a : Product)
           (act : Action) (st : State W) : (JsError + unit) * State W :=
  match act with
  | Skipped =>
      (inr tt, {| world := world st;
                  console := console st ++ [outcomeLine Skipped a handle] |})
  | _ =>
      match pushRequest installationId a (world st) with
      | (inl error, w) => (inl error, {| world := w; console := console st |})
      | (inr _, w) =>
          (inr tt, {| world := w;
                      console := console st ++ [outcomeLine act a handle] |})
      end
  end.

(** Carrying out a plan, one product after the other, up to the first
    error. *)
Fixpoint carryOutAll (installationId handle : string)
         (plan : list (Product * Action)) (st : State W)
  : (JsError + unit) * State W :=
  match plan with
  | [] => (inr tt, st)
  | (a, act) :: rest =>
      match carryOut installationId handle a act st with
      | (inl error, st1) => (inl error, st1)
      | (inr _, st1) => carryOutAll installationId handle rest st1
      end
  end.

(** The audit rule.  [audited inst handle B products w r w' lines]: going
    through [products] from the world [w], with the actions decided
    against the list [B], ends in [w'] with the result [r] and has written
    [lines].  A product that needs no push gets its line; a product whose
    push went through gets its line after the push; when a push fails the
    run ends there, with no line for the product and none for the
    products after it. *)
Inductive audited (installationId handle : string) (bwpProducts : list Product)
  : list Product -> W -> JsError + unit -> W -> list LogLine -> Prop :=
| AuditEnd w :
    audited installationId handle bwpProducts [] w (inr tt) w []
| AuditNoPush a rest w r w' lines :
    chosen a bwpProducts Skipped ->
    audited installationId handle bwpProducts rest w r w' lines ->
    audited installationId handle bwpProducts (a :: rest) w r w'
            (LogNoUpdate (p_id a) handle :: lines)
| AuditPushed a rest act w w1 r w' lines :
    chosen a bwpProducts act -> act <> Skipped ->
    pushRequest installationId a w = (inr tt, w1) ->
    audited installationId handle bwpProducts rest w1 r w' lines ->
    audited installationId handle bwpProducts (a :: rest) w r w'
            (outcomeLine act a handle :: lines)
| AuditPushFailed a rest act w error w1 :
    chosen a bwpProducts act -> act <> Skipped ->
    pushRequest installationId a w = (inl error, w1) ->
    audited installationId handle bwpProducts (a :: rest) w (inl error) w1 [].

(** An adapter call of the pass over a linked store fails: the request
    for the Shopline list, the request for the Buy with Prime list, or,
    with both lists there and the products before it gone through, the
    push of a product that is to be created or updated.  The state is the
    one the failing call leaves. *)
Inductive passFails (handle installationId : string) (st : State W)
  : JsError -> State W -> Prop :=
| FailsAtShoplineList error w1 :
    shoplineList handle (world st) = (inl error, w1) ->
    passFails handle installationId st error
              {| world := w1; console := console st |}
| FailsAtBwpList shoplineProducts w1 error w2 :
    shoplineList handle (world st) = (inr shoplineProducts, w1) ->
    bwpList installationId w1 = (inl error, w2) ->
    passFails handle installationId st error
              {| world := w2; console := console st |}
| FailsAtPush shoplineProducts w1 bwpProducts w2 done plan a act rest
              st1 error w3 :
    shoplineList handle (world st) = (inr shoplineProducts, w1) ->
    bwpList installationId w1 = (inr bwpProducts, w2) ->
    shoplineProducts = done ++ a :: rest ->
    Forall2 (fun x action => chosen x bwpProducts action) done plan ->
    carryOutAll installationId handle (combine done plan)
                {| world := w2; console := console st |}
    = (inr tt, st1) ->
    chosen a bwpProducts act -> act <> Skipped ->
    pushRequest installationId a (world st1) = (inl error, w3) ->
    passFails handle installationId st error
              {| world := w3; console := console st1 |}.

End Requests.

Lemma findById_Some (products : list Product) (i : string) (b : Product) :
  findById products i = Some b <-> firstWithId products i b.
Proof.
  unfold findById, firstWithId. induction products as [|x xs IH]; simpl.
  - split; [discriminate|]. intros (pre & post & H & _).
    destruct pre; discriminate.
  - destruct (String.eqb (p_id x) i) eqn:E.
    + apply String.eqb_eq in E. split.
      * intros [= ->]. exists [], xs. repeat split; [assumption|].
        intros y [].
      * intros (pre & post & H & Hb & Hpre). destruct pre as [|y pre].
        -- simpl in H. congruence.
        -- simpl in H. injection H as Hy _. exfalso.
           apply (Hpre x); [left; congruence | assumption].
    + apply String.eqb_neq in E. rewrite IH. split.
      * intros (pre & post & -> & Hb & Hpre). exists (x :: pre), post.
        repeat split; [assumption|]. intros y [<-|Hy]; auto.
      * intros (pre & post & H & Hb & Hpre). destruct pre as [|y pre].
        -- simpl in H. injection H as Hx _. congruence.
        -- simpl in H. injection H as Hy Hxs. exists pre, post.
           repeat split; [assumption..|]. intros z Hz. apply Hpre. now right.
Qed.

Lemma findById_None (products : list Product) (i : string) :
  findById products i = None <-> forall b, In b products -> p_id b <> i.
Proof.
  unfold findById. split.
  - intros H b Hb Hid.
    pose proof (find_none _ _ H b Hb) as E. simpl in E.
    apply String.eqb_neq in E. contradiction.
  - intros H. destruct (find _ products) as [b|] eqn:E; [|reflexivity].
    apply find_some in E as [Hin Hid]. apply String.eqb_eq in Hid.
    exfalso. exact (H b Hin Hid).
Qed.

Lemma compareProducts_true (a b : Product) :
  compareProducts a b = true <-> fieldsDiffer a b.
Proof.
  unfold compareProducts, fieldsDiffer.
  rewrite !orb_true_iff, !negb_true_iff.
  rewrite <- !not_true_iff_false.
  rewrite String.eqb_eq, optStringEqb_eq, Qeq_bool_iff. tauto.
Qed.

Lemma compareProducts_false (a b : Product) :
  compareProducts a b = false <-> ~ fieldsDiffer a b.
Proof.
  rewrite <- compareProducts_true. symmetry. apply not_true_iff_false.
Qed.

Lemma chosen_functional (a : Product) (bwpProducts : list Product)
      (x y : Action) :
  chosen a bwpProducts x -> chosen a bwpProducts y -> x = y.
Proof.
  intros Hx Hy.
  destruct Hx as [Hx | b Hb Hd | b Hb Hd];
    destruct Hy as [Hy | b' Hb' Hd' | b' Hb' Hd']; try reflexivity;
    try (apply findById_Some in Hb; apply findById_None in Hy; congruence);
    try (apply findById_Some in Hb'; apply findById_None in Hx; congruence);
    apply findById_Some in Hb; apply findById_Some in Hb';
    assert (b = b') by congruence; subst; contradiction.
Qed.

(** The rule always selects an action. *)
Lemma chosen_exists (a : Product) (bwpProducts : list Product) :
  exists act, chosen a bwpProducts act.
Proof.
  destruct (findById bwpProducts (p_id a)) as [b|] eqn:Hfind.
  - apply findById_Some in Hfind.
    destruct (compareProducts a b) eqn:Hcmp.
    + exists Update. apply ChosenUpdate with b; [assumption|].
      now apply compareProducts_true.
    + exists Skipped. apply ChosenSkipped with b; [assumption|].
      now apply compareProducts_false.
  - exists Create. apply ChosenCreate. now apply findById_None.
Qed.

Lemma plan_exists (shoplineProducts bwpProducts : list Product) :
  exists plan,
    Forall2 (fun a act => chosen a bwpProducts act) shoplineProducts plan.
Proof.
  induction shoplineProducts as [|a rest [plan IH]].
  - exists []. constructor.
  - destruct (chosen_exists a bwpProducts) as [act Hact].
    exists (act :: plan). now constructor.
Qed.

Lemma plan_unique (shoplineProducts bwpProducts : list Product)
      (plan plan' : list Action) :
  Forall2 (fun a act => chosen a bwpProducts act) shoplineProducts plan ->
  Forall2 (fun a act => chosen a bwpProducts act) shoplineProducts plan' ->
  plan' = plan.
Proof.
  intros H. revert plan'.
  induction H as [|a act rest plan Hact _ IH]; intros plan' H'.
  - now inversion H'.
  - inversion H' as [|a' act' rest' plan'' Hact' Hrest']; subst.
    f_equal; [|now apply IH].
    eapply chosen_functional; eassumption.
Qed.

Section Refinement.
Context {W : Type} (svc : Services W).

(** The handler's way to a Buy with Prime request is [bwpRequest]. *)
Lemma getBWPCredentials_request {A} (installationId : string)
      (request : option string -> W -> (JsError + A) * W) (st : State W) :
  (credentials <- getBWPCredentials svc installationId;;
   call (request (accessToken credentials))) st
  = let '(r, w) := bwpRequest svc installationId request (world st) in
    (r, {| world := w; console := console st |}).
Proof.
  unfold getBWPCredentials, bwpRequest, bind, call, throw, ret.
  destruct st as [w c]. cbn.
  destruct (getTokenItem svc installationId w) as [[e|[item|]] w1]; cbn;
    try reflexivity.
  destruct (getBwpSecret svc w1) as [[e|cr] w2]; cbn; [reflexivity|].
  destruct (request (item_token item) w2) as [r w3]. reflexivity.
Qed.

Lemma updateBWPProduct_pushRequest (installationId : string) (a : Product)
      (st : State W) :
  updateBWPProduct svc installationId (p_id a) (convertToBWPFormat a) st
  = let '(r, w) := pushRequest svc installationId a (world st) in
    (r, {| world := w; console := console st |}).
Proof.
  unfold updateBWPProduct, pushRequest, convertToBWPFormat.
  apply (getBWPCredentials_request installationId
           (httpPutBwpProduct svc (p_id a)
              {| f_title := p_title a; f_description := p_description a;
                 f_price := p_price a |})).
Qed.

(** The loop body carries out the action the rule selects. *)
Lemma syncProduct_carryOut (bwpInstallationId handle : string)
      (bwpProducts : list Product) (a : Product) (act : Action)
      (st : State W) :
  chosen a bwpProducts act ->
  syncProduct svc bwpInstallationId handle bwpProducts a st
  = carryOut svc bwpInstallationId handle a act st.
Proof.
  intros Hact.
  assert (Hpush : forall l,
    (updateBWPProduct svc bwpInstallationId (p_id a) (convertToBWPFormat a);;
     consoleLog l) st
    = match pushRequest svc bwpInstallationId a (world st) with
      | (inl error, w) => (inl error, {| world := w; console := console st |})
      | (inr _, w) =>
          (inr tt, {| world := w; console := console st ++ [l] |})
      end).
  { intros l. unfold bind. rewrite updateBWPProduct_pushRequest.
    destruct (pushRequest svc bwpInstallationId a (world st)) as [[e|[]] w];
      reflexivity. }
  unfold syncProduct, carryOut.
  destruct Hact as [Hnone | b Hb Hdiff | b Hb Hsame].
  - apply findById_None in Hnone. rewrite Hnone. cbn. apply Hpush.
  - apply findById_Some in Hb. apply compareProducts_true in Hdiff.
    rewrite Hb, Hdiff. apply Hpush.
  - apply findById_Some in Hb. apply compareProducts_false in Hsame.
    rewrite Hb, Hsame. reflexivity.
Qed.

Lemma forOf_carryOutAll (bwpInstallationId handle : string)
      (bwpProducts shoplineProducts : list Product) (plan : list Action)
      (st : State W) :
  Forall2 (fun a act => chosen a bwpProducts act) shoplineProducts plan ->
  forOf shoplineProducts
        (syncProduct svc bwpInstallationId handle bwpProducts) st
  = carryOutAll svc bwpInstallationId handle (combine shoplineProducts plan)
                st.
Proof.
  intros Hplan. revert st.
  induction Hplan as [|a act rest plan Hact _ IH]; intros st.
  - reflexivity.
  - cbn. unfold bind.
    rewrite (syncProduct_carryOut _ _ _ _ act st Hact).
    destruct (carryOut svc bwpInstallationId handle a act st)
      as [[e|[]] st1]; [reflexivity | apply IH].
Qed.

(** C1.  For every store and every Buy with Prime list, the product loop
    deals with every product of the Shopline list by the rule: the rule
    selects exactly one action for each product (create when no Buy with
    Prime product has its id, update when the first one with its id
    differs in title, description or price, skipped otherwise), and the
    loop is the carrying out of these actions in order.  Create and update
    send [PUT /products/ID] with the Shopline product's title, description
    and price; skipped sends nothing.  Only these three fields are
    compared; no other property of either product enters the rule. *)
Theorem every_product_follows_the_rule (bwpInstallationId handle : string)
        (bwpProducts shoplineProducts : list Product) :
  exists plan,
    Forall2 (fun a act => chosen a bwpProducts act) shoplineProducts plan /\
    (forall plan',
        Forall2 (fun a act => chosen a bwpProducts act) shoplineProducts plan'
        -> plan' = plan) /\
    forall st,
      forOf shoplineProducts
            (syncProduct svc bwpInstallationId handle bwpProducts) st
      = carryOutAll svc bwpInstallationId handle
                    (combine shoplineProducts plan) st.
Proof.
  destruct (plan_exists shoplineProducts bwpProducts) as [plan Hplan].
  exists plan. split; [exact Hplan|]. split.
  - intros plan' Hplan'. now apply (plan_unique shoplineProducts bwpProducts).
  - intros st. now apply forOf_carryOutAll.
Qed.

Lemma carryOutAll_audited (bwpInstallationId handle : string)
      (bwpProducts shoplineProducts : list Product) (plan : list Action)
      (st : State W) :
  Forall2 (fun a act => chosen a bwpProducts act) shoplineProducts plan ->
  let run := carryOutAll svc bwpInstallationId handle
                         (combine shoplineProducts plan) st in
  exists lines,
    audited svc bwpInstallationId handle bwpProducts shoplineProducts
            (world st) (fst run) (world (snd run)) lines /\
    console (snd run) = console st ++ lines.
Proof.
  intros Hplan. revert st.
  induction Hplan as [|a act rest plan Hact _ IH]; intros st; cbn.
  - exists []. split; [constructor | now rewrite app_nil_r].
  - destruct act; cbn.
    + destruct (pushRequest svc bwpInstallationId a (world st))
        as [[e|[]] w] eqn:Hpush; cbn.
      * exists []. split; [|now rewrite app_nil_r].
        now apply AuditPushFailed with Create.
      * destruct (IH {| world := w;
                        console := console st ++ [LogCreated (p_id a) handle]
                     |}) as (lines & Haudit & Hconsole).
        exists (LogCreated (p_id a) handle :: lines). split.
        -- now apply (AuditPushed svc _ _ _ a rest Create (world st) w).
        -- rewrite Hconsole. cbn. now rewrite <- app_assoc.
    + destruct (pushRequest svc bwpInstallationId a (world st))
        as [[e|[]] w] eqn:Hpush; cbn.
      * exists []. split; [|now rewrite app_nil_r].
        now apply AuditPushFailed with Update.
      * destruct (IH {| world := w;
                        console := console st ++ [LogUpdated (p_id a) handle]
                     |}) as (lines & Haudit & Hconsole).
        exists (LogUpdated (p_id a) handle :: lines). split.
        -- now apply (AuditPushed svc _ _ _ a rest Update (world st) w).
        -- rewrite Hconsole. cbn. now rewrite <- app_assoc.
    + destruct (IH {| world := world st;
                      console := console st ++ [LogNoUpdate (p_id a) handle]
                   |}) as (lines & Haudit & Hconsole).
      exists (LogNoUpdate (p_id a) handle :: lines). split.
      * now apply AuditNoPush.
      * rewrite Hconsole. cbn. now rewrite <- app_assoc.
Qed.

(** C5, as the code has it.  The only record of a reconciled product is
    its console line, and the product loop writes it by the audit rule:
    one line for every product that needs no push, one line, after the
    push, for every product whose push went through, and when a push
    fails the loop ends with that error, with no line for that product
    and none for the products after it.  The console after the loop is
    the console before it followed by exactly these lines. *)
Theorem one_line_per_reconciled_product (bwpInstallationId handle : string)
        (bwpProducts shoplineProducts : list Product) (st : State W) :
  exists lines,
    audited svc bwpInstallationId handle bwpProducts shoplineProducts
            (world st)
            (fst (forOf shoplineProducts
                        (syncProduct svc bwpInstallationId handle bwpProducts)
                        st))
            (world (snd (forOf shoplineProducts
                               (syncProduct svc bwpInstallationId handle
                                            bwpProducts) st)))
            lines /\
    console (snd (forOf shoplineProducts
                        (syncProduct svc bwpInstallationId handle bwpProducts)
                        st))
    = console st ++ lines.
Proof.
  destruct (plan_exists shoplineProducts bwpProducts) as [plan Hplan].
  rewrite (forOf_carryOutAll _ _ _ _ plan st Hplan).
  now apply carryOutAll_audited.
Qed.

(** A store without a Buy with Prime installation id is passed over: one
    console line, no call to either platform, no exception. *)
Lemma syncStore_not_linked (store : Store) (st : State W) :
  truthy (store_bwpInstallationId store) = false ->
  syncStore svc store st
  = (inr tt, {| world := world st;
                console := console st ++ [LogSkipStore (store_id store)] |}).
Proof. intros H. unfold syncStore. rewrite H. reflexivity. Qed.

Lemma getShoplineProducts_list (handle : string) (st : State W) :
  getShoplineProducts svc handle st
  = let '(r, w) := shoplineList svc handle (world st) in
    (r, {| world := w; console := console st |}).
Proof.
  unfold getShoplineProducts, getShoplineCredentials, shoplineList, bind, call.
  destruct st as [w c]. cbn.
  destruct (getShoplineSecret svc w) as [[e|cr] w0]; cbn; [reflexivity|].
  destruct (httpGetShoplineProducts svc handle (accessToken cr) w0)
    as [r w1]. reflexivity.
Qed.

Lemma getBWPProducts_list (installationId : string) (st : State W) :
  getBWPProducts svc installationId st
  = let '(r, w) := bwpList svc installationId (world st) in
    (r, {| world := w; console := console st |}).
Proof.
  exact (getBWPCredentials_request installationId (httpGetBwpProducts svc) st).
Qed.

(** The pass over a linked store: the two lists, then the loop. *)
Lemma syncStore_linked (store : Store) (installationId : string)
      (st : State W) :
  store_bwpInstallationId store = Some installationId ->
  installationId <> "" ->
  syncStore svc store st
  = match shoplineList svc (store_id store) (world st) with
    | (inl error, w1) => (inl error, {| world := w1; console := console st |})
    | (inr shoplineProducts, w1) =>
        match bwpList svc installationId w1 with
        | (inl error, w2) =>
            (inl error, {| world := w2; console := console st |})
        | (inr bwpProducts, w2) =>
            forOf shoplineProducts
                  (syncProduct svc installationId (store_id store) bwpProducts)
                  {| world := w2; console := console st |}
        end
    end.
Proof.
  intros Hinst Hne. unfold syncStore. rewrite Hinst.
  assert (truthy (Some installationId) = true) as ->
    by (cbn; apply negb_true_iff, String.eqb_neq, Hne).
  cbn [negb]. change (default "" (Some installationId)) with installationId.
  unfold bind. rewrite getShoplineProducts_list.
  destruct (shoplineList svc (store_id store) (world st))
    as [[e|shoplineProducts] w1]; [reflexivity|].
  rewrite getBWPProducts_list. cbn [world console].
  destruct (bwpList svc installationId w1) as [[e|bwpProducts] w2];
    reflexivity.
Qed.

(** A failing adapter call makes the pass throw. *)
Lemma passFails_throws (store : Store) (installationId : string)
      (st st2 : State W) (error : JsError) :
  store_bwpInstallationId store = Some installationId ->
  installationId <> "" ->
  passFails svc (store_id store) installationId st error st2 ->
  syncStore svc store st = (inl error, st2).
Proof.
  intros Hinst Hne Hfails.
  rewrite (syncStore_linked store installationId st Hinst Hne).
  destruct Hfails
    as [e w1 Hshop
       | shoplineProducts w1 e w2 Hshop Hbwp
       | shoplineProducts w1 bwpProducts w2 done plan a act rest st1 e w3
           Hshop Hbwp Hsplit Hplan Hdone Hact Hpush Hfail].
  - rewrite Hshop. reflexivity.
  - rewrite Hshop, Hbwp. reflexivity.
  - rewrite Hshop, Hbwp, Hsplit, forOf_app. unfold bind.
    rewrite (forOf_carryOutAll _ _ _ _ plan _ Hplan), Hdone. cbn.
    unfold bind. rewrite (syncProduct_carryOut _ _ _ _ act st1 Hact).
    unfold carryOut. rewrite Hfail.
    destruct act; [reflexivity | reflexivity | contradiction].
Qed.

(** C2, as the code has it.  The stores are processed in order inside
    one [try].  With the stores before [k] gone through, when an adapter
    call of the pass over the linked store [k] fails (the request for
    either product list, or a push), the run ends there: the handler
    writes the one error line and answers 500.  The world is the one the
    failing call left, so no store after [k] is contacted, and no line is
    written for any of them. *)
Theorem batch_stops_at_failing_store (event : string) (st st1 st2 : State W)
        (w0 : W) (before after : list Store) (k : Store)
        (installationId : string) (error : JsError) :
  scanInstallations svc (world st) = (inr (before ++ k :: after), w0) ->
  forOf before (syncStore svc)
        {| world := w0; console := console st ++ [LogReceived event] |}
  = (inr tt, st1) ->
  store_bwpInstallationId k = Some installationId ->
  installationId <> "" ->
  passFails svc (store_id k) installationId st1 error st2 ->
  handler svc event st
  = (inr {| statusCode := 500; body := BodyError "Failed to process event" |},
     {| world := world st2; console := console st2 ++ [LogError error] |}).
Proof.
  intros Hscan Hbefore Hinst Hne Hfails.
  pose proof (passFails_throws k installationId st1 st2 error Hinst Hne Hfails)
    as Hk.
  unfold handler, tryCatch, bind, getAllStores, call, consoleLog. cbn.
  rewrite Hscan. cbn.
  rewrite forOf_app. unfold bind. rewrite Hbefore. cbn.
  unfold bind. rewrite Hk. reflexivity.
Qed.

End Refinement.

(** *** What reaches the console *)

(** The line a reconciled product leaves: updated, created or no update
    needed, with its id and the store's handle. *)
Definition isOutcomeOf (productId handle : string) (l : LogLine) : bool :=
  match l with
  | LogUpdated i h | LogCreated i h | LogNoUpdate i h =>
      String.eqb i productId && String.eqb h handle
  | _ => false
  end.

(** A line that names the store [handle]. *)
Definition mentionsStore (handle : string) (l : LogLine) : bool :=
  match l with
  | LogSkipStore h | LogUpdated _ h | LogCreated _ h | LogNoUpdate _ h =>
      String.eqb h handle
  | _ => false
  end.

(** *** Two runs in a row *)

(** What the theorems about consecutive runs assume of the platform.
    After a successful [PUT /products/i] with [data], the first product
    with the id [i] in the catalogue has the title, description and price
    of [data] (a description that was not sent is not there), and, for
    every other id, the first product with that id is the one it was. *)
Definition storesWhatIsPushed
           (put : string -> BwpFormat -> list Product -> list Product)
  : Prop :=
  forall i data catalogue,
    exists b, firstWithId (put i data catalogue) i b /\
              p_title b = f_title data /\
              p_description b = f_description data /\
              (p_price b == f_price data)%Q.

Definition leavesOtherIds
           (put : string -> BwpFormat -> list Product -> list Product)
  : Prop :=
  forall i j data catalogue b,
    i <> j ->
    firstWithId (put j data catalogue) i b <-> firstWithId catalogue i b.

(** Whether the loop body pushes [a], given the list [bwpProducts] it
    compares against. *)
Definition needsPush (bwpProducts : list Product) (a : Product) : bool :=
  match findById bwpProducts (p_id a) with
  | Some b => compareProducts a b
  | None => true
  end.

(** [a] has a counterpart in [catalogue] and the three fields agree. *)
Definition settled (a : Product) (catalogue : list Product) : Prop :=
  exists b, findById catalogue (p_id a) = Some b /\
            compareProducts a b = false.

Definition withCatalogue (w : Sim) (t : string) (catalogue : list Product)
  : Sim :=
  {| sim_installations := sim_installations w;
     sim_tokens := sim_tokens w;
     sim_shopline := sim_shopline w;
     sim_bwp := <[t := catalogue]> (sim_bwp w);
     sim_putRejected := sim_putRejected w |}.

Lemma withCatalogue_id (w : Sim) (t : string) (catalogue : list Product) :
  sim_bwp w !! t = Some catalogue -> withCatalogue w t catalogue = w.
Proof.
  intros H. destruct w as [i tk sh bw rj]. unfold withCatalogue. simpl in *.
  f_equal. now apply insert_id.
Qed.

Lemma compareProducts_converted (a b : Product) :
  p_title b = p_title a -> p_description b = p_description a ->
  p_price b = p_price a -> compareProducts a b = false.
Proof.
  intros Ht Hd Hp. unfold compareProducts. rewrite Ht, Hd, Hp.
  rewrite String.eqb_refl.
  assert (optStringEqb (p_description a) (p_description a) = true) as ->
    by now apply optStringEqb_eq.
  assert (Qeq_bool (p_price a) (p_price a) = true) as ->
    by (apply Qeq_bool_iff; reflexivity).
  reflexivity.
Qed.

Lemma find_append {A} (f : A -> bool) (l1 l2 : list A) :
  find f (l1 ++ l2)
  = match find f l1 with Some x => Some x | None => find f l2 end.
Proof.
  induction l1 as [|x xs IH]; simpl; [reflexivity|].
  destruct (f x); [reflexivity | exact IH].
Qed.

Lemma findById_upsert_ne (i j : string) (data : BwpFormat)
      (catalogue : list Product) :
  i <> j -> findById (bwpUpsert j data catalogue) i = findById catalogue i.
Proof.
  intros Hij. unfold bwpUpsert, findById.
  destruct (existsb _ catalogue).
  - induction catalogue as [|x xs IH]; simpl; [reflexivity|].
    destruct (String.eqb (p_id x) j) eqn:Ej; simpl.
    + apply String.eqb_eq in Ej.
      assert (String.eqb (p_id x) i = false) as ->
        by (apply String.eqb_neq; congruence).
      exact IH.
    + destruct (String.eqb (p_id x) i); [reflexivity | exact IH].
  - rewrite find_append. destruct (find _ catalogue); [reflexivity|].
    simpl. assert (String.eqb j i = false) as ->
      by (apply String.eqb_neq; congruence).
    reflexivity.
Qed.

(** The example platform meets both assumptions. *)
Lemma bwpUpsert_stores : storesWhatIsPushed bwpUpsert.
Proof.
  intros i data catalogue.
  assert (H : exists b,
             findById (bwpUpsert i data catalogue) i = Some b /\
             p_title b = f_title data /\
             p_description b = f_description data /\
             p_price b = f_price data).
  { unfold bwpUpsert, findById.
    destruct (existsb _ catalogue) eqn:Hex.
    - induction catalogue as [|x xs IH]; simpl in *; [discriminate|].
      destruct (String.eqb (p_id x) i) eqn:Ex; simpl.
      + rewrite Ex. eexists. split; [reflexivity|]. repeat split.
      + rewrite Ex. simpl in Hex. apply IH, Hex.
    - rewrite find_append.
      destruct (find _ catalogue) as [b|] eqn:Hf.
      + apply find_some in Hf as [Hin Hb].
        assert (existsb (fun p => String.eqb (p_id p) i) catalogue = true)
          by (apply existsb_exists; eauto).
        congruence.
      + simpl. rewrite String.eqb_refl. eexists.
        split; [reflexivity|]. repeat split. }
  destruct H as (b & Hb & Ht & Hd & Hp). exists b.
  split; [now apply findById_Some|]. rewrite Hp.
  split; [exact Ht|]. split; [exact Hd | reflexivity].
Qed.

Lemma bwpUpsert_leaves_others : leavesOtherIds bwpUpsert.
Proof.
  intros i j data catalogue b Hne.
  rewrite <- !findById_Some. now rewrite findById_upsert_ne.
Qed.

(** Products of the list that share an id agree on the three compared
    fields.  This holds in particular when the ids are distinct. *)
Definition agreeingIds (products : list Product) : Prop :=
  forall a a', In a products -> In a' products -> p_id a = p_id a' ->
               compareProducts a a' = false.

Lemma compareProducts_agree (x a b : Product) :
  compareProducts x a = false ->
  compareProducts x b = compareProducts a b.
Proof.
  unfold compareProducts. rewrite !orb_false_iff, !negb_false_iff.
  intros [[Ht Hd] Hp].
  apply String.eqb_eq in Ht. apply optStringEqb_eq in Hd.
  apply Qeq_bool_iff in Hp. rewrite Ht, Hd. f_equal. f_equal.
  destruct (Qeq_bool (p_price x) (p_price b)) eqn:Exb;
    destruct (Qeq_bool (p_price a) (p_price b)) eqn:Eab; try reflexivity.
  - apply Qeq_bool_iff in Exb. apply Qeq_bool_neq in Eab. exfalso.
    apply Eab. rewrite <- Hp. exact Exb.
  - apply Qeq_bool_iff in Eab. apply Qeq_bool_neq in Exb. exfalso.
    apply Exb. rewrite Hp. exact Eab.
Qed.

Lemma needsPush_agree (bwpProducts : list Product) (x a : Product) :
  p_id x = p_id a -> compareProducts x a = false ->
  needsPush bwpProducts x = needsPush bwpProducts a.
Proof.
  intros Hid Hcmp. unfold needsPush. rewrite Hid.
  destruct (findById bwpProducts (p_id a)); [|reflexivity].
  now apply compareProducts_agree.
Qed.

Lemma settled_agree (x a : Product) (catalogue : list Product) :
  p_id x = p_id a -> compareProducts x a = false ->
  settled x catalogue -> settled a catalogue.
Proof.
  intros Hid Hcmp (b & Hb & Hxb). exists b. rewrite <- Hid. split; [exact Hb|].
  rewrite <- (compareProducts_agree x a b Hcmp). exact Hxb.
Qed.

Lemma distinct_ids_agree (products : list Product) :
  List.NoDup (map p_id products) -> agreeingIds products.
Proof.
  intros Hnd a a' Ha Ha' Hid.
  assert (a = a') as <-.
  { induction products as [|x rest IH]; [destruct Ha|].
    simpl in Hnd. apply List.NoDup_cons_iff in Hnd as [Hfresh Hnd].
    destruct Ha as [->|Ha], Ha' as [->|Ha'].
    - reflexivity.
    - exfalso. apply Hfresh. rewrite Hid. now apply in_map.
    - exfalso. apply Hfresh. rewrite <- Hid. now apply in_map.
    - now apply IH. }
  apply compareProducts_converted; reflexivity.
Qed.

(** A settled product is one the rule skips. *)
Lemma settled_skipped (a : Product) (catalogue : list Product) :
  settled a catalogue -> chosen a catalogue Skipped.
Proof.
  intros (b & Hb & Hcmp). apply ChosenSkipped with b.
  - now apply findById_Some.
  - now apply compareProducts_false.
Qed.

(** A loop over products that are all settled writes their "no update
    needed" lines and calls nothing. *)
Lemma settled_products_are_skipped {W} (svc : Services W)
      (bwpInstallationId handle : string)
      (bwpProducts shoplineProducts : list Product) (st : State W) :
  Forall (fun a => settled a bwpProducts) shoplineProducts ->
  forOf shoplineProducts
        (syncProduct svc bwpInstallationId handle bwpProducts) st
  = (inr tt,
     {| world := world st;
        console := console st
                   ++ map (fun a => LogNoUpdate (p_id a) handle)
                          shoplineProducts |}).
Proof.
  intros Hall. revert st.
  induction Hall as [|a rest (b & Hb & Hcmp) _ IH]; intros st; simpl.
  - rewrite app_nil_r. now destruct st.
  - unfold bind, syncProduct. rewrite Hb, Hcmp. simpl.
    rewrite IH. simpl. now rewrite <- app_assoc.
Qed.

Section Platform.
Variable put : string -> BwpFormat -> list Product -> list Product.

Definition pushStep (bwpProducts : list Product) (catalogue : list Product)
           (a : Product) : list Product :=
  if needsPush bwpProducts a
  then put (p_id a) (convertToBWPFormat a) catalogue
  else catalogue.

(** The catalogue after the pushes for [shoplineProducts], all decided
    against the list [bwpProducts] fetched before the loop. *)
Definition catalogueAfter (bwpProducts shoplineProducts : list Product)
           (catalogue : list Product) : list Product :=
  fold_left (pushStep bwpProducts) shoplineProducts catalogue.

Lemma getShoplineProducts_sim (handle : string) (w : Sim)
      (c : list LogLine) :
  getShoplineProducts (platformServices put) handle
                      {| world := w; console := c |}
  = (match sim_shopline w !! handle with
     | Some products => inr products
     | None => inl requestFailed
     end, {| world := w; console := c |}).
Proof.
  unfold getShoplineProducts, getShoplineCredentials, bind, call. simpl.
  destruct (sim_shopline w !! handle); reflexivity.
Qed.

Lemma getBWPProducts_sim (installationId : string) (w : Sim)
      (c : list LogLine) :
  getBWPProducts (platformServices put) installationId
                 {| world := w; console := c |}
  = (match sim_tokens w !! installationId with
     | Some item =>
         match item_token item ≫= (fun t => sim_bwp w !! t) with
         | Some products => inr products
         | None => inl requestFailed
         end
     | None => inl (Error "BWP token not found")
     end, {| world := w; console := c |}).
Proof.
  unfold getBWPProducts, getBWPCredentials, bind, call. simpl.
  destruct (sim_tokens w !! installationId) as [item|]; simpl; [|reflexivity].
  destruct (item_token item ≫= _); reflexivity.
Qed.

Lemma syncStore_sim (store : Store) (w : Sim) (c : list LogLine) :
  truthy (store_bwpInstallationId store) = true ->
  syncStore (platformServices put) store {| world := w; console := c |}
  = match sim_shopline w !! store_id store with
    | None => (inl requestFailed, {| world := w; console := c |})
    | Some shoplineProducts =>
        match sim_tokens w !! default "" (store_bwpInstallationId store) with
        | None =>
            (inl (Error "BWP token not found"),
             {| world := w; console := c |})
        | Some item =>
            match item_token item ≫= (fun t => sim_bwp w !! t) with
            | None => (inl requestFailed, {| world := w; console := c |})
            | Some bwpProducts =>
                forOf shoplineProducts
                      (syncProduct (platformServices put)
                                   (default "" (store_bwpInstallationId store))
                                   (store_id store) bwpProducts)
                      {| world := w; console := c |}
            end
        end
    end.
Proof.
  intros Hlinked. unfold syncStore. rewrite Hlinked.
  change (negb true) with false. cbv beta zeta iota.
  unfold bind at 1. rewrite getShoplineProducts_sim.
  destruct (sim_shopline w !! store_id store) as [A|]; [|reflexivity].
  unfold bind at 1. rewrite getBWPProducts_sim.
  destruct (sim_tokens w !! _) as [item|]; [|reflexivity].
  destruct (item_token item ≫= _); reflexivity.
Qed.

Section SimRun.
Context (w : Sim) (bwpInstallationId handle t : string) (item : TokenItem).
Hypothesis Hitem : sim_tokens w !! bwpInstallationId = Some item.
Hypothesis Htoken : item_token item = Some t.

Lemma syncProduct_sim (bwpProducts catalogue : list Product) (a : Product)
      (c : list LogLine) (st' : State Sim) :
  syncProduct (platformServices put) bwpInstallationId handle bwpProducts a
              {| world := withCatalogue w t catalogue; console := c |}
    = (inr tt, st') ->
  world st' = withCatalogue w t (pushStep bwpProducts catalogue a).
Proof.
  assert (Hpush : forall l st1,
    (updateBWPProduct (platformServices put) bwpInstallationId (p_id a)
       (convertToBWPFormat a);; consoleLog l)
      {| world := withCatalogue w t catalogue; console := c |}
    = (inr tt, st1) ->
    world st1 = withCatalogue w t
                  (put (p_id a) (convertToBWPFormat a) catalogue)).
  { intros l st1. unfold updateBWPProduct, getBWPCredentials, bind, call.
    simpl. rewrite Hitem. simpl. rewrite Htoken. simpl.
    rewrite lookup_insert_eq.
    destruct (bool_decide _); simpl; [discriminate|].
    intros [= <-]. simpl. unfold withCatalogue. simpl.
    now rewrite insert_insert_eq. }
  unfold syncProduct, pushStep, needsPush.
  destruct (findById bwpProducts (p_id a)) as [b|]; simpl.
  - destruct (compareProducts a b); [apply Hpush|].
    intros [= <-]. reflexivity.
  - apply Hpush.
Qed.

Lemma forOf_sim (bwpProducts shoplineProducts catalogue : list Product)
      (c : list LogLine) (st' : State Sim) :
  forOf shoplineProducts
        (syncProduct (platformServices put) bwpInstallationId handle
                     bwpProducts)
        {| world := withCatalogue w t catalogue; console := c |}
    = (inr tt, st') ->
  world st'
  = withCatalogue w t (catalogueAfter bwpProducts shoplineProducts catalogue).
Proof.
  revert catalogue c.
  induction shoplineProducts as [|a rest IH]; intros catalogue c; simpl.
  - intros [= <-]. reflexivity.
  - unfold bind.
    destruct (syncProduct _ _ _ _ a _) as [[e|[]] [w1 c1]] eqn:Ea;
      [discriminate|].
    apply syncProduct_sim in Ea. simpl in Ea. subst w1.
    intros H. apply IH in H. exact H.
Qed.

End SimRun.

Hypothesis Hstores : storesWhatIsPushed put.
Hypothesis Hothers : leavesOtherIds put.

Lemma findById_put_ne (i j : string) (data : BwpFormat)
      (catalogue : list Product) :
  i <> j -> findById (put j data catalogue) i = findById catalogue i.
Proof.
  intros Hij.
  destruct (findById (put j data catalogue) i) as [b|] eqn:Hafter.
  - apply findById_Some, (Hothers i j data catalogue b Hij) in Hafter.
    symmetry. now apply findById_Some.
  - destruct (findById catalogue i) as [b|] eqn:Hbefore; [|reflexivity].
    apply findById_Some, (Hothers i j data catalogue b Hij) in Hbefore.
    apply findById_Some in Hbefore. congruence.
Qed.

Lemma put_settles (a : Product) (catalogue : list Product) :
  settled a (put (p_id a) (convertToBWPFormat a) catalogue).
Proof.
  destruct (Hstores (p_id a) (convertToBWPFormat a) catalogue)
    as (b & Hb & Ht & Hd & Hp).
  exists b. split; [now apply findById_Some|].
  apply compareProducts_false. unfold fieldsDiffer.
  cbn in Ht, Hd. rewrite Ht, Hd.
  intros [H|[H|H]]; [congruence | congruence |].
  apply H. symmetry. exact Hp.
Qed.

(** Once [a0] is settled, the pushes for products that agree with it
    keep it settled. *)
Lemma settled_preserved (bwpProducts rest : list Product) (a0 : Product) :
  (forall x, In x rest -> p_id x = p_id a0 -> compareProducts x a0 = false) ->
  forall catalogue,
    settled a0 catalogue ->
    settled a0 (catalogueAfter bwpProducts rest catalogue).
Proof.
  unfold catalogueAfter.
  induction rest as [|x rest IH]; intros Hagree catalogue H0; simpl.
  - exact H0.
  - apply IH; [intros y Hy; apply Hagree; now right|].
    unfold pushStep. destruct (needsPush bwpProducts x); [|exact H0].
    destruct (String.eqb (p_id x) (p_id a0)) eqn:E.
    + apply String.eqb_eq in E.
      apply (settled_agree x a0); [exact E| |apply put_settles].
      apply Hagree; [now left | exact E].
    + apply String.eqb_neq in E. unfold settled.
      rewrite findById_put_ne by congruence. exact H0.
Qed.

Lemma catalogueAfter_settled (bwpProducts shoplineProducts : list Product) :
  agreeingIds shoplineProducts ->
  forall catalogue,
    (forall a, In a shoplineProducts -> needsPush bwpProducts a = false ->
               settled a catalogue) ->
    forall a, In a shoplineProducts ->
              settled a (catalogueAfter bwpProducts shoplineProducts catalogue).
Proof.
  induction shoplineProducts as [|a0 rest IH];
    intros Hagree catalogue Hpre a Ha.
  - destruct Ha.
  - assert (Hrest : agreeingIds rest).
    { intros x y Hx Hy. apply Hagree; now right. }
    assert (H0 : settled a0 (pushStep bwpProducts catalogue a0)).
    { unfold pushStep. destruct (needsPush bwpProducts a0) eqn:E.
      - apply put_settles.
      - apply Hpre; [now left | assumption]. }
    change (catalogueAfter bwpProducts (a0 :: rest) catalogue)
      with (catalogueAfter bwpProducts rest
              (pushStep bwpProducts catalogue a0)).
    destruct Ha as [<-|Ha].
    + apply settled_preserved; [|exact H0].
      intros x Hx Hid. apply Hagree; [now right | now left | exact Hid].
    + apply IH; [exact Hrest| |exact Ha].
      intros x Hx Hpush.
      assert (Hx0 : settled x catalogue)
        by (apply Hpre; [now right | assumption]).
      unfold pushStep. destruct (needsPush bwpProducts a0) eqn:E0;
        [|exact Hx0].
      destruct (String.eqb (p_id x) (p_id a0)) eqn:E.
      * apply String.eqb_eq in E. exfalso.
        rewrite (needsPush_agree bwpProducts x a0 E) in Hpush;
          [congruence|].
        apply Hagree; [now right | now left | exact E].
      * apply String.eqb_neq in E. unfold settled.
        rewrite findById_put_ne by congruence. exact Hx0.
Qed.

(** Where a pass that went through leaves the store's catalogue. *)
Lemma pass_settles (w : Sim) (c : list LogLine) (store : Store)
      (shoplineProducts : list Product) (st1 : State Sim) :
  truthy (store_bwpInstallationId store) = true ->
  sim_shopline w !! store_id store = Some shoplineProducts ->
  agreeingIds shoplineProducts ->
  syncStore (platformServices put) store {| world := w; console := c |}
  = (inr tt, st1) ->
  exists item t catalogue,
    sim_tokens w !! default "" (store_bwpInstallationId store) = Some item /\
    item_token item = Some t /\
    world st1 = withCatalogue w t catalogue /\
    Forall (fun a => settled a catalogue) shoplineProducts.
Proof.
  intros Hlinked Hshop Hagree.
  rewrite (syncStore_sim store w c Hlinked), Hshop.
  destruct (sim_tokens w !! _) as [item|] eqn:Hitem; [|discriminate].
  destruct (item_token item) as [t|] eqn:Htoken; [|discriminate].
  simpl. destruct (sim_bwp w !! t) as [B0|] eqn:HB0; [|discriminate].
  intros Hrun.
  rewrite <- (withCatalogue_id w t B0 HB0) in Hrun at 1.
  apply (forOf_sim w _ (store_id store) t item Hitem Htoken) in Hrun.
  exists item, t, (catalogueAfter B0 shoplineProducts B0).
  split; [reflexivity|]. split; [exact Htoken|]. split; [exact Hrun|].
  apply List.Forall_forall. intros a Ha.
  apply catalogueAfter_settled; [assumption| |assumption].
  intros x _ Hx. unfold needsPush in Hx. unfold settled.
  destruct (findById B0 (p_id x)) as [b|]; [eauto | discriminate].
Qed.

End Platform.

(** C3.  Reconciliation is idempotent.  Take a linked store whose
    Shopline list has one product per id, and a platform that keeps what
    is pushed to it ([storesWhatIsPushed], [leavesOtherIds]) and is
    changed by nothing but the handler.  After a first pass in which
    every push succeeded, the rule selects skipped for every product
    (against the catalogue the platform now lists), and a second pass
    right after the first pushes nothing: it writes "no update needed"
    for every product and leaves the world as it is. *)
Theorem second_run_skips_every_product
        (put : string -> BwpFormat -> list Product -> list Product)
        (w : Sim) (c : list LogLine)
        (store : Store) (shoplineProducts : list Product)
        (st1 : State Sim) :
  storesWhatIsPushed put -> leavesOtherIds put ->
  truthy (store_bwpInstallationId store) = true ->
  sim_shopline w !! store_id store = Some shoplineProducts ->
  List.NoDup (map p_id shoplineProducts) ->
  syncStore (platformServices put) store {| world := w; console := c |}
  = (inr tt, st1) ->
  (exists item t catalogue,
      sim_tokens (world st1) !! default "" (store_bwpInstallationId store)
      = Some item /\
      item_token item = Some t /\
      sim_bwp (world st1) !! t = Some catalogue /\
      Forall (fun a => chosen a catalogue Skipped) shoplineProducts) /\
  syncStore (platformServices put) store st1
  = (inr tt,
     {| world := world st1;
        console := console st1
                   ++ map (fun a => LogNoUpdate (p_id a) (store_id store))
                          shoplineProducts |}).
Proof.
  intros Hstores Hothers Hlinked Hshop Hnd Hrun.
  destruct (pass_settles put Hstores Hothers w c store shoplineProducts st1
              Hlinked Hshop (distinct_ids_agree _ Hnd) Hrun)
    as (item & t & catalogue & Hitem & Htoken & Hworld & Hsettled).
  destruct st1 as [w1 c1]. cbn in Hworld. subst w1. cbn [world console].
  split.
  - exists item, t, catalogue. cbn. rewrite lookup_insert_eq.
    repeat split; try assumption.
    eapply List.Forall_impl; [|exact Hsettled].
    intros a. apply settled_skipped.
  - rewrite (syncStore_sim put store _ c1 Hlinked). cbn.
    rewrite Hshop, Hitem, Htoken. cbn. rewrite lookup_insert_eq.
    now apply settled_products_are_skipped.
Qed.

(** *** Concrete runs *)

Definition mug : Product :=
  {| p_id := "p1"; p_title := "Mug"; p_description := None;
     p_price := 999 # 100; p_rest := [] |}.

Definition cup : Product :=
  {| p_id := "p1"; p_title := "Cup"; p_description := None;
     p_price := 999 # 100; p_rest := [] |}.

Definition linkedStore (handle installationId : string) : Store :=
  {| store_id := handle; store_bwpInstallationId := Some installationId |}.

Definition tokenItem (t : string) : TokenItem :=
  {| item_token := Some t; item_refresh_token := None |}.

(** Three linked stores.  Shopline answers for [shop-1] and [shop-2] but
    not for [shop-k], whose product list request fails every time. *)
Definition worldWithFailingStore : Sim :=
  {| sim_installations :=
       Some [linkedStore "shop-1" "inst-1"; linkedStore "shop-k" "inst-k";
             linkedStore "shop-2" "inst-2"];
     sim_tokens :=
       {[ "inst-1" := tokenItem "tok-1"; "inst-k" := tokenItem "tok-k";
          "inst-2" := tokenItem "tok-2" ]};
     sim_shopline := {[ "shop-1" := [mug]; "shop-2" := [mug] ]};
     sim_bwp := {[ "tok-1" := []; "tok-k" := []; "tok-2" := [] ]};
     sim_putRejected := ∅ |}.

(** One linked store with one product that Buy with Prime does not have
    yet; Buy with Prime rejects the store's PUT requests. *)
Definition worldRejectingPut : Sim :=
  {| sim_installations := Some [linkedStore "shop-1" "inst-1"];
     sim_tokens := {[ "inst-1" := tokenItem "tok-1" ]};
     sim_shopline := {[ "shop-1" := [mug] ]};
     sim_bwp := {[ "tok-1" := [] ]};
     sim_putRejected := {[ "tok-1" ]} |}.

(** One linked store whose Shopline list holds the id [p1] twice, with
    different titles. *)
Definition worldWithRepeatedId : Sim :=
  {| sim_installations := Some [linkedStore "shop-1" "inst-1"];
     sim_tokens := {[ "inst-1" := tokenItem "tok-1" ]};
     sim_shopline := {[ "shop-1" := [mug; cup] ]};
     sim_bwp := {[ "tok-1" := [] ]};
     sim_putRejected := ∅ |}.

Definition freshRun (w : Sim) : State Sim := {| world := w; console := [] |}.

Definition failedResponse : Response :=
  {| statusCode := 500; body := BodyError "Failed to process event" |}.

(** C2 fails as stated.  With [shop-k] failing, the run does not
    complete: it answers 500, [shop-2] gets no console line and its
    catalogue stays empty although it has a product to create, and the
    only trace of the failure is the one error line of the whole run. *)
Lemma failing_store_stops_the_batch :
  let run := handler simServices "scheduled" (freshRun worldWithFailingStore) in
  fst run = inr failedResponse /\
  console (snd run)
  = [LogReceived "scheduled"; LogCreated "p1" "shop-1";
     LogError requestFailed] /\
  List.filter (mentionsStore "shop-2") (console (snd run)) = [] /\
  sim_bwp (world (snd run)) !! "tok-2" = Some [] /\
  needsPush [] mug = true.
Proof. vm_compute. repeat split; reflexivity. Qed.

(** The run of the three stores is an instance: [shop-1] goes through,
    the request for the Shopline list of [shop-k] fails, [shop-2] is left
    out. *)
Lemma batch_stops_at_failing_store_witness :
  fst (handler simServices "scheduled" (freshRun worldWithFailingStore))
  = inr failedResponse.
Proof.
  set (st1 := snd (syncStore simServices (linkedStore "shop-1" "inst-1")
                     {| world := worldWithFailingStore;
                        console := [LogReceived "scheduled"] |})).
  assert (Hfails : passFails simServices "shop-k" "inst-k" st1 requestFailed
                     {| world := world st1; console := console st1 |}).
  { apply FailsAtShoplineList. reflexivity. }
  rewrite (batch_stops_at_failing_store simServices "scheduled"
    (freshRun worldWithFailingStore) st1 _ worldWithFailingStore
    [linkedStore "shop-1" "inst-1"] [linkedStore "shop-2" "inst-2"]
    (linkedStore "shop-k" "inst-k") "inst-k" requestFailed
    eq_refl eq_refl eq_refl ltac:(discriminate) Hfails).
  reflexivity.
Defined.

(** C5 fails as stated.  The product [p1] of [shop-1] is reconciled (it
    is missing on Buy with Prime, so a create is pushed), the push is
    rejected, and the console ends up with no line for it. *)
Lemma failed_push_leaves_no_line :
  let run := handler simServices "scheduled" (freshRun worldRejectingPut) in
  fst run = inr failedResponse /\
  needsPush [] mug = true /\
  List.filter (isOutcomeOf "p1" "shop-1") (console (snd run)) = [].
Proof. vm_compute. repeat split; reflexivity. Qed.

(** Why the Shopline list has to have one product per id.  With the id
    [p1] listed twice under two titles, both pushes of the first run
    succeed and the second run still updates: the catalogue holds what
    the last push wrote. *)
Lemma repeated_id_updates_again :
  let first := handler simServices "scheduled" (freshRun worldWithRepeatedId) in
  let second := handler simServices "scheduled"
                        {| world := world (snd first); console := [] |} in
  console (snd first)
  = [LogReceived "scheduled"; LogCreated "p1" "shop-1";
     LogCreated "p1" "shop-1"] /\
  console (snd second)
  = [LogReceived "scheduled"; LogUpdated "p1" "shop-1";
     LogNoUpdate "p1" "shop-1"].
Proof. vm_compute. split; reflexivity. Qed.

(** One store, one product to create, nothing in the way. *)
Definition worldToCreate : Sim :=
  {| sim_installations := Some [linkedStore "shop-1" "inst-1"];
     sim_tokens := {[ "inst-1" := tokenItem "tok-1" ]};
     sim_shopline := {[ "shop-1" := [mug] ]};
     sim_bwp := {[ "tok-1" := [] ]};
     sim_putRejected := ∅ |}.

(** The mug is created on the first pass and skipped on the second. *)
Lemma second_run_skips_every_product_witness :
  let first := syncStore simServices (linkedStore "shop-1" "inst-1")
                         (freshRun worldToCreate) in
  console (snd first) = [LogCreated "p1" "shop-1"] /\
  console (snd (syncStore simServices (linkedStore "shop-1" "inst-1")
                          (snd first)))
  = [LogCreated "p1" "shop-1"; LogNoUpdate "p1" "shop-1"].
Proof.
  split; [reflexivity|].
  destruct (second_run_skips_every_product bwpUpsert worldToCreate []
    (linkedStore "shop-1" "inst-1") [mug]
    (snd (syncStore simServices (linkedStore "shop-1" "inst-1")
                    (freshRun worldToCreate)))
    bwpUpsert_stores bwpUpsert_leaves_others eq_refl eq_refl) as [_ H].
  - repeat constructor. simpl. tauto.
  - reflexivity.
  - unfold simServices in *. rewrite H. reflexivity.
Defined.

(** *** What a pass does to the catalogues *)

(** Between [w] and [w'] the tables and Shopline's lists are the same,
    every catalogue of [w] is still there, and a lookup by an id outside
    [ids] finds in it what it found before. *)
Definition untouchedOutside (ids : list string) (w w' : Sim) : Prop :=
  sim_installations w' = sim_installations w /\
  sim_tokens w' = sim_tokens w /\
  sim_shopline w' = sim_shopline w /\
  forall t catalogue,
    sim_bwp w !! t = Some catalogue ->
    exists catalogue',
      sim_bwp w' !! t = Some catalogue' /\
      forall i, ~ In i ids -> findById catalogue' i = findById catalogue i.

Lemma untouchedOutside_refl (ids : list string) (w : Sim) :
  untouchedOutside ids w w.
Proof. repeat split; try reflexivity. intros t catalogue H. eauto. Qed.

Lemma untouchedOutside_trans (ids : list string) (w1 w2 w3 : Sim) :
  untouchedOutside ids w1 w2 -> untouchedOutside ids w2 w3 ->
  untouchedOutside ids w1 w3.
Proof.
  intros (Hi & Ht & Hs & Hb) (Hi' & Ht' & Hs' & Hb').
  repeat split; try congruence.
  intros t catalogue H. destruct (Hb t catalogue H) as (c2 & H2 & Hsame).
  destruct (Hb' t c2 H2) as (c3 & H3 & Hsame'). exists c3. split; [exact H3|].
  intros i Hi0. rewrite Hsame', Hsame by assumption. reflexivity.
Qed.

Lemma updateBWPProduct_untouched (ids : list string)
      (installationId productId : string) (data : BwpFormat)
      (st st' : State Sim) (r : JsError + unit) :
  In productId ids ->
  updateBWPProduct simServices installationId productId data st = (r, st') ->
  untouchedOutside ids (world st) (world st').
Proof.
  intros Hin. destruct st as [w c].
  unfold updateBWPProduct, getBWPCredentials, bind, call. cbn.
  destruct (sim_tokens w !! installationId) as [item|]; cbn;
    [|intros [= _ <-]; apply untouchedOutside_refl].
  destruct (item_token item) as [t|]; cbn;
    [|intros [= _ <-]; apply untouchedOutside_refl].
  destruct (sim_bwp w !! t) as [catalogue|] eqn:Hcat; cbn;
    [|intros [= _ <-]; apply untouchedOutside_refl].
  destruct (bool_decide _); cbn; intros [= _ <-];
    [apply untouchedOutside_refl|].
  repeat split; try reflexivity. cbn. intros t' catalogue' H'.
  destruct (decide (t' = t)) as [->|Hne].
  - rewrite lookup_insert_eq. eexists. split; [reflexivity|].
    intros i Hi. assert (catalogue' = catalogue) as -> by congruence.
    apply findById_upsert_ne. intros ->. contradiction.
  - rewrite lookup_insert_ne by congruence. eauto.
Qed.

Lemma syncProduct_untouched (ids : list string)
      (bwpInstallationId handle : string) (bwpProducts : list Product)
      (a : Product) (st st' : State Sim) (r : JsError + unit) :
  In (p_id a) ids ->
  syncProduct simServices bwpInstallationId handle bwpProducts a st
  = (r, st') ->
  untouchedOutside ids (world st) (world st').
Proof.
  intros Hin.
  assert (Hpush : forall l,
    (updateBWPProduct simServices bwpInstallationId (p_id a)
       (convertToBWPFormat a);; consoleLog l) st = (r, st') ->
    untouchedOutside ids (world st) (world st')).
  { intros l. unfold bind.
    destruct (updateBWPProduct _ _ _ _ st) as [[e|[]] st1] eqn:Hput.
    - intros [= _ <-].
      exact (updateBWPProduct_untouched ids _ _ _ _ _ _ Hin Hput).
    - unfold consoleLog. intros [= _ <-]. cbn.
      exact (updateBWPProduct_untouched ids _ _ _ _ _ _ Hin Hput). }
  unfold syncProduct.
  destruct (findById bwpProducts (p_id a)) as [b|]; cbn.
  - destruct (compareProducts a b); [apply Hpush|].
    unfold consoleLog. intros [= _ <-]. apply untouchedOutside_refl.
  - apply Hpush.
Qed.

Lemma forOf_untouched (ids : list string) (bwpInstallationId handle : string)
      (bwpProducts shoplineProducts : list Product)
      (st st' : State Sim) (r : JsError + unit) :
  (forall a, In a shoplineProducts -> In (p_id a) ids) ->
  forOf shoplineProducts
        (syncProduct simServices bwpInstallationId handle bwpProducts) st
  = (r, st') ->
  untouchedOutside ids (world st) (world st').
Proof.
  revert st. induction shoplineProducts as [|a rest IH]; intros st Hids; cbn.
  - intros [= _ <-]. apply untouchedOutside_refl.
  - unfold bind.
    destruct (syncProduct _ _ _ _ a st) as [[e|[]] st1] eqn:Ha.
    + intros [= _ <-]. eapply syncProduct_untouched; [|exact Ha].
      apply Hids. now left.
    + intros Hrest. eapply untouchedOutside_trans.
      * eapply syncProduct_untouched; [|exact Ha]. apply Hids. now left.
      * eapply IH; [|exact Hrest]. intros x Hx. apply Hids. now right.
Qed.

(** X1.  A pass over a store changes, on Buy with Prime, only products
    whose id is in the store's Shopline list: whatever the outcome of the
    pass, every catalogue is still there, and a product whose id Shopline
    does not list is found in it exactly as before.  Nothing is deleted or
    overwritten for lack of a Shopline counterpart. *)
Theorem pass_leaves_unlisted_products_alone (w : Sim) (c : list LogLine)
        (store : Store) (shoplineProducts : list Product)
        (r : JsError + unit) (st1 : State Sim) :
  sim_shopline w !! store_id store = Some shoplineProducts ->
  syncStore simServices store {| world := w; console := c |} = (r, st1) ->
  forall t catalogue,
    sim_bwp w !! t = Some catalogue ->
    exists catalogue',
      sim_bwp (world st1) !! t = Some catalogue' /\
      forall i, ~ In i (map p_id shoplineProducts) ->
                findById catalogue' i = findById catalogue i.
Proof.
  intros Hshop Hrun.
  enough (H : untouchedOutside (map p_id shoplineProducts) w (world st1))
    by (destruct H as (_ & _ & _ & H); exact H).
  destruct (truthy (store_bwpInstallationId store)) eqn:Hlinked.
  - unfold simServices in Hrun.
    rewrite (syncStore_sim bwpUpsert store w c Hlinked), Hshop in Hrun.
    destruct (sim_tokens w !! _) as [item|];
      [|injection Hrun as _ <-; apply untouchedOutside_refl].
    destruct (item_token item ≫= _) as [bwpProducts|];
      [|injection Hrun as _ <-; apply untouchedOutside_refl].
    apply (forOf_untouched _ _ _ _ _ _ _ _ (fun a Ha => in_map p_id _ a Ha))
      in Hrun.
    exact Hrun.
  - rewrite (syncStore_not_linked simServices store _ Hlinked) in Hrun.
    injection Hrun as _ <-. apply untouchedOutside_refl.
Qed.

(** X2.  On a platform that keeps what is pushed to it: one whose PUT
    stores the title, description and price of the body under the id, an
    absent description as absent ([storesWhatIsPushed]), and leaves the
    products of other ids as they are ([leavesOtherIds]).  After a pass
    over a store that went through, such a platform holds every product of
    the store's Shopline list under its id with the same title,
    description and price, provided the Shopline products that share an id
    agree on these fields. *)
Theorem successful_pass_settles_every_product
        (put : string -> BwpFormat -> list Product -> list Product)
        (w : Sim) (c : list LogLine)
        (store : Store) (shoplineProducts : list Product)
        (st1 : State Sim) :
  storesWhatIsPushed put -> leavesOtherIds put ->
  truthy (store_bwpInstallationId store) = true ->
  sim_shopline w !! store_id store = Some shoplineProducts ->
  agreeingIds shoplineProducts ->
  syncStore (platformServices put) store {| world := w; console := c |}
  = (inr tt, st1) ->
  exists item t catalogue,
    sim_tokens w !! default "" (store_bwpInstallationId store) = Some item /\
    item_token item = Some t /\
    sim_bwp (world st1) !! t = Some catalogue /\
    forall a, In a shoplineProducts ->
      exists b, findById catalogue (p_id a) = Some b /\
                p_title b = p_title a /\
                p_description b = p_description a /\
                (p_price b == p_price a)%Q.
Proof.
  intros Hstores Hothers Hlinked Hshop Hagree Hrun.
  destruct (pass_settles put Hstores Hothers w c store shoplineProducts st1
              Hlinked Hshop Hagree Hrun)
    as (item & t & catalogue & Hitem & Htoken & Hworld & Hsettled).
  exists item, t, catalogue.
  split; [exact Hitem|]. split; [exact Htoken|].
  split; [rewrite Hworld; cbn; apply lookup_insert_eq|].
  intros a Ha.
  destruct (proj1 (List.Forall_forall _ _) Hsettled a Ha) as (b & Hb & Hcmp).
  exists b. split; [exact Hb|].
  unfold compareProducts in Hcmp.
  rewrite !orb_false_iff, !negb_false_iff in Hcmp.
  destruct Hcmp as [[Ht Hd] Hp].
  apply String.eqb_eq in Ht. apply optStringEqb_eq in Hd.
  apply Qeq_bool_iff in Hp.
  split; [congruence|]. split; [congruence|]. symmetry. exact Hp.
Qed.

(** A store whose catalogue holds a product that Shopline does not list. *)
Definition teapot : Product :=
  {| p_id := "p9"; p_title := "Teapot"; p_description := Some "cast iron";
     p_price := 45 # 1; p_rest := [("sku", "T-9")] |}.

Definition worldWithUnlisted : Sim :=
  {| sim_installations := Some [linkedStore "shop-1" "inst-1"];
     sim_tokens := {[ "inst-1" := tokenItem "tok-1" ]};
     sim_shopline := {[ "shop-1" := [mug] ]};
     sim_bwp := {[ "tok-1" := [teapot] ]};
     sim_putRejected := ∅ |}.

(** The mug is created; the teapot, which Shopline does not list, is
    still there as it was. *)
Lemma pass_leaves_unlisted_products_alone_witness :
  exists catalogue',
    sim_bwp (world (snd (syncStore simServices (linkedStore "shop-1" "inst-1")
                                   (freshRun worldWithUnlisted))))
      !! "tok-1" = Some catalogue' /\
    findById catalogue' "p9" = Some teapot.
Proof.
  destruct (pass_leaves_unlisted_products_alone worldWithUnlisted []
              (linkedStore "shop-1" "inst-1") [mug] _ _ eq_refl
              (surjective_pairing _) "tok-1" [teapot] eq_refl)
    as (catalogue' & Hthere & Hsame).
  exists catalogue'. split; [exact Hthere|].
  rewrite (Hsame "p9"); [reflexivity|].
  simpl. intros [H|[]]. discriminate H.
Defined.

(** After the pass the catalogue holds the mug with Shopline's fields. *)
Lemma successful_pass_settles_every_product_witness :
  exists catalogue b,
    sim_bwp (world (snd (syncStore simServices (linkedStore "shop-1" "inst-1")
                                   (freshRun worldWithUnlisted))))
      !! "tok-1" = Some catalogue /\
    findById catalogue "p1" = Some b /\ p_title b = "Mug".
Proof.
  destruct (successful_pass_settles_every_product bwpUpsert
              worldWithUnlisted []
              (linkedStore "shop-1" "inst-1") [mug]
              (snd (syncStore simServices (linkedStore "shop-1" "inst-1")
                              (freshRun worldWithUnlisted)))
              bwpUpsert_stores bwpUpsert_leaves_others eq_refl eq_refl)
    as (item & t & catalogue & Hitem & Htoken & Hcat & Hall).
  - apply distinct_ids_agree. repeat constructor. simpl. tauto.
  - reflexivity.
  - injection Hitem as <-. injection Htoken as <-.
    destruct (Hall mug (or_introl eq_refl)) as (b & Hb & Ht & _).
    exists catalogue, b. repeat split; assumption.
Defined.

End EventSync.

(** ** Product webhook (webhook.mjs)

    One Shopline product changed: fetch it from both platforms and push it
    to Buy with Prime when it differs.  The file carries its own copies of
    [getBWPCredentials], [updateBWPProduct], [compareProducts] and
    [convertToBWPFormat]; they read as the ones of the scheduled sync. *)

Module Webhook.

Import EventSync.

(** [JSON.parse(event.body)] followed by the destructuring of [handle] and
    [productId]: either it throws, or it yields the two properties, each a
    string or absent. *)
Inductive WebhookBody : Type :=
| BodyThrows (error : JsError)
| BodyPayload (handle productId : option string).

Inductive LogLine : Type :=
| LogUpdated (productId handle : string)
    (* Updated BWP product ... for store ... *)
| LogNoUpdate (productId handle : string)
    (* No update needed for BWP product ... for store ... *)
| LogError (error : JsError).
    (* Error processing webhook: ... *)

Section Handler.
Context {W : Type}.

Record Services : Type := mkServices {
  getInstallationItem : string -> W -> (JsError + option Store) * W;
  getTokenItem : string -> W -> (JsError + option TokenItem) * W;
  getShoplineSecret : W -> (JsError + Credentials) * W;
  getBwpSecret : W -> (JsError + Credentials) * W;
  httpGetShoplineProduct :
    string -> string -> option string -> W -> (JsError + Product) * W;
  httpGetBwpProduct :
    string -> option string -> W -> (JsError + Product) * W;
  httpPutBwpProduct :
    string -> BwpFormat -> option string -> W -> (JsError + unit) * W
}.

Record State : Type := mkState {
  world : W;
  console : list LogLine
}.

Variable svc : Services.

Definition call {A} (op : W -> (JsError + A) * W) : Exec State A :=
  fun st =>
    let '(r, w) := op (world st) in
    (r, {| world := w; console := console st |}).

Definition consoleLog (l : LogLine) : Exec State unit :=
  fun st => (inr tt, {| world := world st; console := console st ++ [l] |}).

Definition getShoplineCredentials : Exec State Credentials :=
  call (getShoplineSecret svc).

Definition getBWPCredentials (installationId : string)
  : Exec State Credentials :=
  tokenData <- call (getTokenItem svc installationId);;
  match tokenData with
  | None => throw (Error "BWP token not found")
  | Some item =>
      _ <- call (getBwpSecret svc);;
      ret {| accessToken := item_token item;
             refreshToken := item_refresh_token item |}
  end.

Definition getStoreInfo (handle : string) : Exec State Store :=
  storeData <- call (getInstallationItem svc handle);;
  match storeData with
  | None => throw (Error "Store information not found")
  | Some item => ret item
  end.

Definition getShoplineProduct (handle productId : string)
  : Exec State Product :=
  credentials <- getShoplineCredentials;;
  call (httpGetShoplineProduct svc handle productId (accessToken credentials)).

Definition getBWPProduct (installationId productId : string)
  : Exec State Product :=
  credentials <- getBWPCredentials installationId;;
  call (httpGetBwpProduct svc productId (accessToken credentials)).

Definition updateBWPProduct (installationId productId : string)
           (productData : BwpFormat) : Exec State unit :=
  credentials <- getBWPCredentials installationId;;
  call (httpPutBwpProduct svc productId productData (accessToken credentials)).

Definition parseBody (eventBody : WebhookBody)
  : Exec State (option string * option string) :=
  match eventBody with
  | BodyThrows error => throw error
  | BodyPayload handle productId => ret (handle, productId)
  end.

Definition handler (eventBody : WebhookBody) : Exec State Response :=
  tryCatch
    (webhookData <- parseBody eventBody;;
     let '(handle, productId) := webhookData in
     if negb (truthy handle) || negb (truthy productId) then
       ret {| statusCode := 400;
              body := BodyError "Missing required parameters" |}
     else
       let handle := default "" handle in
       let productId := default "" productId in
       storeInfo <- getStoreInfo handle;;
       let bwpInstallationId := store_bwpInstallationId storeInfo in
       if negb (truthy bwpInstallationId) then
         throw (Error "BWP installation ID not found for this store")
       else
         let bwpInstallationId := default "" bwpInstallationId in
         shoplineProduct <- getShoplineProduct handle productId;;
         bwpProduct <- getBWPProduct bwpInstallationId productId;;
         (if compareProducts shoplineProduct bwpProduct then
            let updatedBWPProduct := convertToBWPFormat shoplineProduct in
            updateBWPProduct bwpInstallationId productId updatedBWPProduct;;
            consoleLog (LogUpdated productId handle)
          else
            consoleLog (LogNoUpdate productId handle));;
         ret {| statusCode := 200;
                body := BodyMessage "Webhook processed successfully" |})
    (fun error =>
       consoleLog (LogError error);;
       ret {| statusCode := 500;
              body := BodyError "Failed to process webhook" |}).

End Handler.
Arguments Services : clear implicits.
Arguments State : clear implicits.

(** A world with a single installation item and nothing else to answer. *)
Definition oneStoreServices (store : Store) : Services unit :=
  {| getInstallationItem handle w :=
       (inr (if String.eqb handle (store_id store) then Some store else None),
        w);
     getTokenItem installationId w := (inr None, w);
     getShoplineSecret w :=
       (inr {| accessToken := None; refreshToken := None |}, w);
     getBwpSecret w :=
       (inr {| accessToken := None; refreshToken := None |}, w);
     httpGetShoplineProduct handle productId authorization w :=
       (inl requestFailed, w);
     httpGetBwpProduct productId authorization w := (inl requestFailed, w);
     httpPutBwpProduct productId data authorization w :=
       (inl requestFailed, w) |}.

Definition unlinkedStore : Store :=
  {| store_id := "shop-1"; store_bwpInstallationId := None |}.

Definition notLinked : JsError :=
  Error "BWP installation ID not found for this store".

(** C6 fails as stated.  A webhook for a store that has no Buy with
    Prime installation id is not skipped: the handler throws, logs the
    error and answers 500. *)
Lemma webhook_for_unlinked_store_is_an_error :
  handler (oneStoreServices unlinkedStore)
          (BodyPayload (Some "shop-1") (Some "p1"))
          {| world := tt; console := [] |}
  = (inr {| statusCode := 500; body := BodyError "Failed to process webhook" |},
     {| world := tt; console := [LogError notLinked] |}).
Proof. reflexivity. Qed.

(** C6, as the code has it.  The scheduled sync passes over a store
    without installation id: it writes the skipping line, calls neither
    platform and goes on.  The webhook handler throws for such a store
    right after reading its item: it fetches no product, pushes nothing,
    logs the error and answers 500. *)
Theorem unlinked_store_skipped_in_batch_error_in_webhook :
  (forall W (svc : EventSync.Services W) (store : Store)
          (st : EventSync.State W),
      truthy (store_bwpInstallationId store) = false ->
      syncStore svc store st
      = (inr tt,
         {| EventSync.world := EventSync.world st;
            EventSync.console :=
              EventSync.console st ++ [LogSkipStore (store_id store)] |}))
  /\
  (forall W (svc : Services W) (handle productId : option string)
          (store : Store) (st st1 : State W),
      truthy handle = true -> truthy productId = true ->
      getStoreInfo svc (default "" handle) st = (inr store, st1) ->
      truthy (store_bwpInstallationId store) = false ->
      handler svc (BodyPayload handle productId) st
      = (inr {| statusCode := 500;
                body := BodyError "Failed to process webhook" |},
         {| world := world st1;
            console := console st1 ++ [LogError notLinked] |})).
Proof.
  split.
  - intros W svc store st H. now apply syncStore_not_linked.
  - intros W svc handle productId store st st1 Hh Hp Hstore Hun.
    unfold handler, tryCatch, bind. simpl. rewrite Hh, Hp. simpl.
    rewrite Hstore, Hun. reflexivity.
Qed.

(** The same store record in both modes. *)
Lemma unlinked_store_skipped_in_batch_error_in_webhook_witness :
  syncStore simServices unlinkedStore (freshRun worldToCreate)
  = (inr tt, {| EventSync.world := worldToCreate;
                EventSync.console := [LogSkipStore "shop-1"] |})
  /\
  fst (handler (oneStoreServices unlinkedStore)
               (BodyPayload (Some "shop-1") (Some "p1"))
               {| world := tt; console := [] |})
  = inr {| statusCode := 500; body := BodyError "Failed to process webhook" |}.
Proof.
  destruct unlinked_store_skipped_in_batch_error_in_webhook as [Hb Hw].
  split.
  - exact (Hb Sim simServices unlinkedStore (freshRun worldToCreate) eq_refl).
  - rewrite (Hw unit (oneStoreServices unlinkedStore) (Some "shop-1")
               (Some "p1") unlinkedStore {| world := tt; console := [] |}
               {| world := tt; console := [] |}
               eq_refl eq_refl eq_refl eq_refl).
    reflexivity.
Defined.

(** *** Requests the handler turns down, and what it pushes *)

(** X3.  A webhook whose body lacks [handle] or [productId] (absent or
    empty) is answered 400 "Missing required parameters" before any table
    or platform is contacted; nothing is logged. *)
Theorem webhook_rejects_missing_parameters {W} (svc : Services W)
        (handle productId : option string) (st : State W) :
  truthy handle = false \/ truthy productId = false ->
  handler svc (BodyPayload handle productId) st
  = (inr {| statusCode := 400;
            body := BodyError "Missing required parameters" |}, st).
Proof.
  intros H. unfold handler, tryCatch, bind. cbn.
  destruct H as [-> | ->]; cbn; rewrite ?orb_true_r; reflexivity.
Qed.

(** X4.  The webhook never creates a product.  When the request for the
    product on Buy with Prime fails (as it does for a product that is not
    there), the handler logs the error and answers 500; the world is the
    one the failed request left, so no PUT went out. *)
Theorem missing_counterpart_is_not_created {W} (svc : Services W)
        (handle productId : option string) (store : Store) (a : Product)
        (error : JsError) (st st1 st2 st3 : State W) :
  truthy handle = true -> truthy productId = true ->
  getStoreInfo svc (default "" handle) st = (inr store, st1) ->
  truthy (store_bwpInstallationId store) = true ->
  getShoplineProduct svc (default "" handle) (default "" productId) st1
  = (inr a, st2) ->
  getBWPProduct svc (default "" (store_bwpInstallationId store))
                (default "" productId) st2
  = (inl error, st3) ->
  handler svc (BodyPayload handle productId) st
  = (inr {| statusCode := 500; body := BodyError "Failed to process webhook" |},
     {| world := world st3; console := console st3 ++ [LogError error] |}).
Proof.
  intros Hh Hp Hstore Hlinked Ha Hb.
  unfold handler, tryCatch, bind. cbn. rewrite Hh, Hp. cbn.
  rewrite Hstore, Hlinked. cbn. rewrite Ha, Hb. reflexivity.
Qed.

(** The push as a sequence of requests: the token item of the
    installation is read, then the Buy with Prime secret, then one PUT goes
    out under the product id of the webhook, carrying the title, the
    description and the price of the Shopline product and the token of the
    item as bearer. *)
Definition pushRequest {W} (svc : Services W)
           (installationId productId : string) (a : Product) (w : W)
  : (JsError + unit) * W :=
  match getTokenItem svc installationId w with
  | (inl error, w1) => (inl error, w1)
  | (inr None, w1) => (inl (Error "BWP token not found"), w1)
  | (inr (Some item), w1) =>
      match getBwpSecret svc w1 with
      | (inl error, w2) => (inl error, w2)
      | (inr _, w2) =>
          httpPutBwpProduct svc productId
            {| f_title := p_title a;
               f_description := p_description a;
               f_price := p_price a |}
            (item_token item) w2
      end
  end.

Lemma webhook_update_is_pushRequest {W} (svc : Services W)
      (installationId productId : string) (a : Product) (st : State W) :
  updateBWPProduct svc installationId productId (convertToBWPFormat a) st
  = (fst (pushRequest svc installationId productId a (world st)),
     {| world := snd (pushRequest svc installationId productId a (world st));
        console := console st |}).
Proof.
  unfold updateBWPProduct, getBWPCredentials, pushRequest, bind, call,
    convertToBWPFormat.
  destruct (getTokenItem svc installationId (world st)) as [[e|[item|]] w1];
    cbn; try reflexivity.
  destruct (getBwpSecret svc w1) as [[e|secret] w2]; cbn; [reflexivity|].
  destruct (httpPutBwpProduct svc _ _ _ w2) as [r w3]. reflexivity.
Qed.

(** X5.  With both products fetched, the webhook pushes exactly when
    title, description or price differ.  When they agree it writes "no
    update needed", sends nothing and answers 200.  When they differ it
    reads the token item and the secret and sends one PUT under the
    product id with the title, description and price of the Shopline
    product; it answers 200 with the "updated" line when the PUT went
    through and 500 with the error line, and no "updated" line, when one of
    the three requests failed. *)
Theorem webhook_pushes_only_changed_products {W} (svc : Services W)
        (handle productId : option string) (store : Store) (a b : Product)
        (st st1 st2 st3 : State W) :
  truthy handle = true -> truthy productId = true ->
  getStoreInfo svc (default "" handle) st = (inr store, st1) ->
  truthy (store_bwpInstallationId store) = true ->
  getShoplineProduct svc (default "" handle) (default "" productId) st1
  = (inr a, st2) ->
  getBWPProduct svc (default "" (store_bwpInstallationId store))
                (default "" productId) st2
  = (inr b, st3) ->
  (~ fieldsDiffer a b ->
   handler svc (BodyPayload handle productId) st
   = (inr {| statusCode := 200;
             body := BodyMessage "Webhook processed successfully" |},
      {| world := world st3;
         console := console st3
                    ++ [LogNoUpdate (default "" productId)
                                    (default "" handle)] |}))
  /\
  (fieldsDiffer a b ->
   handler svc (BodyPayload handle productId) st
   = match pushRequest svc (default "" (store_bwpInstallationId store))
                       (default "" productId) a (world st3)
     with
     | (inr _, w4) =>
         (inr {| statusCode := 200;
                 body := BodyMessage "Webhook processed successfully" |},
          {| world := w4;
             console := console st3
                        ++ [LogUpdated (default "" productId)
                                       (default "" handle)] |})
     | (inl error, w4) =>
         (inr {| statusCode := 500;
                 body := BodyError "Failed to process webhook" |},
          {| world := w4;
             console := console st3 ++ [LogError error] |})
     end).
Proof.
  intros Hh Hp Hstore Hlinked Ha Hb.
  split; intros Hcmp.
  - apply compareProducts_false in Hcmp.
    unfold handler, tryCatch, bind. cbn. rewrite Hh, Hp. cbn.
    rewrite Hstore, Hlinked. cbn. rewrite Ha, Hb, Hcmp. reflexivity.
  - apply compareProducts_true in Hcmp.
    unfold handler, tryCatch, bind. cbn. rewrite Hh, Hp. cbn.
    rewrite Hstore, Hlinked. cbn. rewrite Ha, Hb, Hcmp.
    rewrite webhook_update_is_pushRequest.
    destruct (pushRequest _ _ _ _ (world st3)) as [[e|[]] w4]; reflexivity.
Qed.

(** A world that answers for one store and one product and keeps the
    list of the PUT requests it received.  Buy with Prime has the product
    or not. *)
Definition recordingServices (store : Store) (a : Product)
           (b : option Product) : Services (list (string * BwpFormat)) :=
  {| getInstallationItem handle w :=
       (inr (if String.eqb handle (store_id store) then Some store else None),
        w);
     getTokenItem installationId w := (inr (Some (tokenItem "tok-1")), w);
     getShoplineSecret w :=
       (inr {| accessToken := None; refreshToken := None |}, w);
     getBwpSecret w :=
       (inr {| accessToken := None; refreshToken := None |}, w);
     httpGetShoplineProduct handle productId authorization w := (inr a, w);
     httpGetBwpProduct productId authorization w :=
       (match b with Some found => inr found | None => inl requestFailed end,
        w);
     httpPutBwpProduct productId data authorization w :=
       (inr tt, w ++ [(productId, data)]) |}.

Definition quiet {W} (w : W) : State W := {| world := w; console := [] |}.

(** The mug is on Shopline and not on Buy with Prime: nothing is sent. *)
Lemma missing_counterpart_is_not_created_witness :
  world (snd (handler (recordingServices (linkedStore "shop-1" "inst-1")
                                         mug None)
                      (BodyPayload (Some "shop-1") (Some "p1")) (quiet [])))
  = [].
Proof.
  rewrite (missing_counterpart_is_not_created
             (recordingServices (linkedStore "shop-1" "inst-1") mug None)
             (Some "shop-1") (Some "p1") (linkedStore "shop-1" "inst-1") mug
             requestFailed (quiet []) (quiet []) (quiet []) (quiet [])
             eq_refl eq_refl eq_refl eq_refl eq_refl eq_refl).
  reflexivity.
Defined.

(** Buy with Prime has the product under the title "Cup": the mug's
    fields are sent. *)
Lemma webhook_pushes_only_changed_products_witness :
  world (snd (handler (recordingServices (linkedStore "shop-1" "inst-1")
                                         mug (Some cup))
                      (BodyPayload (Some "shop-1") (Some "p1")) (quiet [])))
  = [("p1", {| f_title := "Mug"; f_description := None;
                f_price := 999 # 100 |})].
Proof.
  destruct (webhook_pushes_only_changed_products
              (recordingServices (linkedStore "shop-1" "inst-1") mug (Some cup))
              (Some "shop-1") (Some "p1") (linkedStore "shop-1" "inst-1")
              mug cup (quiet []) (quiet []) (quiet []) (quiet [])
              eq_refl eq_refl eq_refl eq_refl eq_refl eq_refl)
    as [_ Hpush].
  rewrite Hpush; [reflexivity|].
  left. discriminate.
Defined.

(** A body without product id. *)
Lemma webhook_rejects_missing_parameters_witness :
  fst (handler (oneStoreServices unlinkedStore)
               (BodyPayload (Some "shop-1") None) (quiet tt))
  = inr {| statusCode := 400;
           body := BodyError "Missing required parameters" |}.
Proof.
  rewrite (webhook_rejects_missing_parameters (oneStoreServices unlinkedStore)
             (Some "shop-1") None (quiet tt) (or_intror eq_refl)).
  reflexivity.
Defined.

End Webhook.

(** ** Objects with string properties

    [Obj] holds the own properties of an object in the order they were
    created; keys are distinct.  Enumeration ([Object.keys],
    [Object.entries]) does not follow creation order alone: keys that are
    array indices come first, in ascending numeric order, and the other
    keys follow in creation order. *)

Module JsObject.

Definition Obj : Type := list (string * string).

Definition hasKey (k : string) (kv : string * string) : bool :=
  String.eqb (fst kv) k.

(** [o[k]], for a name that is an own property of [o] or that
    [Object.prototype] does not define; the handlers read no other. *)
Definition getProp (o : Obj) (k : string) : option string :=
  match find (hasKey k) o with
  | Some kv => Some (snd kv)
  | None => None
  end.

(** [o[k] = v] for a string [v], on an object made by a literal.  An own
    property is overwritten and a new one is added last; the name
    [__proto__], when the object has no own property of that name, goes to
    the setter of [Object.prototype], which ignores a string. *)
Definition setProp (o : Obj) (k v : string) : Obj :=
  if existsb (hasKey k) o
  then map (fun kv => if hasKey k kv then (k, v) else kv) o
  else if String.eqb k "__proto__" then o
  else o ++ [(k, v)].

Definition digitValue (c : ascii) : option N :=
  let n := N_of_ascii c in
  if (48 <=? n)%N && (n <=? 57)%N then Some (n - 48)%N else None.

Fixpoint digitsValue (s : string) (acc : N) : option N :=
  match s with
  | EmptyString => Some acc
  | String c rest =>
      match digitValue c with
      | Some d => digitsValue rest (10 * acc + d)%N
      | None => None
      end
  end.

(** A key is an array index when it is the decimal form, without leading
    zeros, of an integer below 2^32 - 1. *)
Definition arrayIndex (k : string) : option N :=
  match k with
  | EmptyString => None
  | String c rest =>
      if Ascii.eqb c "0" && negb (String.eqb rest "") then None
      else
        match digitsValue k 0%N with
        | Some n => if (n <? 2 ^ 32 - 1)%N then Some n else None
        | None => None
        end
  end.

Definition isArrayIndex (k : string) : bool :=
  match arrayIndex k with Some _ => true | None => false end.

Fixpoint insertBy {A} (le : A -> A -> bool) (x : A) (l : list A) : list A :=
  match l with
  | [] => [x]
  | y :: rest => if le x y then x :: l else y :: insertBy le x rest
  end.

Definition sortBy {A} (le : A -> A -> bool) (l : list A) : list A :=
  fold_right (insertBy le) [] l.

Definition indexLe (j k : string) : bool :=
  match arrayIndex j, arrayIndex k with
  | Some m, Some n => (m <=? n)%N
  | _, _ => true
  end.

(** [Object.keys(o)] *)
Definition ownKeys (o : Obj) : list string :=
  sortBy indexLe (List.filter isArrayIndex (map fst o))
  ++ List.filter (fun k => negb (isArrayIndex k)) (map fst o).

(** [Object.entries(o)] *)
Definition entries (o : Obj) : list (string * string) :=
  map (fun k => (k, default "undefined" (getProp o k))) (ownKeys o).

(** [const { k, ...rest } = o]: [rest] receives the other properties in
    enumeration order. *)
Definition withoutProp (o : Obj) (k : string) : Obj :=
  List.filter (fun kv => negb (hasKey k kv)) (entries o).

(** A string of the embedding stands for the JavaScript string that its
    bytes encode in UTF-8, a lone surrogate by its three bytes; bytes that
    encode nothing read as U+FFFD. *)
Definition startByte (b : N) : option N * N * N :=
  (if b <? 128 then (Some b, 0, 0)
   else if b <? 192 then (Some 65533, 0, 0)
   else if b <? 224 then (None, 1, b - 192)
   else if b <? 240 then (None, 2, b - 224)
   else if b <? 248 then (None, 3, b - 240)
   else (Some 65533, 0, 0))%N.

(** The code points of a byte sequence; [pending] continuation bytes are
    still due for the code point begun in [acc]. *)
Fixpoint codePoints (bytes : list N) (pending acc : N) : list N :=
  match bytes with
  | [] => if (pending =? 0)%N then [] else [65533%N]
  | b :: rest =>
      if (0 <? pending)%N && (128 <=? b)%N && (b <? 192)%N then
        let acc' := (acc * 64 + (b - 128))%N in
        if (pending =? 1)%N then acc' :: codePoints rest 0%N 0%N
        else codePoints rest (pending - 1)%N acc'
      else
        let '(emitted, due, begun) := startByte b in
        (if (0 <? pending)%N then [65533%N] else [])
        ++ match emitted with Some c => [c] | None => [] end
        ++ codePoints rest due begun
  end.

(** The UTF-16 code units of a code point. *)
Definition utf16 (c : N) : list N :=
  (if c <? 65536 then [c]
   else if c <? 1114112 then
     [55296 + (c - 65536) / 1024; 56320 + (c - 65536) mod 1024]
   else [65533])%N.

Definition codeUnits (s : string) : list N :=
  flat_map utf16 (codePoints (map N_of_ascii (list_ascii_of_string s)) 0%N 0%N).

Fixpoint unitsLe (j k : list N) : bool :=
  match j, k with
  | [], _ => true
  | _ :: _, [] => false
  | x :: j', y :: k' =>
      if (x <? y)%N then true
      else if (y <? x)%N then false
      else unitsLe j' k'
  end.

(** The order of [sort] without comparator: by UTF-16 code units. *)
Definition keyLe (j k : string) : bool :=
  unitsLe (codeUnits j) (codeUnits k).

(** [keys.sort()] *)
Definition sortKeys (keys : list string) : list string :=
  sortBy keyLe keys.

End JsObject.
Import JsObject.

(** ** The Shopline secret

    The JSON document kept in Secrets Manager: the app key and secret and,
    once a store has completed the callback, its tokens by handle.
    [expiresAt] is [None] when the stored value is not a number. *)

Module ShoplineSecret.

Record TokenData : Type := mkTokenData {
  accessToken : option string;
  refreshToken : option string;
  expiresAt : option Z
}.

Record Credentials : Type := mkCredentials {
  appKey : option string;
  appSecret : option string;
  tokens : option (list (string * TokenData))
}.

(** What the token endpoints answer: [access_token], [refresh_token] and
    [expires_in] (seconds). *)
Record TokenResponse : Type := mkTokenResponse {
  access_token : option string;
  refresh_token : option string;
  expires_in : option Z
}.

(** The response of [fetch]: [ok], and what [text()] and [json()] give or
    throw. *)
Record FetchResponse : Type := mkFetchResponse {
  ok : bool;
  text : JsError + string;
  json : JsError + TokenResponse
}.

(** [Date.now() + (expires_in * 1000)]: [NaN] when [expires_in] is
    absent. *)
Definition expiryFrom (now : Z) (expiresIn : option Z) : option Z :=
  match expiresIn with
  | Some seconds => Some (now + seconds * 1000)
  | None => None
  end.

(** A time value is a number of milliseconds of at most 8.64e15 in
    absolute value. *)
Definition maxTime : Z := 8640000000000000.

Definition validTime (ms : Z) : bool :=
  (- maxTime <=? ms) && (ms <=? maxTime).

(** [new Date(ms).toISOString()] throws a [RangeError] for what is not a
    time value; the date is kept as its milliseconds. *)
Definition toISOString (ms : option Z) : JsError + Z :=
  match ms with
  | Some t => if validTime t then inr t else inl (Error "Invalid time value")
  | None => inl (Error "Invalid time value")
  end.

(** [tokens[handle] = data] on the tokens object. *)
Fixpoint setToken (tokens : list (string * TokenData)) (handle : string)
         (data : TokenData) : list (string * TokenData) :=
  match tokens with
  | [] => [(handle, data)]
  | (h, d) :: rest =>
      if String.eqb h handle then (h, data) :: rest
      else (h, d) :: setToken rest handle data
  end.

Definition getToken (tokens : list (string * TokenData)) (handle : string)
  : option TokenData :=
  match find (fun hd => String.eqb (fst hd) handle) tokens with
  | Some hd => Some (snd hd)
  | None => None
  end.

End ShoplineSecret.

(** ** Shopline request signatures

    Two handlers check the [sign] query parameter before anything else:
    the callback handler (callback.mjs, lines 1-156) with MD5 over the
    string followed by the secret, and the install handler (lines 157-273)
    with HMAC-SHA256 keyed by the app secret.  The digests themselves come
    from Node's [crypto]. *)

Module ShoplineSign.

Record Crypto : Type := mkCrypto {
  md5Hex : string -> string;
  hmacSha256Hex : string -> string -> string   (* key, then message *)
}.

(** The first half of [generateSign], the same in both files: copy the
    properties into a new object in sorted key order, then join its
    entries. *)
Definition sortedParams (params : Obj) : Obj :=
  fold_left
    (fun acc key => setProp acc key (default "undefined" (getProp params key)))
    (sortKeys (ownKeys params)) [].

Definition signString (params : Obj) : string :=
  String.concat "&"
    (map (fun kv => (fst kv ++ "=" ++ snd kv)%string)
         (entries (sortedParams params))).

(** What the comment in the code and the specification describe: the
    pairs in lexicographic order of their keys. *)
Definition canonicalString (params : Obj) : string :=
  String.concat "&"
    (map (fun k => (k ++ "=" ++ default "undefined" (getProp params k))%string)
         (sortKeys (map fst params))).

Import ShoplineSecret.

Inductive Body : Type :=
| BodyError (error : string).

(** Where a 302 sends the browser. *)
Inductive Location : Type :=
| AuthorizePage (handle : string) (appKey : option string)
    (* https://HANDLE.myshopline.com/admin/oauth-web/#/oauth/authorize?... *)
| InstallationSuccess (handle : string).
    (* APP_URL/installation-success?handle=HANDLE *)

Record Response : Type := mkResponse {
  statusCode : Z;
  body : option Body;
  location : option Location
}.

Definition errorResponse (code : Z) (message : string) : Response :=
  {| statusCode := code; body := Some (BodyError message); location := None |}.

Definition redirect (target : Location) : Response :=
  {| statusCode := 302; body := None; location := Some target |}.

Record Event : Type := mkEvent {
  queryStringParameters : option Obj
}.

(** [Math.floor(Date.now() / 1000).toString()] *)
Definition unixSeconds (now : Z) : string :=
  DecimalString.NilZero.string_of_int (Z.to_int (now / 1000)).

Section Shared.
Context {W : Type}.

(** [Date.now()] *)
Definition dateNow (clock : W -> Z * W) : Exec W Z :=
  fun w => let '(now, w') := clock w in (inr now, w').

(** [getShoplineCredentials]: whatever goes wrong is replaced by one
    error. *)
Definition getShoplineCredentials
           (getSecret : W -> (JsError + Credentials) * W)
  : Exec W Credentials :=
  tryCatch getSecret
           (fun _ => throw (Error "Failed to get Shopline credentials")).

End Shared.

(** *** The install handler: HMAC-SHA256 (lines 157-273) *)

Module Install.

(** The item written to the installation table. *)
Record InstallingItem : Type := mkInstallingItem {
  ii_id : string;
  ii_appkey : string;
  ii_timestamp : string;
  ii_createdAt : Z
}.

Section Handler.
Context {W : Type}.
Variable crypto : Crypto.

Record Services : Type := mkServices {
  getSecret : W -> (JsError + Credentials) * W;
  clock : W -> Z * W;
  putItem : InstallingItem -> W -> (JsError + unit) * W
}.

(** [createHmac] throws when the key is not a string. *)
Definition generateSign (params : Obj) (secret : option string)
  : Exec W string :=
  match secret with
  | Some key => ret (hmacSha256Hex crypto key (signString params))
  | None => throw (Error "The key argument must be of type string")
  end.

Definition verifySign (params : Obj) (secret : option string)
  : Exec W bool :=
  let sign := getProp params "sign" in
  let rest := withoutProp params "sign" in
  calculatedSign <- generateSign rest secret;;
  ret (optStringEqb sign (Some calculatedSign)).

Definition handler (svc : Services) (event : Event) : Exec W Response :=
  tryCatch
    (let params := default [] (queryStringParameters event) in
     let appkey := getProp params "appkey" in
     let handle := getProp params "handle" in
     let timestamp := getProp params "timestamp" in
     let sign := getProp params "sign" in
     if negb (truthy appkey) || negb (truthy handle)
        || negb (truthy timestamp) || negb (truthy sign)
     then ret (errorResponse 400 "Missing required parameters")
     else
       credentials <- getShoplineCredentials (getSecret svc);;
       valid <- verifySign params (appSecret credentials);;
       if negb valid then ret (errorResponse 401 "Invalid signature")
       else
         now <- dateNow (clock svc);;
         putItem svc {| ii_id := default "" handle;
                        ii_appkey := default "" appkey;
                        ii_timestamp := default "" timestamp;
                        ii_createdAt := now |};;
         ret (redirect (AuthorizePage (default "" handle)
                                      (appKey credentials))))
    (fun _ => ret (errorResponse 500 "Installation failed")).

End Handler.
Arguments Services : clear implicits.

End Install.

(** *** The callback handler: MD5 over the string followed by the secret
    (lines 1-156) *)

Module Callback.

Section Handler.
Context {W : Type}.
Variable crypto : Crypto.

Record Services : Type := mkServices {
  getSecret : W -> (JsError + Credentials) * W;
  clock : W -> Z * W;
  (* POST https://HANDLE.myshopline.com/admin/oauth/token/create with the
     appkey, timestamp and sign headers and the code in the body *)
  fetchToken :
    string -> option string -> string -> string -> string ->
    W -> (JsError + FetchResponse) * W;
  putSecret : Credentials -> W -> (JsError + unit) * W;
  (* status installed, updatedAt, tokenExpiry for the handle;
     [toISOString] throws before the call when the expiry is not a date *)
  updateItem : string -> Z -> Z -> W -> (JsError + unit) * W
}.

(** [signString + secret]: an absent secret is spelled out. *)
Definition generateSign (params : Obj) (secret : option string) : string :=
  md5Hex crypto (signString params ++ default "undefined" secret)%string.

Definition verifySign (params : Obj) (secret : option string) : bool :=
  let sign := getProp params "sign" in
  let rest := withoutProp params "sign" in
  let calculatedSign := generateSign rest secret in
  optStringEqb sign (Some calculatedSign).

Definition handler (svc : Services) (event : Event) : Exec W Response :=
  tryCatch
    (let params := default [] (queryStringParameters event) in
     let appkey := getProp params "appkey" in
     let code := getProp params "code" in
     let handle := getProp params "handle" in
     let timestamp := getProp params "timestamp" in
     let sign := getProp params "sign" in
     if negb (truthy appkey) || negb (truthy code) || negb (truthy handle)
        || negb (truthy timestamp) || negb (truthy sign)
     then ret (errorResponse 400 "Missing required parameters")
     else
       let handle := default "" handle in
       let code := default "" code in
       credentials <- getShoplineCredentials (getSecret svc);;
       if negb (verifySign params (appSecret credentials))
       then ret (errorResponse 401 "Invalid signature")
       else
         now <- dateNow (clock svc);;
         let tokenParams : Obj :=
           [("appkey", default "undefined" (appKey credentials));
            ("timestamp", unixSeconds now)] in
         let tokenSign := generateSign tokenParams (appSecret credentials) in
         tokenResponse <- fetchToken svc handle (appKey credentials)
                                     (unixSeconds now) tokenSign code;;
         if negb (ok tokenResponse)
         then
           match text tokenResponse with
           | inl error => throw error
           | inr _ => ret (errorResponse 500 "Failed to get access token")
           end
         else
           match json tokenResponse with
           | inl error => throw error
           | inr tokenData =>
               now1 <- dateNow (clock svc);;
               putSecret svc
                 {| appKey := appKey credentials;
                    appSecret := appSecret credentials;
                    tokens :=
                      Some (setToken (default [] (tokens credentials)) handle
                              {| accessToken := access_token tokenData;
                                 refreshToken := refresh_token tokenData;
                                 expiresAt :=
                                   expiryFrom now1 (expires_in tokenData) |})
                 |};;
               now2 <- dateNow (clock svc);;
               now3 <- dateNow (clock svc);;
               match toISOString (expiryFrom now3 (expires_in tokenData)) with
               | inl error => throw error
               | inr tokenExpiry => updateItem svc handle now2 tokenExpiry
               end;;
               ret (redirect (InstallationSuccess handle))
           end)
    (fun _ => ret (errorResponse 500 "Failed to complete installation")).

End Handler.
Arguments Services : clear implicits.

End Callback.

(** *** Sorting and enumeration *)

Lemma insertBy_perm {A} (le : A -> A -> bool) (x : A) (l : list A) :
  Permutation (insertBy le x l) (x :: l).
Proof.
  induction l as [|y rest IH]; simpl; [reflexivity|].
  destruct (le x y); [reflexivity|].
  rewrite IH. apply perm_swap.
Qed.

Lemma sortBy_perm {A} (le : A -> A -> bool) (l : list A) :
  Permutation (sortBy le l) l.
Proof.
  induction l as [|x rest IH]; simpl; [reflexivity|].
  rewrite insertBy_perm. now constructor.
Qed.

Lemma insertBy_sorted {A} (le : A -> A -> bool) (x : A) (l : list A) :
  (forall a b, le a b = true \/ le b a = true) ->
  Sorted (fun a b => le a b = true) l ->
  Sorted (fun a b => le a b = true) (insertBy le x l).
Proof.
  intros Htotal Hsorted.
  induction Hsorted as [|y rest Hrest IH Hhd]; simpl.
  - repeat constructor.
  - destruct (le x y) eqn:Exy.
    + constructor; [now constructor | now constructor].
    + constructor; [exact IH|].
      assert (Hyx : le y x = true) by (destruct (Htotal x y); congruence).
      destruct Hhd as [|z rest' Hyz]; simpl.
      * now constructor.
      * destruct (le x z); now constructor.
Qed.

Lemma unitsLe_total (j k : list N) :
  unitsLe j k = true \/ unitsLe k j = true.
Proof.
  revert k. induction j as [|x j IH]; intros [|y k]; simpl; auto.
  destruct (N.ltb_spec x y), (N.ltb_spec y x); auto; lia.
Qed.

(** [sortKeys] is the sort it stands for: its result is ordered by code
    units and has the same keys. *)
Lemma sortKeys_sorted (keys : list string) :
  Sorted (fun a b => keyLe a b = true) (sortKeys keys) /\
  Permutation (sortKeys keys) keys.
Proof.
  split; [|apply sortBy_perm].
  unfold sortKeys. induction keys as [|k rest IH]; simpl.
  - constructor.
  - apply insertBy_sorted; [|exact IH].
    intros a b. apply unitsLe_total.
Qed.

(** On keys of ASCII characters the order is the one of [String.leb]. *)
Lemma keyLe_examples :
  keyLe "10" "9" = true /\ keyLe "9" "10" = false /\
  keyLe "appkey" "handle" = true /\ keyLe "Z" "a" = true /\
  keyLe "a" "ab" = true /\ keyLe "ab" "a" = false.
Proof. vm_compute. repeat split; reflexivity. Qed.

(** Beyond the basic plane the order is not the one of the bytes: U+10000
    is a surrogate pair and sorts before U+FF5E. *)
Lemma keyLe_surrogates :
  codeUnits "𐀀" = [55296%N; 56320%N] /\ codeUnits "～" = [65374%N] /\
  keyLe "𐀀" "～" = true /\ keyLe "～" "𐀀" = false /\
  String.leb "𐀀" "～" = false.
Proof. vm_compute. repeat split; reflexivity. Qed.

Lemma filter_none {A} (f : A -> bool) (l : list A) :
  (forall x, In x l -> f x = false) -> List.filter f l = [].
Proof.
  induction l as [|x rest IH]; simpl; intros H; [reflexivity|].
  rewrite (H x) by now left. apply IH. intros y Hy. apply H. now right.
Qed.

Lemma filter_all {A} (f : A -> bool) (l : list A) :
  (forall x, In x l -> f x = true) -> List.filter f l = l.
Proof.
  induction l as [|x rest IH]; simpl; intros H; [reflexivity|].
  rewrite (H x) by now left. f_equal. apply IH. intros y Hy. apply H.
  now right.
Qed.

(** An object without array-index keys is enumerated in creation
    order. *)
Definition plainKeys (keys : list string) : Prop :=
  List.NoDup keys /\ forall k, In k keys -> isArrayIndex k = false.

(** Keys that are copied as they are: no array index and no [__proto__]. *)
Definition ordinaryKeys (keys : list string) : Prop :=
  plainKeys keys /\ ~ In "__proto__" keys.

Lemma ownKeys_plain (o : Obj) :
  plainKeys (map fst o) -> ownKeys o = map fst o.
Proof.
  intros [_ Hplain]. unfold ownKeys.
  rewrite (filter_none isArrayIndex) by assumption.
  rewrite filter_all; [reflexivity|].
  intros k Hk. now rewrite Hplain.
Qed.

Lemma getProp_In (o : Obj) (k v : string) :
  List.NoDup (map fst o) -> In (k, v) o -> getProp o k = Some v.
Proof.
  unfold getProp, hasKey.
  induction o as [|[k0 v0] rest IH]; simpl; intros Hnd Hin; [destruct Hin|].
  apply List.NoDup_cons_iff in Hnd as [Hfresh Hnd].
  destruct (String.eqb k0 k) eqn:E.
  - apply String.eqb_eq in E. subst k0. destruct Hin as [[= ->]|Hin].
    + reflexivity.
    + exfalso. apply Hfresh. change k with (fst (k, v)). now apply in_map.
  - apply String.eqb_neq in E. destruct Hin as [[= -> _]|Hin].
    + contradiction.
    + now apply IH.
Qed.

Lemma entries_plain (o : Obj) : plainKeys (map fst o) -> entries o = o.
Proof.
  intros Hplain. unfold entries. rewrite (ownKeys_plain o Hplain).
  rewrite map_map. rewrite <- (map_id o) at 2.
  apply map_ext_in. intros [k v] Hin. simpl.
  rewrite (getProp_In o k v); [reflexivity | apply Hplain | assumption].
Qed.

Lemma setProp_fresh (o : Obj) (k v : string) :
  k <> "__proto__" ->
  ~ In k (map fst o) -> setProp o k v = o ++ [(k, v)].
Proof.
  intros Hk Hfresh. unfold setProp.
  destruct (existsb (hasKey k) o) eqn:E.
  - apply existsb_exists in E as ([k0 v0] & Hin & Hk0).
    unfold hasKey in Hk0. simpl in Hk0. apply String.eqb_eq in Hk0. subst k0.
    exfalso. apply Hfresh. change k with (fst (k, v0)). now apply in_map.
  - apply String.eqb_neq in Hk. now rewrite Hk.
Qed.

(** The assignment of [__proto__] to a new object leaves it as it is. *)
Lemma setProp_proto (o : Obj) (v : string) :
  ~ In "__proto__" (map fst o) -> setProp o "__proto__" v = o.
Proof.
  intros Hfresh. unfold setProp.
  destruct (existsb (hasKey "__proto__") o) eqn:E; [|reflexivity].
  apply existsb_exists in E as ([k0 v0] & Hin & Hk0).
  unfold hasKey in Hk0. simpl in Hk0. apply String.eqb_eq in Hk0. subst k0.
  exfalso. apply Hfresh. change "__proto__" with (fst ("__proto__", v0)).
  now apply in_map.
Qed.

Lemma fold_setProp (f : string -> string) (keys : list string) (acc : Obj) :
  List.NoDup keys -> ~ In "__proto__" keys ->
  (forall k, In k keys -> ~ In k (map fst acc)) ->
  fold_left (fun a k => setProp a k (f k)) keys acc
  = acc ++ map (fun k => (k, f k)) keys.
Proof.
  revert acc.
  induction keys as [|k rest IH]; intros acc Hnd Hproto Hfresh; simpl.
  - now rewrite app_nil_r.
  - apply List.NoDup_cons_iff in Hnd as [Hk Hnd].
    rewrite setProp_fresh;
      [|intros ->; apply Hproto; now left | apply Hfresh; now left].
    rewrite IH; [now rewrite <- app_assoc|assumption| |].
    + intros Hin. apply Hproto. now right.
    + intros j Hj. rewrite map_app, in_app_iff. simpl.
      intros [Hin|[<-|[]]].
      * apply (Hfresh j); [now right | assumption].
      * contradiction.
Qed.

(** Without array-index keys and without [__proto__] the string that is
    signed is the canonical one. *)
Lemma signString_canonical (params : Obj) :
  ordinaryKeys (map fst params) -> signString params = canonicalString params.
Proof.
  intros [Hplain Hproto]. unfold signString, canonicalString, sortedParams.
  rewrite (ownKeys_plain params Hplain).
  destruct (sortKeys_sorted (map fst params)) as [_ Hperm].
  assert (Hsorted : plainKeys (sortKeys (map fst params))).
  { destruct Hplain as [Hnd Hidx]. split.
    - eapply Permutation_NoDup; [symmetry; exact Hperm | exact Hnd].
    - intros k Hk. apply Hidx. eapply Permutation_in; eassumption. }
  rewrite (fold_setProp (fun key => default "undefined" (getProp params key)));
    [|apply Hsorted | | intros k _ []].
  - simpl. rewrite entries_plain.
    + rewrite map_map. reflexivity.
    + rewrite map_map. simpl. rewrite map_id. exact Hsorted.
  - intros Hin. apply Hproto. eapply Permutation_in; eassumption.
Qed.

Lemma withoutProp_plain (params : Obj) (k : string) :
  plainKeys (map fst params) ->
  withoutProp params k = List.filter (fun kv => negb (hasKey k kv)) params /\
  plainKeys (map fst (withoutProp params k)) /\
  forall j, In j (map fst (withoutProp params k)) -> In j (map fst params).
Proof.
  intros Hplain. unfold withoutProp. rewrite (entries_plain params Hplain).
  split; [reflexivity|]. destruct Hplain as [Hnd Hidx].
  assert (Hsub : forall j,
             In j (map fst (List.filter (fun kv => negb (hasKey k kv)) params))
             -> In j (map fst params)).
  { intros j Hj. apply in_map_iff in Hj as (kv & <- & Hin).
    apply filter_In in Hin as [Hin _]. now apply in_map. }
  split; [|exact Hsub].
  split; [|auto].
  clear Hidx Hsub. induction params as [|[k0 v0] rest IH]; simpl in *.
  - constructor.
  - apply List.NoDup_cons_iff in Hnd as [Hfresh Hnd].
    destruct (negb (hasKey k (k0, v0))); simpl; [|auto].
    constructor; [|auto]. intros Hin. apply Hfresh.
    apply in_map_iff in Hin as (kv & <- & Hin).
    apply filter_In in Hin as [Hin _]. now apply in_map.
Qed.

(** *** What the verifier accepts *)

Section Verifier.
Context {W : Type} (crypto : Crypto).

(** X10.  For parameters none of whose names is an array index or
    [__proto__], both verifiers accept exactly the requests whose [sign] is
    the keyed digest of the canonical string of the other parameters: the
    pairs joined in the order of their names by UTF-16 code units. *)
Lemma verifySign_plain (params : Obj) (secret : string) (w : W) :
  ordinaryKeys (map fst params) ->
  Install.verifySign crypto params (Some secret) w
  = (inr (bool_decide
            (getProp params "sign"
             = Some (hmacSha256Hex crypto secret
                       (canonicalString (withoutProp params "sign"))))), w)
  /\
  Callback.verifySign crypto params (Some secret)
  = bool_decide
      (getProp params "sign"
       = Some (md5Hex crypto
                 (canonicalString (withoutProp params "sign")
                  ++ secret)%string)).
Proof.
  intros [Hplain Hproto].
  destruct (withoutProp_plain params "sign" Hplain) as (_ & Hrest & Hsub).
  unfold Install.verifySign, Callback.verifySign, Install.generateSign,
    Callback.generateSign, bind, ret. simpl.
  rewrite (signString_canonical _ (conj Hrest (fun H => Hproto (Hsub _ H)))).
  split; [f_equal; f_equal|]; apply eq_true_iff_eq;
    rewrite optStringEqb_eq, bool_decide_eq_true; reflexivity.
Qed.

(** X11.  Both handlers answer 400 before anything else when [appkey],
    [handle], [timestamp] or [sign] is absent or empty. *)
Lemma missing_parameter_is_rejected (event : Event) (w : W)
      (isvc : Install.Services W) (csvc : Callback.Services W) :
  (exists k, In k ["appkey"; "handle"; "timestamp"; "sign"] /\
             truthy (getProp (default [] (queryStringParameters event)) k)
             = false) ->
  Install.handler crypto isvc event w
  = (inr (errorResponse 400 "Missing required parameters"), w) /\
  Callback.handler crypto csvc event w
  = (inr (errorResponse 400 "Missing required parameters"), w).
Proof.
  intros (k & Hk & Hmissing).
  unfold Install.handler, Callback.handler, tryCatch.
  simpl in Hk.
  destruct Hk as [<-|[<-|[<-|[<-|[]]]]]; rewrite Hmissing; simpl;
    rewrite ?orb_true_r; split; reflexivity.
Qed.

End Verifier.

(** *** A request with numeric parameter names *)

Definition toyCrypto : Crypto :=
  {| md5Hex message := ("md5:" ++ message)%string;
     hmacSha256Hex key message := ("hmac:" ++ key ++ ":" ++ message)%string |}.

Definition appCredentials : Credentials :=
  {| appKey := Some "k"; appSecret := Some "secret"; tokens := None |}.

Definition installWorld : Install.Services unit :=
  {| Install.getSecret w := (inr appCredentials, w);
     Install.clock w := (1700000000000, w);
     Install.putItem item w := (inr tt, w) |}.

(** The parameters besides [sign]; two of the names are [10] and [9]. *)
Definition numberedParams : Obj :=
  [("appkey", "k"); ("handle", "shop"); ("timestamp", "1700000000");
   ("10", "b"); ("9", "a")].

(** The request as its sender signs it: HMAC of the canonical string. *)
Definition numberedRequest : Event :=
  {| queryStringParameters :=
       Some (numberedParams
             ++ [("sign",
                  hmacSha256Hex toyCrypto "secret"
                                (canonicalString numberedParams))]) |}.

(** The same request without the two numbered parameters. *)
Definition plainParams : Obj :=
  [("appkey", "k"); ("handle", "shop"); ("timestamp", "1700000000")].

Definition plainRequest : Event :=
  {| queryStringParameters :=
       Some (plainParams
             ++ [("sign",
                  hmacSha256Hex toyCrypto "secret"
                                (canonicalString plainParams))]) |}.

(** The callback of the same two requests: they carry a [code] as well
    and are signed with MD5 over the canonical string and the secret. *)
Definition callbackWorld : Callback.Services unit :=
  {| Callback.getSecret w := (inr appCredentials, w);
     Callback.clock w := (1700000000000, w);
     Callback.fetchToken handle appkey timestamp sign code w :=
       (inr {| ok := true;
               text := inr "";
               json := inr {| access_token := Some "at";
                              refresh_token := Some "rt";
                              expires_in := Some 36000 |} |}, w);
     Callback.putSecret credentials w := (inr tt, w);
     Callback.updateItem handle updatedAt tokenExpiry w := (inr tt, w) |}.

Definition signedCallback (params : Obj) : Event :=
  let withCode := params ++ [("code", "c1")] in
  {| queryStringParameters :=
       Some (withCode
             ++ [("sign",
                  md5Hex toyCrypto
                         (canonicalString withCode ++ "secret")%string)]) |}.

(** C7 on the code.  With the parameter names [10] and [9] the string
    that [generateSign] signs is not in lexicographic key order: the
    sorted copy is enumerated with [9] before [10] and both before the
    other keys.  A request signed over the canonical string is then
    answered 401 by both handlers, while the same request without the two
    numbered parameters passes. *)
Theorem numbered_keys_are_signed_out_of_order :
  canonicalString numberedParams
  = "10=b&9=a&appkey=k&handle=shop&timestamp=1700000000" /\
  signString numberedParams
  = "9=a&10=b&appkey=k&handle=shop&timestamp=1700000000" /\
  Install.handler toyCrypto installWorld numberedRequest tt
  = (inr (errorResponse 401 "Invalid signature"), tt) /\
  Install.handler toyCrypto installWorld plainRequest tt
  = (inr (redirect (AuthorizePage "shop" (Some "k"))), tt) /\
  Callback.handler toyCrypto callbackWorld (signedCallback numberedParams) tt
  = (inr (errorResponse 401 "Invalid signature"), tt) /\
  Callback.handler toyCrypto callbackWorld (signedCallback plainParams) tt
  = (inr (redirect (InstallationSuccess "shop")), tt).
Proof. vm_compute. repeat split; reflexivity. Qed.

(** *** Requests that are turned down, and the secret *)

(** The parameters named by [keys] are all there and not empty. *)
Definition present (params : Obj) (keys : list string) : Prop :=
  forall k, In k keys -> truthy (getProp params k) = true.

Section Rejected.
Context {W : Type} (crypto : Crypto).

(** X12.  A request with all its parameters whose [sign] is not the
    digest the handler computes is answered 401 "Invalid signature", and
    the only thing that has happened is the reading of the secret: the
    install handler has put no item, the callback handler has asked for no
    token and written neither the secret nor the item. *)
Theorem unsigned_request_changes_nothing (event : Event) (w w1 : W)
        (credentials : Credentials) (secret : string)
        (isvc : Install.Services W) (csvc : Callback.Services W) :
  present (default [] (queryStringParameters event))
          ["appkey"; "handle"; "timestamp"; "sign"] ->
  appSecret credentials = Some secret ->
  (Install.getSecret isvc w = (inr credentials, w1) ->
   getProp (default [] (queryStringParameters event)) "sign"
   <> Some (hmacSha256Hex crypto secret
              (signString
                 (withoutProp (default [] (queryStringParameters event))
                              "sign"))) ->
   Install.handler crypto isvc event w
   = (inr (errorResponse 401 "Invalid signature"), w1))
  /\
  (truthy (getProp (default [] (queryStringParameters event)) "code") = true ->
   Callback.getSecret csvc w = (inr credentials, w1) ->
   getProp (default [] (queryStringParameters event)) "sign"
   <> Some (md5Hex crypto
              (signString
                 (withoutProp (default [] (queryStringParameters event))
                              "sign") ++ secret)%string) ->
   Callback.handler crypto csvc event w
   = (inr (errorResponse 401 "Invalid signature"), w1)).
Proof.
  intros Hpresent Hsecret.
  pose proof (Hpresent "appkey" ltac:(simpl; tauto)) as Ha.
  pose proof (Hpresent "handle" ltac:(simpl; tauto)) as Hh.
  pose proof (Hpresent "timestamp" ltac:(simpl; tauto)) as Ht.
  pose proof (Hpresent "sign" ltac:(simpl; tauto)) as Hs.
  split.
  - intros Hget Hsign.
    unfold Install.handler, tryCatch, bind, getShoplineCredentials, tryCatch,
      Install.verifySign, Install.generateSign, bind, ret.
    rewrite Ha, Hh, Ht, Hs. cbn. rewrite Hget. cbn. rewrite Hsecret. cbn.
    destruct (optStringEqb _ _) eqn:E; [|reflexivity].
    apply optStringEqb_eq in E. contradiction.
  - intros Hc Hget Hsign.
    unfold Callback.handler, tryCatch, bind, getShoplineCredentials, tryCatch,
      Callback.verifySign, Callback.generateSign, ret.
    rewrite Ha, Hc, Hh, Ht, Hs. cbn. rewrite Hget. cbn. rewrite Hsecret. cbn.
    destruct (optStringEqb _ _) eqn:E; [|reflexivity].
    apply optStringEqb_eq in E. contradiction.
Qed.

(** X13.  When the stored secret has no [appSecret], the two handlers go
    different ways.  The install handler cannot key its HMAC: every
    request with all its parameters is answered 500 "Installation failed"
    and no item is put.  The callback handler appends [undefined] to the
    string it hashes, so it accepts exactly the requests signed with the
    word "undefined" in place of the secret. *)
Theorem absent_app_secret (event : Event) (w w1 : W)
        (credentials : Credentials) (isvc : Install.Services W) :
  present (default [] (queryStringParameters event))
          ["appkey"; "handle"; "timestamp"; "sign"] ->
  appSecret credentials = None ->
  Install.getSecret isvc w = (inr credentials, w1) ->
  Install.handler crypto isvc event w
  = (inr (errorResponse 500 "Installation failed"), w1)
  /\
  forall params,
    Callback.verifySign crypto params (appSecret credentials) = true
    <-> getProp params "sign"
        = Some (md5Hex crypto
                  (signString (withoutProp params "sign")
                   ++ "undefined")%string).
Proof.
  intros Hpresent Hsecret Hget.
  pose proof (Hpresent "appkey" ltac:(simpl; tauto)) as Ha.
  pose proof (Hpresent "handle" ltac:(simpl; tauto)) as Hh.
  pose proof (Hpresent "timestamp" ltac:(simpl; tauto)) as Ht.
  pose proof (Hpresent "sign" ltac:(simpl; tauto)) as Hs.
  split.
  - unfold Install.handler, tryCatch, bind, getShoplineCredentials, tryCatch,
      Install.verifySign, Install.generateSign, bind, ret.
    rewrite Ha, Hh, Ht, Hs. cbn. rewrite Hget. cbn. rewrite Hsecret.
    reflexivity.
  - intros params. unfold Callback.verifySign, Callback.generateSign.
    rewrite Hsecret. apply optStringEqb_eq.
Qed.

End Rejected.

(** *** A callback that goes through *)

Lemma setToken_then_getToken (tokens : list (string * TokenData))
      (h : string) (data : TokenData) :
  getToken (setToken tokens h data) h = Some data.
Proof.
  unfold getToken. induction tokens as [|[k d] rest IH]; simpl.
  - rewrite String.eqb_refl. reflexivity.
  - destruct (String.eqb k h) eqn:E; simpl; rewrite E; [reflexivity|exact IH].
Qed.

Lemma setToken_keeps_others (tokens : list (string * TokenData))
      (h h' : string) (data : TokenData) :
  h' <> h -> getToken (setToken tokens h data) h' = getToken tokens h'.
Proof.
  intros Hne. unfold getToken.
  induction tokens as [|[k d] rest IH]; simpl.
  - assert (String.eqb h h' = false) as ->
      by (apply String.eqb_neq; congruence).
    reflexivity.
  - destruct (String.eqb k h) eqn:Ekh; simpl.
    + apply String.eqb_eq in Ekh. subst k.
      assert (String.eqb h h' = false) as ->
        by (apply String.eqb_neq; congruence).
      reflexivity.
    + destruct (String.eqb k h'); [reflexivity | exact IH].
Qed.

(** Secrets Manager and the installation table as plain data: the secret
    is what was last written, the clock stands still, the token endpoint
    gives one answer, and the updates of the installation table are kept
    in the order they arrive. *)
Record Vault : Type := mkVault {
  vault_secret : Credentials;
  vault_now : Z;
  vault_reply : JsError + FetchResponse;
  vault_updates : list (string * Z * Z)
}.

Definition vaultServices : Callback.Services Vault :=
  {| Callback.getSecret v := (inr (vault_secret v), v);
     Callback.clock v := (vault_now v, v);
     Callback.fetchToken handle appkey timestamp sign code v :=
       (vault_reply v, v);
     Callback.putSecret credentials v :=
       (inr tt, {| vault_secret := credentials; vault_now := vault_now v;
                   vault_reply := vault_reply v;
                   vault_updates := vault_updates v |});
     Callback.updateItem handle updatedAt tokenExpiry v :=
       (inr tt, {| vault_secret := vault_secret v; vault_now := vault_now v;
                   vault_reply := vault_reply v;
                   vault_updates :=
                     vault_updates v ++ [(handle, updatedAt, tokenExpiry)] |})
  |}.

(** The entry the callback writes for a token answer at time [now]. *)
Definition grantedAt (now : Z) (tokenData : TokenResponse) : TokenData :=
  {| accessToken := access_token tokenData;
     refreshToken := refresh_token tokenData;
     expiresAt := expiryFrom now (expires_in tokenData) |}.

Section Granted.
Variable crypto : Crypto.

Lemma callback_after_grant (event : Event) (v : Vault) (handle : string)
      (response : FetchResponse) (tokenData : TokenResponse) :
  present (default [] (queryStringParameters event))
          ["appkey"; "code"; "handle"; "timestamp"; "sign"] ->
  getProp (default [] (queryStringParameters event)) "handle" = Some handle ->
  Callback.verifySign crypto (default [] (queryStringParameters event))
                      (appSecret (vault_secret v)) = true ->
  vault_reply v = inr response -> ok response = true ->
  json response = inr tokenData ->
  Callback.handler crypto vaultServices event v
  = let stored :=
      {| appKey := appKey (vault_secret v);
         appSecret := appSecret (vault_secret v);
         tokens :=
           Some (setToken (default [] (tokens (vault_secret v))) handle
                          (grantedAt (vault_now v) tokenData)) |} in
    match toISOString (expiryFrom (vault_now v) (expires_in tokenData)) with
    | inr tokenExpiry =>
        (inr (redirect (InstallationSuccess handle)),
         {| vault_secret := stored; vault_now := vault_now v;
            vault_reply := vault_reply v;
            vault_updates :=
              vault_updates v ++ [(handle, vault_now v, tokenExpiry)] |})
    | inl _ =>
        (inr (errorResponse 500 "Failed to complete installation"),
         {| vault_secret := stored; vault_now := vault_now v;
            vault_reply := vault_reply v;
            vault_updates := vault_updates v |})
    end.
Proof.
  intros Hpresent Hhandle Hsign Hreply Hok Hjson.
  pose proof (Hpresent "appkey" ltac:(simpl; tauto)) as Ha.
  pose proof (Hpresent "code" ltac:(simpl; tauto)) as Hc.
  pose proof (Hpresent "handle" ltac:(simpl; tauto)) as Hh.
  pose proof (Hpresent "timestamp" ltac:(simpl; tauto)) as Ht.
  pose proof (Hpresent "sign" ltac:(simpl; tauto)) as Hs.
  unfold Callback.handler, tryCatch, bind, getShoplineCredentials, tryCatch,
    dateNow, ret, throw.
  rewrite Ha, Hc, Hh, Ht, Hs. cbn. rewrite Hsign. cbn.
  rewrite Hreply, Hok. cbn. rewrite Hjson, Hhandle. cbn.
  unfold grantedAt.
  destruct (toISOString _); cbn; rewrite ?Hreply; reflexivity.
Qed.

(** X14.  A callback that passes the signature check and gets its
    tokens, with an [expires_in] that puts the expiry within the range of
    dates ([validTime]: at most 8.64e15 milliseconds from the epoch), is
    redirected to the success page.  The secret then holds,
    under the store's handle, the new access and refresh token with the
    expiry [now + expires_in * 1000]; the app key, the app secret and the
    tokens of every other handle are as before; and the installation
    table has received one update, for this handle, with that expiry. *)
Theorem callback_stores_tokens_under_the_handle (event : Event) (v : Vault)
        (handle : string) (response : FetchResponse)
        (tokenData : TokenResponse) (seconds : Z) :
  present (default [] (queryStringParameters event))
          ["appkey"; "code"; "handle"; "timestamp"; "sign"] ->
  getProp (default [] (queryStringParameters event)) "handle" = Some handle ->
  Callback.verifySign crypto (default [] (queryStringParameters event))
                      (appSecret (vault_secret v)) = true ->
  vault_reply v = inr response -> ok response = true ->
  json response = inr tokenData -> expires_in tokenData = Some seconds ->
  validTime (vault_now v + seconds * 1000) = true ->
  exists v' stored,
    Callback.handler crypto vaultServices event v
    = (inr (redirect (InstallationSuccess handle)), v') /\
    appKey (vault_secret v') = appKey (vault_secret v) /\
    appSecret (vault_secret v') = appSecret (vault_secret v) /\
    tokens (vault_secret v') = Some stored /\
    getToken stored handle
    = Some {| accessToken := access_token tokenData;
              refreshToken := refresh_token tokenData;
              expiresAt := Some (vault_now v + seconds * 1000) |} /\
    (forall other, other <> handle ->
       getToken stored other
       = getToken (default [] (tokens (vault_secret v))) other) /\
    vault_updates v'
    = vault_updates v ++ [(handle, vault_now v, vault_now v + seconds * 1000)].
Proof.
  intros Hpresent Hhandle Hsign Hreply Hok Hjson Hexp Hvalid.
  rewrite (callback_after_grant event v handle response tokenData)
    by assumption.
  cbv zeta. rewrite Hexp. unfold toISOString, expiryFrom.
  rewrite Hvalid. do 2 eexists.
  split; [reflexivity|]. cbn.
  split; [reflexivity|]. split; [reflexivity|]. split; [reflexivity|].
  split; [|split; [|reflexivity]].
  - rewrite setToken_then_getToken. unfold grantedAt, expiryFrom.
    rewrite Hexp. reflexivity.
  - intros other Hne. now apply setToken_keeps_others.
Qed.

(** X15.  When the token answer carries no [expires_in], the callback
    still writes the tokens into the secret (with no expiry), then fails
    on the date of the installation update: the answer is 500 "Failed to
    complete installation" and the installation table gets no update,
    although the secret already holds the store's tokens. *)
Theorem callback_without_expiry_stores_tokens_then_fails (event : Event)
        (v : Vault) (handle : string) (response : FetchResponse)
        (tokenData : TokenResponse) :
  present (default [] (queryStringParameters event))
          ["appkey"; "code"; "handle"; "timestamp"; "sign"] ->
  getProp (default [] (queryStringParameters event)) "handle" = Some handle ->
  Callback.verifySign crypto (default [] (queryStringParameters event))
                      (appSecret (vault_secret v)) = true ->
  vault_reply v = inr response -> ok response = true ->
  json response = inr tokenData -> expires_in tokenData = None ->
  exists v' stored,
    Callback.handler crypto vaultServices event v
    = (inr (errorResponse 500 "Failed to complete installation"), v') /\
    tokens (vault_secret v') = Some stored /\
    getToken stored handle
    = Some {| accessToken := access_token tokenData;
              refreshToken := refresh_token tokenData;
              expiresAt := None |} /\
    vault_updates v' = vault_updates v.
Proof.
  intros Hpresent Hhandle Hsign Hreply Hok Hjson Hexp.
  rewrite (callback_after_grant event v handle response tokenData)
    by assumption.
  cbv zeta. rewrite Hexp. unfold toISOString, expiryFrom.
  do 2 eexists.
  split; [reflexivity|]. cbn. split; [reflexivity|].
  split; [|reflexivity].
  rewrite setToken_then_getToken. unfold grantedAt, expiryFrom.
  rewrite Hexp. reflexivity.
Qed.

End Granted.

(** *** Closed instances *)

Ltac all_present :=
  let k := fresh "k" in
  let Hk := fresh "Hk" in
  intros k Hk; simpl in Hk;
  repeat (destruct Hk as [<-|Hk]; [reflexivity|]); destruct Hk.

Definition unsignedRequest : Event :=
  {| queryStringParameters := Some plainParams |}.

Definition forgedRequest : Event :=
  {| queryStringParameters := Some (plainParams ++ [("sign", "bogus")]) |}.

Definition keylessCredentials : Credentials :=
  {| appKey := Some "k"; appSecret := None; tokens := None |}.

Definition keylessWorld : Install.Services unit :=
  {| Install.getSecret w := (inr keylessCredentials, w);
     Install.clock w := (1700000000000, w);
     Install.putItem item w := (inr tt, w) |}.

Definition otherToken : TokenData :=
  {| accessToken := Some "at-0"; refreshToken := Some "rt-0";
     expiresAt := Some 1700000300000 |}.

Definition vaultWith (expiresIn : option Z) : Vault :=
  {| vault_secret := {| appKey := Some "k"; appSecret := Some "secret";
                        tokens := Some [("other-shop", otherToken)] |};
     vault_now := 1700000000000;
     vault_reply :=
       inr {| ok := true; text := inr "";
              json := inr {| access_token := Some "at";
                             refresh_token := Some "rt";
                             expires_in := expiresIn |} |};
     vault_updates := [] |}.

(** The callback request signed over its canonical string is accepted. *)
Lemma verifySign_plain_witness :
  Callback.verifySign
    toyCrypto (default [] (queryStringParameters (signedCallback plainParams)))
    (Some "secret")
  = true.
Proof.
  destruct (verifySign_plain (W := unit) toyCrypto
              (default [] (queryStringParameters (signedCallback plainParams)))
              "secret" tt) as [_ H].
  - split; [split|].
    + repeat constructor; simpl; intuition discriminate.
    + intros k Hk. simpl in Hk.
      repeat (destruct Hk as [<-|Hk]; [reflexivity|]). destruct Hk.
    + simpl. intuition discriminate.
  - rewrite H. reflexivity.
Defined.

(** A request without [sign]. *)
Lemma missing_parameter_is_rejected_witness :
  Install.handler toyCrypto installWorld unsignedRequest tt
  = (inr (errorResponse 400 "Missing required parameters"), tt).
Proof.
  destruct (missing_parameter_is_rejected toyCrypto unsignedRequest tt
              installWorld callbackWorld) as [Hinstall _].
  - exists "sign". split; [simpl; tauto | reflexivity].
  - exact Hinstall.
Defined.

(** A request whose [sign] is made up. *)
Lemma unsigned_request_changes_nothing_witness :
  Install.handler toyCrypto installWorld forgedRequest tt
  = (inr (errorResponse 401 "Invalid signature"), tt).
Proof.
  destruct (unsigned_request_changes_nothing toyCrypto forgedRequest tt tt
              appCredentials "secret" installWorld callbackWorld)
    as [Hinstall _].
  - all_present.
  - reflexivity.
  - apply Hinstall; [reflexivity|]. vm_compute. discriminate.
Defined.

(** The correctly signed install request, with a secret that lacks the
    app secret. *)
Lemma absent_app_secret_witness :
  Install.handler toyCrypto keylessWorld plainRequest tt
  = (inr (errorResponse 500 "Installation failed"), tt).
Proof.
  destruct (absent_app_secret toyCrypto plainRequest tt tt keylessCredentials
              keylessWorld) as [Hinstall _].
  - all_present.
  - reflexivity.
  - reflexivity.
  - exact Hinstall.
Defined.

(** The tokens of [shop] are added; those of [other-shop] stay. *)
Lemma callback_stores_tokens_under_the_handle_witness :
  exists v' stored,
    Callback.handler toyCrypto vaultServices (signedCallback plainParams)
                     (vaultWith (Some 36000))
    = (inr (redirect (InstallationSuccess "shop")), v') /\
    tokens (vault_secret v') = Some stored /\
    getToken stored "other-shop" = Some otherToken /\
    vault_updates v' = [("shop", 1700000000000, 1700036000000)].
Proof.
  destruct (callback_stores_tokens_under_the_handle toyCrypto
              (signedCallback plainParams) (vaultWith (Some 36000)) "shop"
              _ _ 36000 ltac:(all_present) eq_refl eq_refl eq_refl eq_refl
              eq_refl eq_refl eq_refl)
    as (v' & stored & Hrun & _ & _ & Hstored & _ & Hothers & Hupdates).
  exists v', stored. split; [exact Hrun|]. split; [exact Hstored|].
  split; [|exact Hupdates].
  rewrite (Hothers "other-shop"); [reflexivity | discriminate].
Defined.

Lemma callback_without_expiry_stores_tokens_then_fails_witness :
  exists v',
    Callback.handler toyCrypto vaultServices (signedCallback plainParams)
                     (vaultWith None)
    = (inr (errorResponse 500 "Failed to complete installation"), v') /\
    vault_updates v' = [].
Proof.
  destruct (callback_without_expiry_stores_tokens_then_fails toyCrypto
              (signedCallback plainParams) (vaultWith None) "shop"
              _ _ ltac:(all_present) eq_refl eq_refl eq_refl eq_refl
              eq_refl eq_refl)
    as (v' & stored & Hrun & _ & _ & Hupdates).
  exists v'. split; [exact Hrun | exact Hupdates].
Defined.

End ShoplineSign.

(** ** Token refresh sweep (refresh.mjs)

    The scheduled handler reads the Shopline secret, walks over the tokens
    object and refreshes the tokens that expire within a day.  The tokens
    object is a local variable that the loop updates in place and that is
    written back to the secret after the loop. *)

Module Refresh.

Import ShoplineSecret ShoplineSign.

Inductive Body : Type :=
| BodyMessage (message : string)
| BodyError (error : string).

Record Response : Type := mkResponse {
  statusCode : Z;
  body : Body
}.

Section Handler.
Context {W : Type}.
Variable crypto : Crypto.

Record Services : Type := mkServices {
  getSecret : W -> (JsError + Credentials) * W;
  clock : W -> Z * W;
  (* POST https://HANDLE.myshopline.com/admin/oauth/token/refresh with the
     appkey, timestamp and sign headers and the refresh token in the body *)
  fetchRefresh :
    string -> option string -> string -> string -> option string ->
    W -> (JsError + FetchResponse) * W;
  (* status token_refreshed, updatedAt, tokenExpiry for the handle *)
  updateItem : string -> Z -> Z -> W -> (JsError + unit) * W;
  putSecret : Credentials -> W -> (JsError + unit) * W
}.

(** The outside world, the local [tokens] object, and the handles for
    which a refresh request has been sent so far. *)
Record State : Type := mkState {
  world : W;
  tokensVar : list (string * TokenData);
  requested : list string
}.

Variable svc : Services.

Definition call {A} (op : W -> (JsError + A) * W) : Exec State A :=
  fun st =>
    let '(r, w) := op (world st) in
    (r, {| world := w; tokensVar := tokensVar st;
           requested := requested st |}).

(** [Date.now()] *)
Definition dateNow : Exec State Z :=
  fun st =>
    let '(now, w) := clock svc (world st) in
    (inr now, {| world := w; tokensVar := tokensVar st;
                 requested := requested st |}).

(** [fetch(...)] for the refresh endpoint of [handle]. *)
Definition fetch (handle : string) (appkey : option string)
           (timestamp sign : string) (refresh_token : option string)
  : Exec State FetchResponse :=
  fun st =>
    let '(r, w) :=
      fetchRefresh svc handle appkey timestamp sign refresh_token (world st) in
    (r, {| world := w; tokensVar := tokensVar st;
           requested := requested st ++ [handle] |}).

(** [tokens[handle] = data] *)
Definition assignToken (handle : string) (data : TokenData)
  : Exec State unit :=
  fun st =>
    (inr tt, {| world := world st;
                tokensVar := setToken (tokensVar st) handle data;
                requested := requested st |}).

(** The file's own [generateSign], the MD5 one. *)
Definition generateSign (params : Obj) (secret : option string) : string :=
  md5Hex crypto (signString params ++ default "undefined" secret)%string.

Definition dayMs : Z := 24 * 60 * 60 * 1000.

(** [tokenData.expiresAt > now + 24 h]; a comparison with a value that
    is not a number is false. *)
Definition expiresLater (tokenData : TokenData) (now : Z) : bool :=
  match expiresAt tokenData with
  | Some e => now + dayMs <? e
  | None => false
  end.

(** The body of the inner [try]. *)
Definition refreshBody (credentials : Credentials) (handle : string)
           (tokenData : TokenData) : Exec State unit :=
  now <- dateNow;;
  if expiresLater tokenData now then ret tt          (* continue *)
  else
    now1 <- dateNow;;
    let refreshParams : Obj :=
      [("appkey", default "undefined" (appKey credentials));
       ("timestamp", unixSeconds now1)] in
    let refreshSign :=
      generateSign refreshParams (appSecret credentials) in
    response <- fetch handle (appKey credentials) (unixSeconds now1)
                      refreshSign (refreshToken tokenData);;
    if negb (ok response) then
      match text response with
      | inl error => throw error
      | inr answer =>
          throw (Error ("Failed to refresh token: " ++ answer)%string)
      end
    else
      match json response with
      | inl error => throw error
      | inr newTokenData =>
          now2 <- dateNow;;
          let newExpiry := expiryFrom now2 (expires_in newTokenData) in
          assignToken handle
            {| accessToken := access_token newTokenData;
               refreshToken := refresh_token newTokenData;
               expiresAt := newExpiry |};;
          now3 <- dateNow;;
          match toISOString newExpiry with
          | inl error => throw error
          | inr tokenExpiry => call (updateItem svc handle now3 tokenExpiry)
          end
      end.

(** One turn of the loop: the [try] with its logging [catch]. *)
Definition refreshOne (credentials : Credentials)
           (entry : string * TokenData) : Exec State unit :=
  tryCatch (refreshBody credentials (fst entry) (snd entry))
           (fun _ => ret tt).

Definition handler : Exec State Response :=
  tryCatch
    (credentials <-
       tryCatch (call (getSecret svc))
                (fun _ => throw (Error "Failed to get Shopline credentials"));;
     match tokens credentials with
     | None =>
         ret {| statusCode := 200; body := BodyMessage "No tokens to refresh" |}
     | Some tokens =>
         (fun st => (inr tt, {| world := world st; tokensVar := tokens;
                                requested := requested st |}));;
         forOf tokens (refreshOne credentials);;
         (fun st =>
            call (putSecret svc {| appKey := appKey credentials;
                                   appSecret := appSecret credentials;
                                   tokens := Some (tokensVar st) |}) st);;
         ret {| statusCode := 200;
                body := BodyMessage "Token refresh completed" |}
     end)
    (fun _ =>
       ret {| statusCode := 500; body := BodyError "Token refresh failed" |}).

(** The refresh request for an entry, from the world [w] the handler is
    in once it has found the token due. *)
Definition refreshCall (credentials : Credentials) (handle : string)
           (tokenData : TokenData) (w : W) : JsError + FetchResponse :=
  let '(now1, w1) := clock svc w in
  fst (fetchRefresh svc handle (appKey credentials) (unixSeconds now1)
         (generateSign
            [("appkey", default "undefined" (appKey credentials));
             ("timestamp", unixSeconds now1)] (appSecret credentials))
         (refreshToken tokenData) w1).

(** The request threw, was answered with a non-2xx status, or its body
    could not be read. *)
Definition callFailed (r : JsError + FetchResponse) : bool :=
  match r with
  | inl _ => true
  | inr response =>
      negb (ok response)
      || match json response with inl _ => true | inr _ => false end
  end.

End Handler.
Arguments Services : clear implicits.
Arguments State : clear implicits.

Section Sweep.
Context {W : Type} (crypto : Crypto) (svc : Services W).

Lemma getToken_setToken_other (tokens : list (string * TokenData))
      (h h' : string) (data : TokenData) :
  h' <> h -> getToken (setToken tokens h data) h' = getToken tokens h'.
Proof.
  intros Hne. unfold getToken.
  induction tokens as [|[k d] rest IH]; simpl.
  - assert (String.eqb h h' = false) as ->
      by (apply String.eqb_neq; congruence).
    reflexivity.
  - destruct (String.eqb k h) eqn:Ekh; simpl.
    + apply String.eqb_eq in Ekh. subst k.
      assert (String.eqb h h' = false) as ->
        by (apply String.eqb_neq; congruence).
      reflexivity.
    + destruct (String.eqb k h'); [reflexivity | exact IH].
Qed.

Lemma getToken_In (tokens : list (string * TokenData)) (h : string)
      (data : TokenData) :
  List.NoDup (map fst tokens) -> In (h, data) tokens ->
  getToken tokens h = Some data.
Proof.
  unfold getToken.
  induction tokens as [|[k d] rest IH]; simpl; intros Hnd Hin; [destruct Hin|].
  apply List.NoDup_cons_iff in Hnd as [Hfresh Hnd].
  destruct (String.eqb k h) eqn:E.
  - apply String.eqb_eq in E. subst k. destruct Hin as [[= ->]|Hin].
    + reflexivity.
    + exfalso. apply Hfresh. change h with (fst (h, data)). now apply in_map.
  - apply String.eqb_neq in E. destruct Hin as [[= -> _]|Hin].
    + contradiction.
    + now apply IH.
Qed.

(** What one turn of the loop does to the local tokens and to the list
    of requests: nothing when the token expires later; otherwise one
    request for the handle, and the entry is only replaced when the call
    did not fail. *)
Lemma refreshOne_cases (credentials : Credentials) (h : string)
      (td : TokenData) (st : State W) :
  let st1 := snd (refreshOne crypto svc credentials (h, td) st) in
  let now := fst (clock svc (world st)) in
  let w0 := snd (clock svc (world st)) in
  (expiresLater td now = true /\
   tokensVar st1 = tokensVar st /\ requested st1 = requested st)
  \/
  (expiresLater td now = false /\
   requested st1 = requested st ++ [h] /\
   ((callFailed (refreshCall crypto svc credentials h td w0) = true /\
     tokensVar st1 = tokensVar st)
    \/
    (callFailed (refreshCall crypto svc credentials h td w0) = false /\
     exists data, tokensVar st1 = setToken (tokensVar st) h data))).
Proof.
  unfold refreshOne, tryCatch, refreshBody, refreshCall, callFailed, bind,
    dateNow, fetch, assignToken, call, ret, throw.
  destruct st as [w tk rq]. cbn.
  destruct (clock svc w) as [now w0]. cbn.
  destruct (expiresLater td now); cbn; [left; auto|]. right.
  split; [reflexivity|].
  destruct (clock svc w0) as [now1 w1]. cbn.
  destruct (fetchRefresh svc h _ _ _ _ w1) as [[e|response] w2]; cbn;
    [split; [reflexivity | left; split; reflexivity]|].
  destruct (ok response); cbn;
    [|destruct (text response); cbn;
      (split; [reflexivity | left; split; reflexivity])].
  destruct (json response) as [e|newTokenData]; cbn;
    [split; [reflexivity | left; split; reflexivity]|].
  destruct (clock svc w2) as [now2 w3]. cbn.
  destruct (clock svc w3) as [now3 w4]. cbn.
  destruct (toISOString _) as [e|tokenExpiry]; cbn.
  - split; [reflexivity | right; split; [reflexivity | eauto]].
  - destruct (updateItem svc h now3 _ w4) as [[e|[]] w5]; cbn;
      (split; [reflexivity | right; split; [reflexivity | eauto]]).
Qed.

Lemma refreshOne_returns (credentials : Credentials)
      (entry : string * TokenData) (st : State W) :
  fst (refreshOne crypto svc credentials entry st) = inr tt.
Proof.
  unfold refreshOne, tryCatch.
  destruct (refreshBody _ _ _ _ _ st) as [[e|[]] st1]; reflexivity.
Qed.

Lemma sweep_step (credentials : Credentials) (entry : string * TokenData)
      (rest : list (string * TokenData)) (st : State W) :
  forOf (entry :: rest) (refreshOne crypto svc credentials) st
  = forOf rest (refreshOne crypto svc credentials)
          (snd (refreshOne crypto svc credentials entry st)).
Proof.
  simpl. unfold bind.
  pose proof (refreshOne_returns credentials entry st) as H.
  destruct (refreshOne crypto svc credentials entry st) as [[e|[]] st1];
    simpl in *; [discriminate | reflexivity].
Qed.

Lemma sweep_returns (credentials : Credentials)
      (entries : list (string * TokenData)) (st : State W) :
  fst (forOf entries (refreshOne crypto svc credentials) st) = inr tt.
Proof.
  revert st. induction entries as [|entry rest IH]; intros st.
  - reflexivity.
  - rewrite sweep_step. apply IH.
Qed.

Lemma sweep_app (credentials : Credentials)
      (before after : list (string * TokenData)) (st : State W) :
  forOf (before ++ after) (refreshOne crypto svc credentials) st
  = forOf after (refreshOne crypto svc credentials)
          (snd (forOf before (refreshOne crypto svc credentials) st)).
Proof.
  rewrite forOf_app. unfold bind.
  pose proof (sweep_returns credentials before st) as H.
  destruct (forOf before _ st) as [[e|[]] st1]; simpl in *;
    [discriminate | reflexivity].
Qed.

(** The turns for other handles leave the entry of [h] and the requests
    for [h] as they are. *)
Lemma sweep_frame (credentials : Credentials) (h : string)
      (entries : list (string * TokenData)) (st : State W) :
  ~ In h (map fst entries) ->
  let st' := snd (forOf entries (refreshOne crypto svc credentials) st) in
  getToken (tokensVar st') h = getToken (tokensVar st) h /\
  (In h (requested st') <-> In h (requested st)).
Proof.
  revert st. induction entries as [|[k d] rest IH]; intros st Hfresh; simpl.
  - split; reflexivity.
  - simpl in Hfresh.
    pose proof (sweep_step credentials (k, d) rest st) as Hstep.
    simpl in Hstep. rewrite Hstep.
    assert (Hrest : ~ In h (map fst rest)) by tauto.
    assert (Hne : h <> k) by (intros ->; tauto).
    destruct (IH (snd (refreshOne crypto svc credentials (k, d) st)) Hrest)
      as [Htok Hreq].
    rewrite Htok, Hreq.
    destruct (refreshOne_cases credentials k d st)
      as [(_ & -> & ->) | (_ & -> & [(_ & ->) | (_ & data & ->)])].
    + split; reflexivity.
    + split; [reflexivity|]. rewrite in_app_iff. simpl. tauto.
    + split; [now apply getToken_setToken_other|].
      rewrite in_app_iff. simpl. tauto.
Qed.

(** X18.  After the sweep the handler writes the tokens back; its answer
    depends on that write alone: 200 "Token refresh completed" when the
    secret was written, 500 "Token refresh failed" when it was not,
    however many of the refresh calls failed. *)
Lemma handler_after_sweep (credentials : Credentials)
      (entries : list (string * TokenData)) (st st0 : State W) :
  call (getSecret svc) st = (inr credentials, st0) ->
  tokens credentials = Some entries ->
  let swept :=
    snd (forOf entries (refreshOne crypto svc credentials)
           {| world := world st0; tokensVar := entries;
              requested := requested st0 |}) in
  fst (handler crypto svc st)
  = inr (match fst (putSecret svc
                      {| appKey := appKey credentials;
                         appSecret := appSecret credentials;
                         tokens := Some (tokensVar swept) |} (world swept)) with
         | inr _ => {| statusCode := 200;
                       body := BodyMessage "Token refresh completed" |}
         | inl _ => {| statusCode := 500;
                       body := BodyError "Token refresh failed" |}
         end).
Proof.
  intros Hsecret Htokens swept. subst swept.
  unfold handler, tryCatch at 1, bind at 1, tryCatch at 1.
  rewrite Hsecret, Htokens. unfold bind at 1. cbn.
  unfold bind at 1.
  pose proof (sweep_returns credentials entries
                {| world := world st0; tokensVar := entries;
                   requested := requested st0 |}) as Hret.
  destruct (forOf entries _ _) as [[e|[]] st1]; simpl in Hret;
    [discriminate|].
  cbn. unfold bind, call. cbn.
  destruct (putSecret svc _ (world st1)) as [[e|[]] w]; reflexivity.
Qed.

End Sweep.

(** *** A sweep with one failing store *)

Definition refreshed : TokenResponse :=
  {| access_token := Some "new-access"; refresh_token := Some "new-refresh";
     expires_in := Some 36000 |}.

(** The clock stands at [1700000000000]; Shopline refuses the refresh for
    [shop-k] and grants every other one. *)
Definition sweepWorld : Services unit :=
  {| getSecret w :=
       (inr {| appKey := Some "k"; appSecret := Some "secret";
               tokens := None |}, w);
     clock w := (1700000000000, w);
     fetchRefresh handle appkey timestamp sign refresh_token w :=
       (if String.eqb handle "shop-k"
        then inl (Error "connect ETIMEDOUT")
        else inr {| ok := true; text := inr ""; json := inr refreshed |}, w);
     updateItem handle updatedAt tokenExpiry w := (inr tt, w);
     putSecret credentials w := (inr tt, w) |}.

Definition expiring (at_ : Z) : TokenData :=
  {| accessToken := Some "old-access"; refreshToken := Some "old-refresh";
     expiresAt := Some at_ |}.

Definition sweepEntries : list (string * TokenData) :=
  [("shop-a", expiring 1700000001000);
   ("shop-k", expiring 1700000002000);
   ("shop-b", expiring 1700000003000);
   ("shop-c", expiring 1800000000000)].

Definition sweepCredentials : Credentials :=
  {| appKey := Some "k"; appSecret := Some "secret";
     tokens := Some sweepEntries |}.

Definition sweepStart : State unit :=
  {| world := tt; tokensVar := sweepEntries; requested := [] |}.

(** *** What the sweep keeps and what it stores *)

Section SweepFacts.
Context {W : Type} (crypto : Crypto) (svc : Services W).

Lemma setToken_keys (tokens : list (string * TokenData)) (h : string)
      (data : TokenData) :
  In h (map fst tokens) ->
  map fst (setToken tokens h data) = map fst tokens.
Proof.
  induction tokens as [|[k d] rest IH]; simpl; intros Hin; [destruct Hin|].
  destruct (String.eqb k h) eqn:E; simpl.
  - reflexivity.
  - f_equal. apply IH. destruct Hin as [->|Hin]; [|exact Hin].
    rewrite String.eqb_refl in E. discriminate.
Qed.

Lemma sweep_keys (credentials : Credentials)
      (entries : list (string * TokenData)) (st : State W) :
  (forall entry, In entry entries -> In (fst entry) (map fst (tokensVar st))) ->
  map fst (tokensVar (snd (forOf entries (refreshOne crypto svc credentials)
                                 st)))
  = map fst (tokensVar st).
Proof.
  revert st. induction entries as [|[h td] rest IH]; intros st Hin.
  - reflexivity.
  - rewrite sweep_step.
    assert (Hkeys :
      map fst (tokensVar (snd (refreshOne crypto svc credentials (h, td) st)))
      = map fst (tokensVar st)).
    { destruct (refreshOne_cases crypto svc credentials h td st)
        as [(_ & -> & _) | (_ & _ & [(_ & ->) | (_ & data & ->)])];
        try reflexivity.
      apply setToken_keys. apply (Hin (h, td)). now left. }
    rewrite IH; [exact Hkeys|].
    intros entry Hentry. rewrite Hkeys. apply Hin. now right.
Qed.

(** X16.  The sweep neither drops nor adds a store: when it is over, the
    tokens object has the same handles, in the same order, as the one read
    from the secret, whatever the refresh calls did. *)
Theorem sweep_keeps_the_handles (credentials : Credentials)
        (entries : list (string * TokenData)) (w : W)
        (sent : list string) :
  map fst (tokensVar
             (snd (forOf entries (refreshOne crypto svc credentials)
                         {| world := w; tokensVar := entries;
                            requested := sent |})))
  = map fst entries.
Proof.
  rewrite sweep_keys; [reflexivity|].
  intros entry Hentry. cbn. now apply in_map.
Qed.

Lemma refreshOne_granted (credentials : Credentials) (h : string)
      (td : TokenData) (st : State W) (now now1 now2 : Z) (w0 w1 w2 w3 : W)
      (response : FetchResponse) (newTokenData : TokenResponse) :
  clock svc (world st) = (now, w0) ->
  expiresLater td now = false ->
  clock svc w0 = (now1, w1) ->
  fetchRefresh svc h (appKey credentials) (unixSeconds now1)
    (generateSign crypto
       [("appkey", default "undefined" (appKey credentials));
        ("timestamp", unixSeconds now1)] (appSecret credentials))
    (refreshToken td) w1
  = (inr response, w2) ->
  ok response = true ->
  json response = inr newTokenData ->
  clock svc w2 = (now2, w3) ->
  tokensVar (snd (refreshOne crypto svc credentials (h, td) st))
  = setToken (tokensVar st) h
      {| accessToken := access_token newTokenData;
         refreshToken := refresh_token newTokenData;
         expiresAt := expiryFrom now2 (expires_in newTokenData) |}.
Proof.
  intros Hnow Hdue Hnow1 Hfetch Hok Hjson Hnow2.
  unfold refreshOne, tryCatch, refreshBody, bind, dateNow, fetch,
    assignToken, call, ret, throw.
  destruct st as [w tk rq]. cbn in *.
  rewrite Hnow. cbn. rewrite Hdue. cbn. rewrite Hnow1. cbn.
  rewrite Hfetch. cbn. rewrite Hok. cbn. rewrite Hjson. cbn.
  rewrite Hnow2. cbn.
  destruct (clock svc w3) as [now3 w4]. cbn.
  destruct (toISOString _) as [e|tokenExpiry]; cbn; [reflexivity|].
  destruct (updateItem svc h now3 _ w4) as [[e|[]] w5]; reflexivity.
Qed.

(** X17.  The other half of the sweep.  For an entry that is due and
    whose refresh request is answered with tokens, the tokens object holds
    at the end of the sweep the new access and refresh token under that
    handle, with the expiry counted from the clock reading taken after
    the answer.  This does not depend on the update of the installation
    table: the entry is replaced before that update is attempted. *)
Theorem refreshed_entry_holds_the_new_tokens (credentials : Credentials)
        (entries before after : list (string * TokenData)) (h : string)
        (td : TokenData) (st : State W) (now now1 now2 : Z) (w0 w1 w2 w3 : W)
        (response : FetchResponse) (newTokenData : TokenResponse) :
  List.NoDup (map fst entries) ->
  entries = before ++ (h, td) :: after ->
  clock svc (world (snd (forOf before (refreshOne crypto svc credentials) st)))
  = (now, w0) ->
  expiresLater td now = false ->
  clock svc w0 = (now1, w1) ->
  fetchRefresh svc h (appKey credentials) (unixSeconds now1)
    (generateSign crypto
       [("appkey", default "undefined" (appKey credentials));
        ("timestamp", unixSeconds now1)] (appSecret credentials))
    (refreshToken td) w1
  = (inr response, w2) ->
  ok response = true ->
  json response = inr newTokenData ->
  clock svc w2 = (now2, w3) ->
  getToken (tokensVar (snd (forOf entries (refreshOne crypto svc credentials)
                                  st))) h
  = Some {| accessToken := access_token newTokenData;
            refreshToken := refresh_token newTokenData;
            expiresAt := expiryFrom now2 (expires_in newTokenData) |}.
Proof.
  intros Hnd Hsplit Hnow Hdue Hnow1 Hfetch Hok Hjson Hnow2.
  rewrite Hsplit, map_app in Hnd. simpl in Hnd.
  pose proof (NoDup_remove_2 _ _ _ Hnd) as Hfresh.
  rewrite in_app_iff in Hfresh.
  assert (Hafter : ~ In h (map fst after)) by tauto.
  rewrite Hsplit, sweep_app, sweep_step.
  destruct (sweep_frame crypto svc credentials h after
              (snd (refreshOne crypto svc credentials (h, td)
                      (snd (forOf before (refreshOne crypto svc credentials)
                                  st)))) Hafter) as [Htok _].
  rewrite Htok.
  rewrite (refreshOne_granted credentials h td _ now now1 now2 w0 w1 w2 w3
             response newTokenData Hnow Hdue Hnow1 Hfetch Hok Hjson Hnow2).
  apply setToken_then_getToken.
Qed.

(** X19.  A secret without a [tokens] property is answered 200 "No tokens
    to refresh" right after it has been read: no clock reading, no
    request, and the secret is not written.  A secret whose tokens object
    is empty is different: the loop has nothing to do, but the secret is
    written back (with the empty object) and the answer depends on that
    write. *)
Theorem absent_tokens_write_nothing (credentials : Credentials)
        (st st0 : State W) :
  call (getSecret svc) st = (inr credentials, st0) ->
  (tokens credentials = None ->
   handler crypto svc st
   = (inr {| statusCode := 200; body := BodyMessage "No tokens to refresh" |},
      st0))
  /\
  (tokens credentials = Some [] ->
   handler crypto svc st
   = match putSecret svc {| appKey := appKey credentials;
                            appSecret := appSecret credentials;
                            tokens := Some [] |} (world st0) with
     | (inr _, w) =>
         (inr {| statusCode := 200;
                 body := BodyMessage "Token refresh completed" |},
          {| world := w; tokensVar := []; requested := requested st0 |})
     | (inl _, w) =>
         (inr {| statusCode := 500; body := BodyError "Token refresh failed" |},
          {| world := w; tokensVar := []; requested := requested st0 |})
     end).
Proof.
  intros Hsecret. split; intros Htokens.
  - unfold handler, tryCatch at 1, bind at 1, tryCatch at 1.
    rewrite Hsecret, Htokens. reflexivity.
  - unfold handler, tryCatch at 1, bind at 1, tryCatch at 1.
    rewrite Hsecret, Htokens. unfold bind, call. cbn.
    destruct (putSecret svc _ (world st0)) as [[e|[]] w]; reflexivity.
Qed.

End SweepFacts.

(** The world of the sweep, with the secret holding the four entries. *)
Definition storedSweepWorld : Services unit :=
  {| getSecret w := (inr sweepCredentials, w);
     clock := clock sweepWorld;
     fetchRefresh := fetchRefresh sweepWorld;
     updateItem := updateItem sweepWorld;
     putSecret := putSecret sweepWorld |}.

(** The refresh for [shop-k] fails and the answer is still 200. *)
Lemma handler_after_sweep_witness :
  fst (handler toyCrypto storedSweepWorld sweepStart)
  = inr {| statusCode := 200; body := BodyMessage "Token refresh completed" |}.
Proof.
  pose proof (handler_after_sweep toyCrypto storedSweepWorld sweepCredentials
                sweepEntries sweepStart sweepStart eq_refl eq_refl) as H.
  cbv zeta in H. rewrite H. reflexivity.
Defined.

(** [shop-a] is due and its refresh is granted. *)
Lemma refreshed_entry_holds_the_new_tokens_witness :
  getToken (tokensVar (snd (forOf sweepEntries
                                  (refreshOne toyCrypto sweepWorld
                                              sweepCredentials)
                                  sweepStart))) "shop-a"
  = Some {| accessToken := Some "new-access";
            refreshToken := Some "new-refresh";
            expiresAt := Some 1700036000000 |}.
Proof.
  assert (Hnd : List.NoDup (map fst sweepEntries)).
  { repeat constructor; simpl; intuition discriminate. }
  rewrite (refreshed_entry_holds_the_new_tokens toyCrypto sweepWorld
             sweepCredentials sweepEntries []
             [("shop-k", expiring 1700000002000);
              ("shop-b", expiring 1700000003000);
              ("shop-c", expiring 1800000000000)]
             "shop-a" (expiring 1700000001000) sweepStart
             1700000000000 1700000000000 1700000000000 tt tt tt tt
             {| ok := true; text := inr ""; json := inr refreshed |} refreshed
             Hnd eq_refl eq_refl eq_refl eq_refl eq_refl eq_refl eq_refl
             eq_refl).
  reflexivity.
Defined.

(** The secret of [sweepWorld] has no tokens. *)
Lemma absent_tokens_write_nothing_witness :
  handler toyCrypto sweepWorld sweepStart
  = (inr {| statusCode := 200; body := BodyMessage "No tokens to refresh" |},
     sweepStart).
Proof.
  destruct (absent_tokens_write_nothing toyCrypto sweepWorld
              {| appKey := Some "k"; appSecret := Some "secret";
                 tokens := None |} sweepStart sweepStart eq_refl)
    as [Hnone _].
  exact (Hnone eq_refl).
Defined.

(** *** A sweep on record

    A world that keeps what the handler sends: the refresh requests with
    the refresh token they carry, the updates of the installation table,
    and the secret as last written.  The clock stands at [1700000000000],
    so a token is due up to and including [1700086400000]. *)

Record Ledger : Type := mkLedger {
  ledger_requests : list (string * option string);
  ledger_updates : list (string * Z * Z);
  ledger_written : option Credentials
}.

(** Shopline cannot be reached for [shop-down], answers 401 for
    [shop-refused], answers 200 with a body that carries no tokens for
    [shop-empty], and grants every other refresh. *)
Definition answerFor (handle : string) : JsError + FetchResponse :=
  if String.eqb handle "shop-down" then inl (Error "connect ETIMEDOUT")
  else if String.eqb handle "shop-refused" then
    inr {| ok := false; text := inr "invalid refresh token";
           json := inr {| access_token := None; refresh_token := None;
                          expires_in := None |} |}
  else if String.eqb handle "shop-empty" then
    inr {| ok := true; text := inr "{}";
           json := inr {| access_token := None; refresh_token := None;
                          expires_in := None |} |}
  else inr {| ok := true; text := inr ""; json := inr refreshed |}.

Definition held (handle : string) (expiry : option Z) : TokenData :=
  {| accessToken := Some ("access-" ++ handle)%string;
     refreshToken := Some ("refresh-" ++ handle)%string;
     expiresAt := expiry |}.

Definition ledgerEntries : list (string * TokenData) :=
  [("shop-later", held "shop-later" (Some 1700086400001));
   ("shop-edge", held "shop-edge" (Some 1700086400000));
   ("shop-undated", held "shop-undated" None);
   ("shop-down", held "shop-down" (Some 1700000001000));
   ("shop-refused", held "shop-refused" (Some 1700000002000));
   ("shop-empty", held "shop-empty" (Some 1700000003000));
   ("shop-last", held "shop-last" (Some 1700000004000))].

Definition ledgerServices : Services Ledger :=
  {| getSecret w :=
       (inr {| appKey := Some "k"; appSecret := Some "secret";
               tokens := Some ledgerEntries |}, w);
     clock w := (1700000000000, w);
     fetchRefresh handle appkey timestamp sign refresh_token w :=
       (answerFor handle,
        {| ledger_requests := ledger_requests w ++ [(handle, refresh_token)];
           ledger_updates := ledger_updates w;
           ledger_written := ledger_written w |});
     updateItem handle updatedAt tokenExpiry w :=
       (inr tt,
        {| ledger_requests := ledger_requests w;
           ledger_updates :=
             ledger_updates w ++ [(handle, updatedAt, tokenExpiry)];
           ledger_written := ledger_written w |});
     putSecret credentials w :=
       (inr tt,
        {| ledger_requests := ledger_requests w;
           ledger_updates := ledger_updates w;
           ledger_written := Some credentials |}) |}.

Definition ledgerStart : State Ledger :=
  {| world := {| ledger_requests := []; ledger_updates := [];
                 ledger_written := None |};
     tokensVar := []; requested := [] |}.

Definition granted : TokenData :=
  {| accessToken := Some "new-access"; refreshToken := Some "new-refresh";
     expiresAt := Some 1700036000000 |}.

(** C8 on the code.  One run of the handler over seven stores.  The
    token that expires one millisecond after the 24 hours is left alone;
    a request goes out for every other store, the one that expires exactly
    24 hours from now and the one without expiry included, and the stores
    after a failed one are still processed.  The stores whose request
    threw or was answered 401 keep their tokens.  The store whose request
    was answered 200 without tokens does not: its access token, refresh
    token and expiry are gone from the secret that is written back,
    although the turn ended in the [catch] (the date of the installation
    update is invalid, and the table gets no update for it). *)
Theorem answer_without_tokens_overwrites_the_entry :
  let run := handler toyCrypto ledgerServices ledgerStart in
  fst run
  = inr {| statusCode := 200; body := BodyMessage "Token refresh completed" |}
  /\
  ledger_requests (world (snd run))
  = [("shop-edge", Some "refresh-shop-edge");
     ("shop-undated", Some "refresh-shop-undated");
     ("shop-down", Some "refresh-shop-down");
     ("shop-refused", Some "refresh-shop-refused");
     ("shop-empty", Some "refresh-shop-empty");
     ("shop-last", Some "refresh-shop-last")]
  /\
  ledger_updates (world (snd run))
  = [("shop-edge", 1700000000000, 1700036000000);
     ("shop-undated", 1700000000000, 1700036000000);
     ("shop-last", 1700000000000, 1700036000000)]
  /\
  ledger_written (world (snd run))
  = Some {| appKey := Some "k"; appSecret := Some "secret";
            tokens :=
              Some [("shop-later", held "shop-later" (Some 1700086400001));
                    ("shop-edge", granted);
                    ("shop-undated", granted);
                    ("shop-down", held "shop-down" (Some 1700000001000));
                    ("shop-refused",
                     held "shop-refused" (Some 1700000002000));
                    ("shop-empty",
                     {| accessToken := None; refreshToken := None;
                        expiresAt := None |});
                    ("shop-last", granted)] |}.
Proof. vm_compute. repeat split; reflexivity. Qed.

End Refresh.

(** ** Buy with Prime authorisation (callback.mjs, lines 565-835)

    The launch handler issues a PKCE authorisation request and stores the
    [state] with its code verifier; the install, settings and uninstall
    handlers first check the verification token of the request. *)

Module BwpAuth.

(** The claims of a verified token that the handlers read. *)
Record Payload : Type := mkPayload {
  requestHash : option string;
  installationId : option string
}.

(** What comes from [crypto] and [jsonwebtoken].  [jwtVerify] checks the
    token against the compiled-in public key and throws when it does not
    verify. *)
Record Lib : Type := mkLib {
  sha256Hex : string -> string;
  jwtVerify : string -> JsError + Payload;
  (* the SHA-256 digest of the verifier in URL-safe base64 *)
  generateCodeChallenge : string -> string
}.

Record Event : Type := mkEvent {
  rawPath : string;
  (* event.requestContext.http.method; None: no requestContext *)
  method : option string;
  queryStringParameters : option Obj;
  headers : option Obj;
  eventBody : option string             (* event.body *)
}.

Inductive Body : Type :=
| BodyMessage (message : string)
| BodyInstallationId (installationId : option string).

(** The authorize URL of the launch redirect, by its variable parts. *)
Record AuthorizeUrl : Type := mkAuthorizeUrl {
  au_client_id : option string;
  au_state : string;
  au_code_challenge : string
}.

Record Response : Type := mkResponse {
  statusCode : Z;
  location : option AuthorizeUrl;
  body : Body
}.

Definition message (code : Z) (text : string) : Response :=
  {| statusCode := code; location := None; body := BodyMessage text |}.

Record StateItem : Type := mkStateItem {
  si_state : string;
  si_codeVerifier : string;
  si_createdAt : Z
}.

Record TokenStoreItem : Type := mkTokenStoreItem {
  ts_installation_id : string;
  ts_updated_at_ms : Z;                 (* stored divided by 1000 *)
  ts_token : option string;
  ts_refresh_token : option string
}.

(** The two tables the handlers use. *)
Record Db : Type := mkDb {
  stateTable : gmap string StateItem;
  tokenTable : gmap string TokenStoreItem
}.

Record BwpCredentials : Type := mkBwpCredentials {
  clientId : option string;
  clientSecret : option string
}.

Record TokenReply : Type := mkTokenReply {
  access_token : option string;
  refresh_token : option string
}.

(** How the outside answers during one invocation. *)
Record Env : Type := mkEnv {
  env_secret : JsError + BwpCredentials;
  env_random : string;                  (* Math.random().toString() *)
  env_randomHex : string;               (* randomBytes(32).toString('hex') *)
  env_now : Z;
  env_dbFailure : option JsError;       (* the DynamoDB call throws *)
  (* the token endpoint, given the code and the code verifier *)
  env_token : option string -> string -> JsError + TokenReply
}.

(** The identifiers bound in the module.  [handleBWPInstall] evaluates
    [new GetCommand(...)], and the import line of the file brings in
    [DynamoDBDocumentClient] and [PutCommand] only. *)
Record ModuleScope : Type := mkModuleScope {
  bindsGetCommand : bool
}.

Definition asWritten : ModuleScope := {| bindsGetCommand := false |}.

(** [s.includes(sub)], [s.indexOf(sub)], [s.substring(0, end)] *)
Definition includes (s sub : string) : bool :=
  match String.index 0 sub s with Some _ => true | None => false end.

Definition indexOf (s sub : string) : Z :=
  match String.index 0 sub s with Some n => Z.of_nat n | None => -1 end.

Definition substringTo (s : string) (end_ : Z) : string :=
  String.substring 0 (Z.to_nat (Z.max 0 end_)) s.

Section Handlers.
Variable lib : Lib.

(** Reading [event.headers.Host] throws when there are no headers. *)
Definition calculateRequestHash (event : Event) : JsError + string :=
  match headers event with
  | None =>
      inl (Error "Cannot read properties of undefined (reading 'Host')")
  | Some hs =>
      let url := ("https://" ++ default "undefined" (getProp hs "Host")
                             ++ rawPath event)%string in
      let url :=
        if includes url "verification-token"
        then substringTo url (indexOf url "verification-token=" - 1)
        else url in
      let bodyHash :=
        if truthy (eventBody event)
        then sha256Hex lib (default "" (eventBody event))
        else "" in
      inr (sha256Hex lib (url ++ bodyHash)%string)
  end.

(** [a || b] on two optional strings. *)
Definition orElse (a b : option string) : option string :=
  if truthy a then a else b.

Definition verificationToken (event : Event) : option string :=
  orElse
    (queryStringParameters event ≫= fun q => getProp q "verification-token")
    (headers event ≫= fun h => getProp h "verification-token").

Definition validateVerificationToken (event : Event) : JsError + Payload :=
  let token := verificationToken event in
  if negb (truthy token) then inl (Error "Missing Verification Token")
  else
    match jwtVerify lib (default "" token) with
    | inl error => inl error
    | inr payload =>
        match calculateRequestHash event with
        | inl error => inl error
        | inr actualHash =>
            if negb (optStringEqb (requestHash payload) (Some actualHash))
            then inl (Error
                   "Actual request hash does not match the expected hash")
            else inr payload
        end
    end.

Variable env : Env.

Definition liftResult {A} (r : JsError + A) : Exec Db A :=
  fun db => (r, db).

Definition getBWPCredentials : Exec Db BwpCredentials :=
  tryCatch (liftResult (env_secret env))
           (fun _ => throw (Error "Failed to get BWP credentials")).

Definition dbCall {A} (op : Db -> A * Db) : Exec Db A :=
  fun db =>
    match env_dbFailure env with
    | Some error => (inl error, db)
    | None => let '(a, db') := op db in (inr a, db')
    end.

(** [PutCommand] on the state table. *)
Definition putState (item : StateItem) : Exec Db unit :=
  dbCall (fun db =>
            (tt, {| stateTable := <[si_state item := item]> (stateTable db);
                    tokenTable := tokenTable db |})).

(** [GetCommand] on the state table; a key without value is refused. *)
Definition getState (state : option string) : Exec Db (option StateItem) :=
  match state with
  | None => throw (Error "The provided key element does not match the schema")
  | Some s => dbCall (fun db => (stateTable db !! s, db))
  end.

(** [PutCommand] on the token table. *)
Definition putToken (item : TokenStoreItem) : Exec Db unit :=
  dbCall (fun db =>
            (tt, {| stateTable := stateTable db;
                    tokenTable :=
                      <[ts_installation_id item := item]> (tokenTable db) |})).

Definition handleBWPLaunch (event : Event) : Exec Db Response :=
  credentials <- getBWPCredentials;;
  let state := env_random env in
  let codeVerifier := env_randomHex env in
  let codeChallenge := generateCodeChallenge lib codeVerifier in
  putState {| si_state := state; si_codeVerifier := codeVerifier;
              si_createdAt := env_now env |};;
  ret {| statusCode := 302;
         location := Some {| au_client_id := clientId credentials;
                             au_state := state;
                             au_code_challenge := codeChallenge |};
         body := BodyMessage "Redirecting to BWP authorization URL" |}.

Variable scope : ModuleScope.

Definition handleBWPInstall (event : Event) : Exec Db Response :=
  tryCatch
    (tokenPayload <- liftResult (validateVerificationToken event);;
     let installationId := installationId tokenPayload in
     match queryStringParameters event with
     | None =>
         throw (Error "Cannot read properties of undefined (reading 'code')")
     | Some query =>
         let authCode := getProp query "code" in
         let state := getProp query "state" in
         stateData <-
           (if bindsGetCommand scope then getState state
            else throw (Error "GetCommand is not defined"));;
         match stateData with
         | None => throw (Error "Invalid state")
         | Some item =>
             let codeVerifier := si_codeVerifier item in
             credentials <- getBWPCredentials;;
             response <- liftResult (env_token env authCode codeVerifier);;
             match installationId with
             | None =>
                 throw (Error
                   "The provided key element does not match the schema")
             | Some installation_id =>
                 putToken {| ts_installation_id := installation_id;
                             ts_updated_at_ms := env_now env;
                             ts_token := access_token response;
                             ts_refresh_token := refresh_token response |}
             end;;
             ret (message 200 "BWP installation successful")
         end
     end)
    (fun _ => ret (message 500 "BWP installation failed")).

Definition handleBWPSettings (event : Event) : Exec Db Response :=
  tryCatch
    (payload <- liftResult (validateVerificationToken event);;
     ret {| statusCode := 200; location := None;
            body := BodyInstallationId (installationId payload) |})
    (fun _ => ret (message 500 "Failed to retrieve BWP settings")).

Definition handleBWPUninstall (event : Event) : Exec Db Response :=
  tryCatch
    (payload <- liftResult (validateVerificationToken event);;
     ret (message 200 "BWP uninstallation successful"))
    (fun _ => ret (message 500 "BWP uninstallation failed")).

Definition notFound : Response := message 404 "Not Found".

(** [handleBWP] reads the method again; the caller has made sure there is
    one. *)
Definition handleBWP (event : Event) (httpMethod : string)
  : Exec Db Response :=
  let path := rawPath event in
  if String.eqb path "/bwp/launch" && String.eqb httpMethod "GET"
  then handleBWPLaunch event
  else if String.eqb path "/bwp/install" && String.eqb httpMethod "GET"
  then handleBWPInstall event
  else if String.eqb path "/bwp/settings" && String.eqb httpMethod "GET"
  then handleBWPSettings event
  else if String.eqb path "/bwp/uninstall" && String.eqb httpMethod "POST"
  then handleBWPUninstall event
  else ret notFound.

(** The router.  Its [try] covers the reading of the path and method;
    the handlers are returned without [await].  [handleShopline] has an
    empty body and yields no response. *)
Definition handler (event : Event) : Exec Db (option Response) :=
  match method event with
  | None => ret (Some (message 500 "Internal server error"))
  | Some httpMethod =>
      if String.prefix "/shopline" (rawPath event) then ret None
      else if String.prefix "/bwp" (rawPath event)
      then response <- handleBWP event httpMethod;; ret (Some response)
      else ret (Some notFound)
  end.

End Handlers.

(** *** The two ways a verification token fails *)

(** No token, or a token that does not verify against the public key. *)
Definition signatureFails (lib : Lib) (event : Event) : Prop :=
  truthy (verificationToken event) = false \/
  exists error,
    jwtVerify lib (default "" (verificationToken event)) = inl error.

(** A token that verifies but whose [requestHash] claim is not the hash
    of the request. *)
Definition hashFails (lib : Lib) (event : Event) : Prop :=
  truthy (verificationToken event) = true /\
  exists payload actualHash,
    jwtVerify lib (default "" (verificationToken event)) = inr payload /\
    calculateRequestHash lib event = inr actualHash /\
    requestHash payload <> Some actualHash.

Lemma signatureFails_rejected (lib : Lib) (event : Event) :
  signatureFails lib event ->
  exists error, validateVerificationToken lib event = inl error.
Proof.
  unfold validateVerificationToken. intros [Hmissing | [error Hverify]].
  - rewrite Hmissing. simpl. eauto.
  - destruct (truthy (verificationToken event)); simpl; [|eauto].
    rewrite Hverify. eauto.
Qed.

Lemma hashFails_rejected (lib : Lib) (event : Event) :
  hashFails lib event ->
  exists error, validateVerificationToken lib event = inl error.
Proof.
  unfold validateVerificationToken.
  intros (Htoken & payload & actual & Hverify & Hhash & Hne).
  rewrite Htoken, Hverify, Hhash. simpl.
  destruct (optStringEqb (requestHash payload) (Some actual)) eqn:E.
  - apply optStringEqb_eq in E. contradiction.
  - simpl. eauto.
Qed.

Section Rejection.
Context (lib : Lib) (env : Env) (scope : ModuleScope).

(** A request whose token check throws gets the handler's one failure
    response, and the tables are not touched. *)
Lemma rejected_by_install (event : Event) (db : Db) (error : JsError) :
  validateVerificationToken lib event = inl error ->
  handleBWPInstall lib env scope event db
  = (inr (message 500 "BWP installation failed"), db).
Proof.
  intros H. unfold handleBWPInstall, tryCatch, bind, liftResult.
  rewrite H. reflexivity.
Qed.

Lemma rejected_by_settings (event : Event) (db : Db) (error : JsError) :
  validateVerificationToken lib event = inl error ->
  handleBWPSettings lib event db
  = (inr (message 500 "Failed to retrieve BWP settings"), db).
Proof.
  intros H. unfold handleBWPSettings, tryCatch, bind, liftResult.
  rewrite H. reflexivity.
Qed.

Lemma rejected_by_uninstall (event : Event) (db : Db) (error : JsError) :
  validateVerificationToken lib event = inl error ->
  handleBWPUninstall lib event db
  = (inr (message 500 "BWP uninstallation failed"), db).
Proof.
  intros H. unfold handleBWPUninstall, tryCatch, bind, liftResult.
  rewrite H. reflexivity.
Qed.

End Rejection.

(** C9.  Take a request that fails the signature check and one that
    fails the hash check.  Each of the three handlers that verify the
    token answers both with the same response, whatever the rest of the
    request, the tables and the outside are.  Sent to the same path with
    the same method, the two requests also get the same response from the
    router. *)
Theorem failure_cause_is_not_revealed (lib : Lib) (scope : ModuleScope)
        (env1 env2 : Env) (e1 e2 : Event) (db1 db2 : Db) :
  signatureFails lib e1 ->
  hashFails lib e2 ->
  fst (handleBWPInstall lib env1 scope e1 db1)
  = fst (handleBWPInstall lib env2 scope e2 db2) /\
  fst (handleBWPSettings lib e1 db1) = fst (handleBWPSettings lib e2 db2) /\
  fst (handleBWPUninstall lib e1 db1) = fst (handleBWPUninstall lib e2 db2) /\
  (rawPath e1 = rawPath e2 -> method e1 = method e2 ->
   rawPath e1 <> "/bwp/launch" ->
   fst (handler lib env1 scope e1 db1) = fst (handler lib env2 scope e2 db2)).
Proof.
  intros [err1 H1]%signatureFails_rejected [err2 H2]%hashFails_rejected.
  pose proof (rejected_by_install lib env1 scope e1 db1 err1 H1) as Hi1.
  pose proof (rejected_by_install lib env2 scope e2 db2 err2 H2) as Hi2.
  pose proof (rejected_by_settings lib e1 db1 err1 H1) as Hs1.
  pose proof (rejected_by_settings lib e2 db2 err2 H2) as Hs2.
  pose proof (rejected_by_uninstall lib e1 db1 err1 H1) as Hu1.
  pose proof (rejected_by_uninstall lib e2 db2 err2 H2) as Hu2.
  repeat split.
  - now rewrite Hi1, Hi2.
  - now rewrite Hs1, Hs2.
  - now rewrite Hu1, Hu2.
  - intros Hpath Hmethod Hlaunch. unfold handler, handleBWP, bind.
    rewrite <- Hpath, <- Hmethod.
    destruct (method e1) as [m|]; [|reflexivity].
    destruct (String.prefix "/shopline" (rawPath e1)); [reflexivity|].
    destruct (String.prefix "/bwp" (rawPath e1)); [|reflexivity].
    assert (String.eqb (rawPath e1) "/bwp/launch" = false) as ->
      by now apply String.eqb_neq.
    simpl.
    destruct (String.eqb (rawPath e1) "/bwp/install" && String.eqb m "GET");
      [now rewrite Hi1, Hi2|].
    destruct (String.eqb (rawPath e1) "/bwp/settings" && String.eqb m "GET");
      [now rewrite Hs1, Hs2|].
    destruct (String.eqb (rawPath e1) "/bwp/uninstall"
              && String.eqb m "POST");
      [now rewrite Hu1, Hu2 | reflexivity].
Qed.

(** *** A closed instance *)

Definition installUrl : string := "https://api.example.com/bwp/install".

(** A library that accepts the one token [signed], issued for the install
    URL of installation [inst-1]. *)
Definition toyLib : Lib :=
  {| sha256Hex s := ("sha256:" ++ s)%string;
     jwtVerify token :=
       if String.eqb token "signed"
       then inr {| requestHash := Some ("sha256:" ++ installUrl)%string;
                   installationId := Some "inst-1" |}
       else inl (Error "invalid signature");
     generateCodeChallenge verifier := ("S256:" ++ verifier)%string |}.

Definition installRequest (token state : string) (host : string) : Event :=
  {| rawPath := "/bwp/install";
     method := Some "GET";
     queryStringParameters :=
       Some [("verification-token", token); ("code", "c1"); ("state", state)];
     headers := Some [("Host", host)];
     eventBody := None |}.

(** Everything outside answers; the token endpoint grants any code. *)
Definition calmEnv : Env :=
  {| env_secret := inr {| clientId := Some "client";
                          clientSecret := Some "secret" |};
     env_random := "0.123456";
     env_randomHex := "c0ffee";
     env_now := 1700000000000;
     env_dbFailure := None;
     env_token authCode codeVerifier :=
       inr {| access_token := Some "at"; refresh_token := Some "rt" |} |}.

(** The state table after a launch that issued the state [s1]. *)
Definition launched : Db :=
  {| stateTable := {[ "s1" := {| si_state := "s1"; si_codeVerifier := "c0ffee";
                                 si_createdAt := 1700000000000 |} ]};
     tokenTable := ∅ |}.

(** A forged token and a valid token sent to another host are answered
    alike. *)
Lemma failure_cause_is_not_revealed_witness :
  fst (handleBWPInstall toyLib calmEnv asWritten
         (installRequest "forged" "s1" "api.example.com") launched)
  = fst (handleBWPInstall toyLib calmEnv asWritten
           (installRequest "signed" "s1" "other.example.com") launched) /\
  fst (handleBWPSettings toyLib
         (installRequest "forged" "s1" "api.example.com") launched)
  = inr (message 500 "Failed to retrieve BWP settings").
Proof.
  assert (H1 : signatureFails toyLib
                 (installRequest "forged" "s1" "api.example.com")).
  { right. eexists. reflexivity. }
  assert (H2 : hashFails toyLib
                 (installRequest "signed" "s1" "other.example.com")).
  { split; [reflexivity|]. do 2 eexists.
    split; [reflexivity|]. split; [reflexivity|]. discriminate. }
  destruct (failure_cause_is_not_revealed toyLib asWritten calmEnv calmEnv
              _ _ launched launched H1 H2) as (Hi & Hs & _).
  split; [exact Hi | reflexivity].
Defined.

(** As the file is written, no request gets past the lookup of the
    state. *)
Lemma handleBWPInstall_as_written (lib : Lib) (env : Env) (event : Event)
      (db : Db) :
  handleBWPInstall lib env asWritten event db
  = (inr (message 500 "BWP installation failed"), db).
Proof.
  unfold handleBWPInstall, tryCatch, bind, liftResult, throw, ret. simpl.
  destruct (validateVerificationToken lib event) as [e|payload];
    [reflexivity|].
  destruct (queryStringParameters event); reflexivity.
Qed.

(** No call of [handleBWPInstall] changes the state table. *)
Lemma handleBWPInstall_keeps_states (lib : Lib) (env : Env)
      (scope : ModuleScope) (event : Event) (db : Db) :
  stateTable (snd (handleBWPInstall lib env scope event db)) = stateTable db.
Proof.
  unfold handleBWPInstall, tryCatch, bind, liftResult, getBWPCredentials,
    tryCatch, getState, putToken, dbCall, throw, ret.
  destruct (validateVerificationToken lib event) as [e|payload];
    [reflexivity|].
  destruct (queryStringParameters event) as [query|]; [|reflexivity].
  destruct (bindsGetCommand scope); [|reflexivity].
  destruct (getProp query "state") as [s|]; [|reflexivity].
  destruct (env_dbFailure env) as [e|] eqn:Hdb; [reflexivity|].
  destruct (stateTable db !! s) as [item|]; [|reflexivity].
  destruct (env_secret env) as [e|credentials]; [reflexivity|].
  destruct (env_token env _ _) as [e|response]; [reflexivity|].
  destruct (installationId payload); reflexivity.
Qed.

(** *** The token check, the launch and the router *)

(** X20.  [validateVerificationToken] returns a payload exactly when the
    request carries a non-empty token (the query parameter, or else the
    header), the token verifies against the public key with that
    payload, and the payload's [requestHash] is the hash computed from
    the request.  Both checks have to pass. *)
Theorem token_accepted_iff_signed_and_hash_matches (lib : Lib)
        (event : Event) (payload : Payload) :
  validateVerificationToken lib event = inr payload
  <-> exists token actualHash,
        verificationToken event = Some token /\ token <> "" /\
        jwtVerify lib token = inr payload /\
        calculateRequestHash lib event = inr actualHash /\
        requestHash payload = Some actualHash.
Proof.
  unfold validateVerificationToken. split.
  - destruct (verificationToken event) as [token|] eqn:Htoken; cbn;
      [|discriminate].
    destruct (String.eqb token "") eqn:Hempty; cbn; [discriminate|].
    destruct (jwtVerify lib token) as [e|found] eqn:Hverify; [discriminate|].
    destruct (calculateRequestHash lib event) as [e|actualHash] eqn:Hhash;
      [discriminate|].
    destruct (optStringEqb (requestHash found) (Some actualHash)) eqn:Heq;
      cbn; [|discriminate].
    intros [= <-]. exists token, actualHash.
    apply String.eqb_neq in Hempty. apply optStringEqb_eq in Heq.
    repeat split; assumption.
  - intros (token & actualHash & -> & Hne & Hverify & Hhash & Heq). cbn.
    apply String.eqb_neq in Hne. rewrite Hne. cbn.
    rewrite Hverify, Hhash.
    apply optStringEqb_eq in Heq. rewrite Heq. reflexivity.
Qed.

(** X21.  A launch that gets the credentials and reaches the table
    answers 302, and what it redirects with is what it stored: the state
    table holds an item under the [state] of the authorize URL, and the
    URL's code challenge is the challenge of that item's code verifier.
    Every other state and the whole token table are as before. *)
Theorem launch_stores_the_verifier_of_its_challenge (lib : Lib) (env : Env)
        (event : Event) (db : Db) (credentials : BwpCredentials) :
  env_secret env = inr credentials ->
  env_dbFailure env = None ->
  exists url item db',
    handleBWPLaunch lib env event db
    = (inr {| statusCode := 302; location := Some url;
              body := BodyMessage "Redirecting to BWP authorization URL" |},
       db') /\
    au_client_id url = clientId credentials /\
    stateTable db' !! au_state url = Some item /\
    au_code_challenge url = generateCodeChallenge lib (si_codeVerifier item) /\
    (forall s, s <> au_state url -> stateTable db' !! s = stateTable db !! s) /\
    tokenTable db' = tokenTable db.
Proof.
  intros Hsecret Hdb.
  unfold handleBWPLaunch, bind, getBWPCredentials, tryCatch, liftResult,
    putState, dbCall, ret.
  rewrite Hsecret, Hdb. cbn.
  do 3 eexists. split; [reflexivity|]. cbn.
  split; [reflexivity|]. split; [apply lookup_insert_eq|].
  split; [reflexivity|]. split; [|reflexivity].
  intros s Hs. apply lookup_insert_ne. congruence.
Qed.

Section Router.
Context (lib : Lib) (env : Env).

Lemma handleBWPLaunch_keeps_tokens (event : Event) (db : Db) :
  tokenTable (snd (handleBWPLaunch lib env event db)) = tokenTable db.
Proof.
  unfold handleBWPLaunch, bind, getBWPCredentials, tryCatch, liftResult,
    putState, dbCall, ret, throw.
  destruct (env_secret env) as [e|credentials]; [reflexivity|].
  destruct (env_dbFailure env); reflexivity.
Qed.

Lemma handleBWPSettings_keeps_db (event : Event) (db : Db) :
  snd (handleBWPSettings lib event db) = db.
Proof.
  unfold handleBWPSettings, tryCatch, bind, liftResult, ret.
  destruct (validateVerificationToken lib event); reflexivity.
Qed.

Lemma handleBWPUninstall_keeps_db (event : Event) (db : Db) :
  snd (handleBWPUninstall lib event db) = db.
Proof.
  unfold handleBWPUninstall, tryCatch, bind, liftResult, ret.
  destruct (validateVerificationToken lib event); reflexivity.
Qed.

(** The four routes of [handleBWP], as a case distinction. *)
Lemma handleBWP_cases (scope : ModuleScope) (event : Event)
      (httpMethod : string) :
  (rawPath event = "/bwp/launch" /\ httpMethod = "GET" /\
   handleBWP lib env scope event httpMethod = handleBWPLaunch lib env event)
  \/
  (rawPath event = "/bwp/install" /\ httpMethod = "GET" /\
   handleBWP lib env scope event httpMethod
   = handleBWPInstall lib env scope event)
  \/
  (~ (rawPath event = "/bwp/launch" /\ httpMethod = "GET") /\
   ~ (rawPath event = "/bwp/install" /\ httpMethod = "GET") /\
   (handleBWP lib env scope event httpMethod = handleBWPSettings lib event \/
    handleBWP lib env scope event httpMethod = handleBWPUninstall lib event \/
    handleBWP lib env scope event httpMethod = ret notFound)).
Proof.
  unfold handleBWP.
  destruct (String.eqb (rawPath event) "/bwp/launch") eqn:Elaunch;
    destruct (String.eqb httpMethod "GET") eqn:Eget; cbn.
  - apply String.eqb_eq in Elaunch, Eget. left. auto.
  - apply String.eqb_eq in Elaunch. apply String.eqb_neq in Eget.
    right. right.
    assert (String.eqb (rawPath event) "/bwp/install" = false) as ->
      by (rewrite Elaunch; reflexivity).
    assert (String.eqb (rawPath event) "/bwp/settings" = false) as ->
      by (rewrite Elaunch; reflexivity).
    assert (String.eqb (rawPath event) "/bwp/uninstall" = false) as ->
      by (rewrite Elaunch; reflexivity).
    cbn. repeat split; try tauto.
  - apply String.eqb_neq in Elaunch. apply String.eqb_eq in Eget.
    subst httpMethod.
    destruct (String.eqb (rawPath event) "/bwp/install") eqn:Einstall; cbn.
    + apply String.eqb_eq in Einstall. right. left. auto.
    + apply String.eqb_neq in Einstall. right. right.
      split; [tauto|]. split; [tauto|].
      destruct (String.eqb (rawPath event) "/bwp/settings"); cbn; [tauto|].
      rewrite andb_false_r. tauto.
  - apply String.eqb_neq in Elaunch, Eget.
    right. right. rewrite !andb_false_r.
    split; [tauto|]. split; [tauto|].
    destruct (String.eqb (rawPath event) "/bwp/uninstall"
              && String.eqb httpMethod "POST"); tauto.
Qed.

(** X22.  Which request can change which table.  The state table is
    changed by [GET /bwp/launch] only: no other request adds a state, and
    none removes one.  The token table is changed by [GET /bwp/install]
    only, and not even by that as the file is written (without
    [GetCommand] the install never reaches its write); in particular
    [POST /bwp/uninstall] leaves an installation's tokens in the table. *)
Theorem only_launch_and_install_write (scope : ModuleScope) (event : Event)
        (db : Db) :
  (~ (rawPath event = "/bwp/launch" /\ method event = Some "GET") ->
   stateTable (snd (handler lib env scope event db)) = stateTable db)
  /\
  (~ (rawPath event = "/bwp/install" /\ method event = Some "GET" /\
      bindsGetCommand scope = true) ->
   tokenTable (snd (handler lib env scope event db)) = tokenTable db).
Proof.
  unfold handler.
  destruct (method event) as [httpMethod|]; [|split; reflexivity].
  destruct (String.prefix "/shopline" (rawPath event)); [split; reflexivity|].
  destruct (String.prefix "/bwp" (rawPath event)); [|split; reflexivity].
  assert (Hsnd : forall m : Exec Db Response,
             snd ((response <- m;; ret (Some response)) db) = snd (m db)).
  { intros m. unfold bind, ret. destruct (m db) as [[e|r] db']; reflexivity. }
  rewrite Hsnd.
  destruct (handleBWP_cases scope event httpMethod)
    as [(Hp & Hm & ->) | [(Hp & Hm & ->) | (Hl & Hi & [-> | [-> | ->]])]].
  - split.
    + intros Hnot. exfalso. apply Hnot. split; congruence.
    + intros _. apply handleBWPLaunch_keeps_tokens.
  - split.
    + intros _. apply handleBWPInstall_keeps_states.
    + intros Hnot. destruct scope as [[|]].
      * exfalso. apply Hnot. repeat split; congruence.
      * change {| bindsGetCommand := false |} with asWritten.
        rewrite handleBWPInstall_as_written. reflexivity.
  - rewrite handleBWPSettings_keeps_db. split; reflexivity.
  - rewrite handleBWPUninstall_keeps_db. split; reflexivity.
  - split; reflexivity.
Qed.

(** X23.  The router answers every request but one.  The handlers are
    returned without [await], so the router's own [try] does not cover
    them; install, settings and uninstall catch their errors themselves,
    the launch does not.  The invocation ends in an exception exactly
    for a [GET /bwp/launch] whose credentials cannot be read or whose
    write to the state table fails. *)
Theorem only_a_failing_launch_throws (scope : ModuleScope) (event : Event)
        (db : Db) :
  (exists error, fst (handler lib env scope event db) = inl error)
  <-> rawPath event = "/bwp/launch" /\ method event = Some "GET" /\
      ((exists error, env_secret env = inl error) \/
       (exists error, env_dbFailure env = Some error)).
Proof.
  assert (Hlaunch :
    (exists error, fst (handleBWPLaunch lib env event db) = inl error)
    <-> (exists error, env_secret env = inl error) \/
        (exists error, env_dbFailure env = Some error)).
  { unfold handleBWPLaunch, bind, getBWPCredentials, tryCatch, liftResult,
      putState, dbCall, ret, throw.
    destruct (env_secret env) as [e|credentials]; cbn.
    - split; eauto.
    - destruct (env_dbFailure env) as [e|]; cbn.
      + split; eauto.
      + split; [intros [e He]; discriminate|].
        intros [[e He]|[e He]]; discriminate. }
  assert (Hfst : forall m : Exec Db Response,
    (exists error, fst ((response <- m;; ret (Some response)) db) = inl error)
    <-> (exists error, fst (m db) = inl error)).
  { intros m. unfold bind, ret. destruct (m db) as [[e|r] db']; cbn.
    - split; eauto.
    - split; intros [e He]; discriminate. }
  assert (Hnever : forall m : Exec Db Response,
    (exists r, fst (m db) = inr r) ->
    ~ exists error, fst (m db) = inl error).
  { intros m [r Hr] [e He]. congruence. }
  assert (Hcaught : forall (m : Exec Db Response) (answer : Response),
    exists r, fst (tryCatch m (fun _ => ret answer) db) = inr r).
  { intros m answer. unfold tryCatch, ret.
    destruct (m db) as [[e|r] db']; eauto. }
  unfold handler.
  destruct (method event) as [httpMethod|];
    [|split; [intros [e He]; discriminate | intros (_ & H & _); discriminate]].
  destruct (String.prefix "/shopline" (rawPath event)) eqn:Eshop.
  { split; [intros [e He]; discriminate|].
    intros (Hp & _). rewrite Hp in Eshop. discriminate. }
  destruct (String.prefix "/bwp" (rawPath event)) eqn:Ebwp.
  2:{ split; [intros [e He]; discriminate|].
      intros (Hp & _). rewrite Hp in Ebwp. discriminate. }
  rewrite Hfst.
  destruct (handleBWP_cases scope event httpMethod)
    as [(Hp & Hm & ->) | [(Hp & Hm & ->) | (Hl & Hi & Hrest)]].
  - rewrite Hlaunch. subst httpMethod. tauto.
  - split.
    + intros H. exfalso. revert H. apply Hnever.
      unfold handleBWPInstall. apply Hcaught.
    + intros (Hp' & _). congruence.
  - split.
    + intros H. exfalso. revert H. apply Hnever.
      destruct Hrest as [-> | [-> | ->]].
      * unfold handleBWPSettings. apply Hcaught.
      * unfold handleBWPUninstall. apply Hcaught.
      * eauto.
    + intros (Hp & [= Hm] & _). exfalso. apply Hl. auto.
Qed.

End Router.

(** A launch in the calm world: the state [0.123456] is stored with the
    verifier [c0ffee], whose challenge the redirect carries. *)
Lemma launch_stores_the_verifier_of_its_challenge_witness :
  exists url item db',
    fst (handleBWPLaunch toyLib calmEnv
           (installRequest "signed" "s1" "api.example.com") launched)
    = inr {| statusCode := 302; location := Some url;
             body := BodyMessage "Redirecting to BWP authorization URL" |} /\
    stateTable db' !! au_state url = Some item /\
    au_code_challenge url = "S256:c0ffee".
Proof.
  destruct (launch_stores_the_verifier_of_its_challenge toyLib calmEnv
              (installRequest "signed" "s1" "api.example.com") launched
              _ eq_refl eq_refl)
    as (url & item & db' & Hrun & _ & Hitem & Hchallenge & _).
  exists url, item, db'. rewrite Hrun. split; [reflexivity|].
  split; [exact Hitem|].
  injection Hrun as Hurl _. subst url. reflexivity.
Defined.

End BwpAuth.

(** ** Shopline OAuth installation (shopline-install.mjs)

    [handler] starts an installation: it stores a fresh [state] with the
    shop and redirects to Shopline's authorize page.  [handleCallback]
    completes it: it looks the [state] up, exchanges the code for tokens,
    stores them and deletes the [state].  The names the file imports are
    taken to be there. *)

Module ShoplineOAuth.

Record StateRecord : Type := mkStateRecord {
  sr_state : string;
  sr_shop : string;
  sr_timestamp : Z;
  sr_type : string;
  sr_expiry : Z
}.

Record StoreItem : Type := mkStoreItem {
  si_shop : string;
  si_accessToken : option string;
  si_refreshToken : option string;
  si_scope : option string;
  si_installedAt : Z;
  si_updatedAt : Z
}.

(** The install-state table, keyed by [state], and the stores table,
    keyed by [shop]. *)
Record Db : Type := mkDb {
  installStateTable : gmap string StateRecord;
  storesTable : gmap string StoreItem
}.

Record Secrets : Type := mkSecrets {
  clientId : option string;
  clientSecret : option string
}.

Record TokenData : Type := mkTokenData {
  access_token : option string;
  refresh_token : option string;
  scope : option string
}.

(** How the outside answers during one invocation: Secrets Manager, the
    random generator, the clock, each of the three DynamoDB calls, and
    the token endpoint. *)
Record Env : Type := mkEnv {
  env_secrets : JsError + Secrets;
  env_state : string;                   (* randomBytes(32).toString('hex') *)
  env_now : Z;
  env_getFailure : option JsError;
  env_putFailure : option JsError;
  env_deleteFailure : option JsError;
  env_token : JsError + TokenData
}.

Record Event : Type := mkEvent {
  queryStringParameters : option Obj;
  requestId : option string             (* event.requestContext?.requestId *)
}.

Inductive Location : Type :=
| AuthorizeUrl (client_id : option string) (state : string)
| AppPage (shop : string).

(** A 302 with [Location] and [Cache-Control: no-store], or a JSON body
    with [error] and [requestId] under the given status code. *)
Inductive Response : Type :=
| Redirect (location : Location)
| Failure (statusCode : Z) (error : string) (requestId : option string).

Definition isAlnum (c : ascii) : bool :=
  let n := N_of_ascii c in
  ((48 <=? n) && (n <=? 57) || (65 <=? n) && (n <=? 90)
   || (97 <=? n) && (n <=? 122))%N.

Definition isAlnumOrHyphen (c : ascii) : bool :=
  isAlnum c || Ascii.eqb c "-".

Fixpoint allChars (p : ascii -> bool) (s : string) : bool :=
  match s with
  | EmptyString => true
  | String c rest => p c && allChars p rest
  end.

Definition domainSuffix : string := ".myshopline.com".

(** [/^[a-zA-Z0-9][a-zA-Z0-9-]*\.myshopline\.com$/.test(shop)] *)
Definition validShopDomain (shop : string) : bool :=
  let n := String.length shop in
  let k := String.length domainSuffix in
  (k <? n)%nat
  && String.eqb (String.substring (n - k) k shop) domainSuffix
  && match String.substring 0 (n - k) shop with
     | EmptyString => false
     | String c rest => isAlnum c && allChars isAlnumOrHyphen rest
     end.

Definition validateRequest (event : Event) : JsError + string :=
  let shop := queryStringParameters event ≫= fun q => getProp q "shop" in
  if negb (truthy shop) then inl (Error "Missing shop parameter")
  else if negb (validShopDomain (default "" shop))
  then inl (Error "Invalid shop domain")
  else inr (default "" shop).

Section Handlers.
Variable env : Env.

Definition liftResult {A} (r : JsError + A) : Exec Db A :=
  fun db => (r, db).

Definition getSecrets : Exec Db Secrets := liftResult (env_secrets env).

Definition dbCall {A} (failure : option JsError) (op : Db -> A * Db)
  : Exec Db A :=
  fun db =>
    match failure with
    | Some error => (inl error, db)
    | None => let '(a, db') := op db in (inr a, db')
    end.

(** [dynamodb.put] on the install-state table. *)
Definition putState (item : StateRecord) : Exec Db unit :=
  dbCall (env_putFailure env)
         (fun db =>
            (tt, {| installStateTable :=
                      <[sr_state item := item]> (installStateTable db);
                    storesTable := storesTable db |})).

(** [dynamodb.get] on the install-state table. *)
Definition getState (state : string) : Exec Db (option StateRecord) :=
  dbCall (env_getFailure env) (fun db => (installStateTable db !! state, db)).

(** [dynamodb.put] on the stores table. *)
Definition putStore (item : StoreItem) : Exec Db unit :=
  dbCall (env_putFailure env)
         (fun db =>
            (tt, {| installStateTable := installStateTable db;
                    storesTable :=
                      <[si_shop item := item]> (storesTable db) |})).

(** [dynamodb.delete] on the install-state table. *)
Definition deleteState (state : string) : Exec Db unit :=
  dbCall (env_deleteFailure env)
         (fun db =>
            (tt, {| installStateTable := delete state (installStateTable db);
                    storesTable := storesTable db |})).

Definition failure (event : Event) (fallback : string) (error : JsError)
  : Response :=
  Failure (statusCodeOr500 error) (messageOr error fallback) (requestId event).

Definition handler (event : Event) : Exec Db Response :=
  tryCatch
    (shop <- liftResult (validateRequest event);;
     secrets <- getSecrets;;
     let state := env_state env in
     putState {| sr_state := state; sr_shop := shop;
                 sr_timestamp := env_now env;
                 sr_type := "shopline_install";
                 sr_expiry := env_now env / 1000 + 3600 |};;
     ret (Redirect (AuthorizeUrl (clientId secrets) state)))
    (fun error => ret (failure event "Internal server error" error)).

Definition handleCallback (event : Event) : Exec Db Response :=
  tryCatch
    (match queryStringParameters event with
     | None =>
         throw (Error "Cannot destructure property 'code' of null")
     | Some query =>
         let code := getProp query "code" in
         let state := getProp query "state" in
         if negb (truthy code) || negb (truthy state)
         then throw (Error "Missing required parameters")
         else
           let state := default "" state in
           stateRecord <- getState state;;
           match stateRecord with
           | None => throw (Error "Invalid state")
           | Some item =>
               if negb (String.eqb (sr_type item) "shopline_install")
               then throw (Error "Invalid state")
               else
                 let shop := sr_shop item in
                 secrets <- getSecrets;;
                 tokenResponse <- liftResult (env_token env);;
                 putStore {| si_shop := shop;
                             si_accessToken := access_token tokenResponse;
                             si_refreshToken := refresh_token tokenResponse;
                             si_scope := scope tokenResponse;
                             si_installedAt := env_now env;
                             si_updatedAt := env_now env |};;
                 deleteState state;;
                 ret (Redirect (AppPage shop))
           end
     end)
    (fun error => ret (failure event "Installation failed" error)).

End Handlers.

Definition isFailure (r : JsError + Response) : Prop :=
  exists statusCode error requestId,
    r = inr (Failure statusCode error requestId).

(** C10.  When the token exchange throws, the callback answers with the
    error response and leaves both tables exactly as they were: nothing
    is put into the stores table and the state record is not deleted. *)
Theorem callback_is_atomic_on_exchange_failure (env : Env) (event : Event)
        (db : Db) (error : JsError) :
  env_token env = inl error ->
  isFailure (fst (handleCallback env event db)) /\
  snd (handleCallback env event db) = db.
Proof.
  intros Htoken.
  unfold isFailure, handleCallback, tryCatch, bind, getState, getSecrets,
    liftResult, dbCall, throw, ret, failure.
  rewrite Htoken.
  destruct (queryStringParameters event) as [query|]; [|simpl; eauto 6].
  destruct (negb (truthy (getProp query "code"))
            || negb (truthy (getProp query "state"))); [simpl; eauto 6|].
  destruct (env_getFailure env) as [e|]; [simpl; eauto 6|].
  destruct (installStateTable db !! _) as [item|]; [|simpl; eauto 6].
  destruct (negb (String.eqb (sr_type item) "shopline_install"));
    [simpl; eauto 6|].
  destruct (env_secrets env) as [e|secrets]; simpl; eauto 6.
Qed.

(** X24.  The Shopline flow uses a state once: a callback that ends in
    the redirect has deleted the state record, and a further callback with
    the same request fails, with "Invalid state" when the table answers. *)
Lemma shopline_state_is_single_use (env1 env2 : Env) (event : Event)
      (db : Db) (target : Location) :
  fst (handleCallback env1 event db) = inr (Redirect target) ->
  let db1 := snd (handleCallback env1 event db) in
  (exists query state,
      queryStringParameters event = Some query /\
      getProp query "state" = Some state /\
      installStateTable db1 !! state = None) /\
  isFailure (fst (handleCallback env2 event db1)) /\
  (env_getFailure env2 = None ->
   fst (handleCallback env2 event db1)
   = inr (Failure 500 "Invalid state" (requestId event))).
Proof.
  unfold isFailure, handleCallback.
  unfold tryCatch, bind, getState, getSecrets, putStore, deleteState,
    liftResult, dbCall, throw, ret, failure.
  destruct (queryStringParameters event) as [query|] eqn:Hq;
    [|discriminate].
  destruct (getProp query "state") as [state|] eqn:Hstate;
    [|rewrite orb_true_r; discriminate].
  destruct (negb (truthy (getProp query "code")) || negb (truthy (Some state)));
    [discriminate|].
  change (default "" (Some state)) with state.
  destruct (env_getFailure env1) as [e|]; [discriminate|].
  destruct (installStateTable db !! state) as [item|]; [|discriminate].
  destruct (negb (String.eqb (sr_type item) "shopline_install"));
    [discriminate|].
  destruct (env_secrets env1) as [e|secrets]; [discriminate|].
  destruct (env_token env1) as [e|tokenResponse]; [discriminate|].
  destruct (env_putFailure env1) as [e|]; [discriminate|].
  destruct (env_deleteFailure env1) as [e|]; [discriminate|].
  cbn. intros _.
  split; [|split].
  - exists query, state. repeat split; [assumption|].
    apply lookup_delete_eq.
  - destruct (env_getFailure env2) as [e|]; cbn; [eauto 6|].
    rewrite lookup_delete_eq. eauto 6.
  - intros ->. rewrite lookup_delete_eq. reflexivity.
Qed.

(** *** A closed instance *)

Definition pending : Db :=
  {| installStateTable :=
       {[ "abc123" := {| sr_state := "abc123";
                         sr_shop := "mugs.myshopline.com";
                         sr_timestamp := 1700000000000;
                         sr_type := "shopline_install";
                         sr_expiry := 1700003600 |} ]};
     storesTable := ∅ |}.

Definition callbackEvent : Event :=
  {| queryStringParameters := Some [("code", "c1"); ("state", "abc123")];
     requestId := Some "req-1" |}.

Definition exchangeDown : Env :=
  {| env_secrets := inr {| clientId := Some "client";
                           clientSecret := Some "secret" |};
     env_state := "abc123";
     env_now := 1700000000000;
     env_getFailure := None;
     env_putFailure := None;
     env_deleteFailure := None;
     env_token := inl (Error "Request failed with status code 400") |}.

(** The token endpoint rejects the code: the answer carries the error
    and the pending state is still there. *)
Lemma callback_is_atomic_on_exchange_failure_witness :
  handleCallback exchangeDown callbackEvent pending
  = (inr (Failure 500 "Request failed with status code 400" (Some "req-1")),
     pending).
Proof.
  destruct (callback_is_atomic_on_exchange_failure exchangeDown callbackEvent
              pending _ eq_refl) as [_ Hdb].
  rewrite (surjective_pairing (handleCallback _ _ _)), Hdb.
  reflexivity.
Defined.

(** *** Shop domains *)

Lemma append_cons (c : ascii) (l suffix : string) :
  (String c l ++ suffix)%string = String c (l ++ suffix).
Proof. reflexivity. Qed.

Lemma length_append (l suffix : string) :
  String.length (l ++ suffix) = (String.length l + String.length suffix)%nat.
Proof.
  induction l as [|c l IH]; [reflexivity|].
  rewrite append_cons. cbn. now rewrite IH.
Qed.

Lemma substring_full (s : string) : String.substring 0 (String.length s) s = s.
Proof. induction s as [|c s IH]; cbn; [reflexivity | now rewrite IH]. Qed.

Lemma substring_append_l (l suffix : string) :
  String.substring 0 (String.length l) (l ++ suffix) = l.
Proof.
  induction l as [|c l IH].
  - cbn. destruct suffix; reflexivity.
  - rewrite append_cons. cbn. now rewrite IH.
Qed.

Lemma substring_append_r (l suffix : string) :
  String.substring (String.length l) (String.length suffix) (l ++ suffix)
  = suffix.
Proof.
  induction l as [|c l IH].
  - apply substring_full.
  - rewrite append_cons. cbn. exact IH.
Qed.

Lemma substring_split (s : string) (m : nat) :
  (m <= String.length s)%nat ->
  s = (String.substring 0 m s
       ++ String.substring m (String.length s - m) s)%string.
Proof.
  revert m. induction s as [|c s IH]; intros m Hm.
  - cbn in Hm. assert (m = 0%nat) as -> by lia. reflexivity.
  - destruct m as [|m].
    + cbn [String.substring]. change ("" ++ ?x)%string with x.
      rewrite Nat.sub_0_r. symmetry. apply (substring_full (String c s)).
    + cbn in Hm. cbn [String.substring String.length Nat.sub].
      rewrite append_cons. f_equal. apply IH. lia.
Qed.

Lemma validShopDomain_shape (shop : string) :
  validShopDomain shop = true
  <-> exists c label,
        shop = (String c label ++ domainSuffix)%string /\
        isAlnum c = true /\ allChars isAlnumOrHyphen label = true.
Proof.
  unfold validShopDomain. split.
  - rewrite !andb_true_iff. intros [[Hlen Hsuffix] Hlabel].
    apply Nat.ltb_lt in Hlen. apply String.eqb_eq in Hsuffix.
    pose proof (substring_split shop
                  (String.length shop - String.length domainSuffix)
                  ltac:(lia)) as Hsplit.
    replace (String.length shop
             - (String.length shop - String.length domainSuffix))%nat
      with (String.length domainSuffix) in Hsplit by lia.
    rewrite Hsuffix in Hsplit.
    destruct (String.substring 0 _ shop) as [|c label]; [discriminate|].
    apply andb_true_iff in Hlabel. exists c, label. tauto.
  - intros (c & label & -> & Hc & Hlabel).
    rewrite length_append.
    replace (String.length (String c label) + String.length domainSuffix
             - String.length domainSuffix)%nat
      with (String.length (String c label)) by lia.
    rewrite substring_append_r, substring_append_l, Hc, Hlabel.
    rewrite String.eqb_refl, !andb_true_r.
    apply Nat.ltb_lt. cbn. lia.
Qed.

(** X28.  [validateRequest] returns a shop exactly when the [shop] query
    parameter is a first character that is a letter or digit, then
    letters, digits and hyphens, then [.myshopline.com] and nothing more.
    A shop with a dot, slash or any other character in its label, with
    another suffix, or with anything after the suffix, is refused. *)
Theorem accepted_shop_is_a_myshopline_subdomain (event : Event)
        (shop : string) :
  validateRequest event = inr shop
  <-> (queryStringParameters event ≫= fun q => getProp q "shop")
      = Some shop /\
      exists c label,
        shop = (String c label ++ ".myshopline.com")%string /\
        isAlnum c = true /\ allChars isAlnumOrHyphen label = true.
Proof.
  unfold validateRequest.
  destruct (queryStringParameters event ≫= _) as [given|]; cbn.
  - split.
    + destruct (String.eqb given "") eqn:Hempty; cbn; [discriminate|].
      destruct (validShopDomain given) eqn:Hvalid; cbn; [|discriminate].
      intros [= <-]. split; [reflexivity|].
      now apply validShopDomain_shape.
    + intros [[= ->] Hshape].
      assert (Hvalid : validShopDomain shop = true)
        by now apply validShopDomain_shape.
      destruct Hshape as (c & label & -> & _). rewrite Hvalid. reflexivity.
  - split; [discriminate|]. intros [[=] _].
Qed.

(** *** The two halves of an installation *)

Section Installation.

(** X25.  An installation that was begun can be completed.  When
    [handler] has accepted a shop and stored its state, a callback that
    carries that state and a code (with the table, the secrets and the
    token endpoint answering) is redirected to the app page of the same
    shop; the stores table then holds the shop's tokens, and the state is
    gone from the state table, which is otherwise as it was before the
    installation began. *)
Theorem begun_install_completes (env1 env2 : Env) (begin callback : Event)
        (db : Db) (shop code : string) (query : Obj)
        (secrets1 secrets2 : Secrets) (tokenData : TokenData) :
  validateRequest begin = inr shop ->
  env_secrets env1 = inr secrets1 -> env_putFailure env1 = None ->
  env_state env1 <> "" ->
  queryStringParameters callback = Some query ->
  getProp query "code" = Some code -> code <> "" ->
  getProp query "state" = Some (env_state env1) ->
  env_getFailure env2 = None -> env_secrets env2 = inr secrets2 ->
  env_token env2 = inr tokenData ->
  env_putFailure env2 = None -> env_deleteFailure env2 = None ->
  fst (handler env1 begin db)
  = inr (Redirect (AuthorizeUrl (clientId secrets1) (env_state env1))) /\
  handleCallback env2 callback (snd (handler env1 begin db))
  = (inr (Redirect (AppPage shop)),
     {| installStateTable := delete (env_state env1) (installStateTable db);
        storesTable :=
          <[shop := {| si_shop := shop;
                       si_accessToken := access_token tokenData;
                       si_refreshToken := refresh_token tokenData;
                       si_scope := scope tokenData;
                       si_installedAt := env_now env2;
                       si_updatedAt := env_now env2 |}]> (storesTable db) |}).
Proof.
  intros Hshop Hs1 Hput1 Hstate Hquery Hcode Hcode' Hst Hget2 Hs2 Htoken
         Hput2 Hdelete2.
  assert (Hbegin :
    handler env1 begin db
    = (inr (Redirect (AuthorizeUrl (clientId secrets1) (env_state env1))),
       {| installStateTable :=
            <[env_state env1 :=
                {| sr_state := env_state env1; sr_shop := shop;
                   sr_timestamp := env_now env1;
                   sr_type := "shopline_install";
                   sr_expiry := env_now env1 / 1000 + 3600 |}]>
              (installStateTable db);
          storesTable := storesTable db |})).
  { unfold handler, tryCatch, bind, liftResult, getSecrets, putState, dbCall,
      ret.
    rewrite Hshop, Hs1, Hput1. reflexivity. }
  rewrite Hbegin. split; [reflexivity|]. cbn [snd].
  unfold handleCallback, tryCatch, bind, getState, getSecrets, putStore,
    deleteState, liftResult, dbCall, throw, ret.
  rewrite Hquery, Hcode, Hst.
  assert (truthy (Some code) = true) as ->
    by (cbn; apply negb_true_iff, String.eqb_neq, Hcode').
  assert (truthy (Some (env_state env1)) = true) as ->
    by (cbn; apply negb_true_iff, String.eqb_neq, Hstate).
  cbn. rewrite Hget2. cbn. rewrite lookup_insert_eq. cbn.
  rewrite Hs2, Htoken, Hput2. cbn. rewrite Hdelete2. cbn.
  rewrite delete_insert_eq. reflexivity.
Qed.

(** X26.  The callback never looks at the expiry of a state record.
    Replace the [expiry] and [timestamp] of the record a callback refers
    to by any other values, say an expiry long past: the callback gives
    the same answer and leaves the same stores table.  A state is refused
    only when its record is no longer in the table. *)
Theorem callback_never_checks_the_expiry (env : Env) (event : Event)
        (db : Db) (query : Obj) (state : string) (item : StateRecord)
        (timestamp expiry : Z) :
  queryStringParameters event = Some query ->
  getProp query "state" = Some state ->
  installStateTable db !! state = Some item ->
  let aged :=
    {| installStateTable :=
         <[state := {| sr_state := sr_state item; sr_shop := sr_shop item;
                       sr_timestamp := timestamp; sr_type := sr_type item;
                       sr_expiry := expiry |}]> (installStateTable db);
       storesTable := storesTable db |} in
  fst (handleCallback env event aged) = fst (handleCallback env event db) /\
  storesTable (snd (handleCallback env event aged))
  = storesTable (snd (handleCallback env event db)).
Proof.
  intros Hquery Hstate Hitem aged. subst aged.
  unfold handleCallback, tryCatch, bind, getState, getSecrets, putStore,
    deleteState, liftResult, dbCall, throw, ret.
  rewrite Hquery, Hstate.
  destruct (negb (truthy (getProp query "code")) || negb (truthy (Some state)));
    [split; reflexivity|].
  change (default "" (Some state)) with state.
  destruct (env_getFailure env) as [e|]; [split; reflexivity|].
  cbn. rewrite lookup_insert_eq, Hitem. cbn.
  destruct (negb (String.eqb (sr_type item) "shopline_install"));
    [split; reflexivity|].
  destruct (env_secrets env) as [e|secrets]; [split; reflexivity|].
  destruct (env_token env) as [e|tokenResponse]; [split; reflexivity|].
  destruct (env_putFailure env) as [e|]; [split; reflexivity|].
  destruct (env_deleteFailure env) as [e|]; split; reflexivity.
Qed.

(** X27.  The callback is not atomic once the tokens are in.  When the
    tokens have been stored and the delete of the state record fails, the
    answer is the error response although the shop's tokens are in the
    stores table, and the state record is still there. *)
Theorem failed_delete_leaves_tokens_and_state (env : Env) (event : Event)
        (db : Db) (query : Obj) (code state : string) (item : StateRecord)
        (secrets : Secrets) (tokenData : TokenData) (error : JsError) :
  queryStringParameters event = Some query ->
  getProp query "code" = Some code -> code <> "" ->
  getProp query "state" = Some state -> state <> "" ->
  env_getFailure env = None ->
  installStateTable db !! state = Some item ->
  sr_type item = "shopline_install" ->
  env_secrets env = inr secrets -> env_token env = inr tokenData ->
  env_putFailure env = None -> env_deleteFailure env = Some error ->
  handleCallback env event db
  = (inr (failure event "Installation failed" error),
     {| installStateTable := installStateTable db;
        storesTable :=
          <[sr_shop item :=
              {| si_shop := sr_shop item;
                 si_accessToken := access_token tokenData;
                 si_refreshToken := refresh_token tokenData;
                 si_scope := scope tokenData;
                 si_installedAt := env_now env;
                 si_updatedAt := env_now env |}]> (storesTable db) |}).
Proof.
  intros Hquery Hcode Hcode' Hstate Hstate' Hget Hitem Htype Hsecrets Htoken
         Hput Hdelete.
  unfold handleCallback, tryCatch, bind, getState, getSecrets, putStore,
    deleteState, liftResult, dbCall, throw, ret.
  rewrite Hquery, Hcode, Hstate.
  assert (truthy (Some code) = true) as ->
    by (cbn; apply negb_true_iff, String.eqb_neq, Hcode').
  assert (truthy (Some state) = true) as ->
    by (cbn; apply negb_true_iff, String.eqb_neq, Hstate').
  cbn. rewrite Hget. cbn. rewrite Hitem, Htype. cbn.
  rewrite Hsecrets, Htoken, Hput. cbn. rewrite Hdelete. reflexivity.
Qed.

End Installation.

(** *** Closed instances *)

Definition granted : TokenData :=
  {| access_token := Some "at"; refresh_token := Some "rt";
     scope := Some "read_products" |}.

Definition exchangeUp : Env :=
  {| env_secrets := env_secrets exchangeDown;
     env_state := "abc123";
     env_now := 1700000000000;
     env_getFailure := None;
     env_putFailure := None;
     env_deleteFailure := None;
     env_token := inr granted |}.

Definition deleteDown : Env :=
  {| env_secrets := env_secrets exchangeDown;
     env_state := "abc123";
     env_now := 1700000000000;
     env_getFailure := None;
     env_putFailure := None;
     env_deleteFailure := Some (Error "Throughput exceeded");
     env_token := inr granted |}.

Definition beginEvent : Event :=
  {| queryStringParameters := Some [("shop", "mugs.myshopline.com")];
     requestId := Some "req-0" |}.

Definition emptyDb : Db := {| installStateTable := ∅; storesTable := ∅ |}.

(** The second callback with the same state is refused. *)
Lemma shopline_state_is_single_use_witness :
  fst (handleCallback exchangeUp callbackEvent
         (snd (handleCallback exchangeUp callbackEvent pending)))
  = inr (Failure 500 "Invalid state" (Some "req-1")).
Proof.
  pose proof (shopline_state_is_single_use exchangeUp exchangeUp callbackEvent
                pending (AppPage "mugs.myshopline.com") eq_refl) as H.
  cbv zeta in H. destruct H as (_ & _ & H). exact (H eq_refl).
Defined.

Lemma accepted_shop_is_a_myshopline_subdomain_witness :
  validateRequest beginEvent = inr "mugs.myshopline.com".
Proof.
  apply (accepted_shop_is_a_myshopline_subdomain beginEvent
           "mugs.myshopline.com").
  split; [reflexivity|]. exists "m"%char, "ugs". repeat split.
Defined.

(** Begin and complete in an empty database. *)
Lemma begun_install_completes_witness :
  fst (handleCallback exchangeUp callbackEvent
         (snd (handler exchangeUp beginEvent emptyDb)))
  = inr (Redirect (AppPage "mugs.myshopline.com")).
Proof.
  destruct (begun_install_completes exchangeUp exchangeUp beginEvent
              callbackEvent emptyDb "mugs.myshopline.com" "c1"
              [("code", "c1"); ("state", "abc123")] _ _ granted
              eq_refl eq_refl eq_refl ltac:(discriminate) eq_refl eq_refl
              ltac:(discriminate) eq_refl eq_refl eq_refl eq_refl eq_refl
              eq_refl) as [_ Hcallback].
  rewrite Hcallback. reflexivity.
Defined.

(** The pending state, made to expire in 1970, is accepted. *)
Lemma callback_never_checks_the_expiry_witness :
  fst (handleCallback exchangeUp callbackEvent
         {| installStateTable :=
              {[ "abc123" := {| sr_state := "abc123";
                                sr_shop := "mugs.myshopline.com";
                                sr_timestamp := 0;
                                sr_type := "shopline_install";
                                sr_expiry := 3600 |} ]};
            storesTable := ∅ |})
  = inr (Redirect (AppPage "mugs.myshopline.com")).
Proof.
  pose proof (callback_never_checks_the_expiry exchangeUp callbackEvent pending
                [("code", "c1"); ("state", "abc123")] "abc123"
                _ 0 3600 eq_refl eq_refl eq_refl) as H.
  cbv zeta in H. destruct H as [H _].
  etransitivity; [|etransitivity; [exact H|reflexivity]].
  reflexivity.
Defined.

Lemma failed_delete_leaves_tokens_and_state_witness :
  let run := handleCallback deleteDown callbackEvent pending in
  fst run = inr (Failure 500 "Throughput exceeded" (Some "req-1")) /\
  is_Some (storesTable (snd run) !! "mugs.myshopline.com") /\
  is_Some (installStateTable (snd run) !! "abc123").
Proof.
  cbv zeta.
  rewrite (failed_delete_leaves_tokens_and_state deleteDown callbackEvent
             pending [("code", "c1"); ("state", "abc123")] "c1" "abc123"
             _ _ granted (Error "Throughput exceeded")
             eq_refl eq_refl ltac:(discriminate) eq_refl ltac:(discriminate)
             eq_refl eq_refl eq_refl eq_refl eq_refl eq_refl eq_refl).
  split; [reflexivity|]. split; eexists; reflexivity.
Defined.

End ShoplineOAuth.

(** ** The OAuth state in the two flows

    [handleCallback] of the Shopline installation and [handleBWPInstall]
    are the two handlers that complete an installation begun under a
    [state]. *)

Module OAuthState.

Import ShoplineOAuth.



End OAuthState.

(** ** Product CRUD (lambda/product/crud.mjs, lines 1-162)

    [GET /products] lists a store's Shopline products; [PUT /products/ID]
    writes a product to Shopline and then to Buy with Prime.  The file has
    its own copies of [getShoplineCredentials], [getBWPCredentials] and
    [getStoreInfo]. *)

Module Crud.

Import EventSync.

Inductive Body : Type :=
| BodyMessage (message : string)
| BodyProducts (products : list Product)
    (* JSON.stringify(products) *)
| BodyFailure (message error : string).
    (* message: ..., error: error.message *)

Record Response : Type := mkResponse {
  statusCode : Z;
  body : Body
}.

Record Event : Type := mkEvent {
  httpMethod : option string;
  path : option string;
  eventBody : option string;
  queryStringParameters : option Obj
}.

(** [s.split(sep)] for a separator of one character. *)
Fixpoint strSplit (sep : ascii) (s : string) : list string :=
  match s with
  | EmptyString => [EmptyString]
  | String c rest =>
      if Ascii.eqb c sep then EmptyString :: strSplit sep rest
      else
        match strSplit sep rest with
        | [] => [String c EmptyString]
        | segment :: segments => String c segment :: segments
        end
  end.

Section Handler.
Context {W : Type}.

(** [D] is what [JSON.parse(body)] returns, [jsonParse] is [JSON.parse]
    itself; the handler passes the value on as it is. *)
Context {D : Type}.
Variable jsonParse : option string -> JsError + D.

Record Services : Type := mkServices {
  getInstallationItem : string -> W -> (JsError + option Store) * W;
  getTokenItem : string -> W -> (JsError + option TokenItem) * W;
  getShoplineSecret : W -> (JsError + Credentials) * W;
  getBwpSecret : W -> (JsError + Credentials) * W;
  httpGetShoplineProducts :
    string -> option string -> W -> (JsError + list Product) * W;
  httpPutShoplineProduct :
    string -> string -> D -> option string -> W -> (JsError + unit) * W;
  httpPutBwpProduct : string -> D -> option string -> W -> (JsError + unit) * W
}.

Record State : Type := mkState {
  world : W;
  console : list JsError        (* console.error('Error:', error) *)
}.

Variable svc : Services.

Definition call {A} (op : W -> (JsError + A) * W) : Exec State A :=
  fun st =>
    let '(r, w) := op (world st) in
    (r, {| world := w; console := console st |}).

Definition consoleError (error : JsError) : Exec State unit :=
  fun st =>
    (inr tt, {| world := world st; console := console st ++ [error] |}).

Definition getShoplineCredentials : Exec State Credentials :=
  call (getShoplineSecret svc).

Definition getBWPCredentials (installationId : string)
  : Exec State Credentials :=
  tokenData <- call (getTokenItem svc installationId);;
  match tokenData with
  | None => throw (Error "BWP token not found")
  | Some item =>
      _ <- call (getBwpSecret svc);;
      ret {| accessToken := item_token item;
             refreshToken := item_refresh_token item |}
  end.

Definition getStoreInfo (handle : string) : Exec State Store :=
  storeData <- call (getInstallationItem svc handle);;
  match storeData with
  | None => throw (Error "Store information not found")
  | Some item => ret item
  end.

Definition getShoplineProducts (handle : string)
  : Exec State (list Product) :=
  credentials <- getShoplineCredentials;;
  call (httpGetShoplineProducts svc handle (accessToken credentials)).

Definition updateShoplineProduct (handle productId : string)
           (productData : D) : Exec State unit :=
  credentials <- getShoplineCredentials;;
  call (httpPutShoplineProduct svc handle productId productData
                               (accessToken credentials)).

Definition updateBWPProduct (installationId productId : string)
           (productData : D) : Exec State unit :=
  credentials <- getBWPCredentials installationId;;
  call (httpPutBwpProduct svc productId productData (accessToken credentials)).

(** The result is [None] where the function ends without [return]: a
    [break] leaves the [switch] and nothing follows it.  [path.startsWith]
    throws when [path] is absent; an absent array element reads
    [undefined] in the URL. *)
Definition handler (event : Event) : Exec State (option Response) :=
  let handle :=
    queryStringParameters event ≫= (fun q => getProp q "handle") in
  if negb (truthy handle) then
    ret (Some {| statusCode := 400; body := BodyMessage "Missing handle" |})
  else
    let handle := default "" handle in
    tryCatch
      (storeInfo <- getStoreInfo handle;;
       if optStringEqb (httpMethod event) (Some "GET") then
         if optStringEqb (path event) (Some "/products") then
           products <- getShoplineProducts handle;;
           ret (Some {| statusCode := 200; body := BodyProducts products |})
         else ret None
       else if optStringEqb (httpMethod event) (Some "PUT") then
         match path event with
         | None =>
             throw (Error ("Cannot read properties of undefined "
                           ++ "(reading 'startsWith')")%string)
         | Some p =>
             if String.prefix "/products/" p then
               let productId :=
                 default "undefined" (nth_error (strSplit "/" p) 2) in
               match jsonParse (eventBody event) with
               | inl error => throw error
               | inr productData =>
                   updateShoplineProduct handle productId productData;;
                   let bwpInstallationId :=
                     store_bwpInstallationId storeInfo in
                   if negb (truthy bwpInstallationId) then
                     throw (Error
                              "BWP installation ID not found for this store")
                   else
                     updateBWPProduct (default "" bwpInstallationId)
                                      productId productData;;
                     ret (Some {| statusCode := 200;
                                  body := BodyMessage
                                            "Product updated successfully" |})
               end
             else ret None
         end
       else
         ret (Some {| statusCode := 404; body := BodyMessage "Not Found" |}))
      (fun error =>
         consoleError error;;
         ret (Some {| statusCode := 500;
                      body := BodyFailure "Internal Server Error"
                                          (err_message error) |})).

End Handler.
Arguments Services : clear implicits.
Arguments State : clear implicits.

(** *** Splitting the path *)

Lemma strSplit_segment (i tail : string) :
  ~ In "/"%char (list_ascii_of_string i) ->
  strSplit "/" (i ++ String "/" tail) = i :: strSplit "/" tail.
Proof.
  induction i as [|c i IH]; intros Hno.
  - reflexivity.
  - change (strSplit "/" (String c (i ++ String "/" tail))
            = String c i :: strSplit "/" tail).
    cbn in *. destruct (Ascii.eqb c "/") eqn:Ec.
    + apply Ascii.eqb_eq in Ec. tauto.
    + rewrite IH by tauto. reflexivity.
Qed.

Lemma strSplit_single (i : string) :
  ~ In "/"%char (list_ascii_of_string i) -> strSplit "/" i = [i].
Proof.
  induction i as [|c i IH]; intros Hno; cbn.
  - reflexivity.
  - cbn in Hno. destruct (Ascii.eqb c "/") eqn:Ec.
    + apply Ascii.eqb_eq in Ec. tauto.
    + rewrite IH by tauto. reflexivity.
Qed.

(** What the handler reads off a path that starts with [/products/]. *)
Lemma productId_of_path (rest : string) :
  nth_error (strSplit "/" ("/products/" ++ rest)) 2
  = nth_error (strSplit "/" rest) 0.
Proof.
  change ("/products/" ++ rest)%string
    with (String "/" (String "p" (String "r" (String "o" (String "d"
           (String "u" (String "c" (String "t" (String "s"
           (String "/" rest)))))))))).
  cbn. destruct (strSplit "/" rest); reflexivity.
Qed.

Lemma products_prefix (rest : string) :
  String.prefix "/products/" ("/products/" ++ rest) = true.
Proof.
  change ("/products/" ++ rest)%string
    with (String "/" (String "p" (String "r" (String "o" (String "d"
           (String "u" (String "c" (String "t" (String "s"
           (String "/" rest)))))))))).
  cbn. destruct rest; reflexivity.
Qed.

Lemma products_not_list (rest : string) :
  optStringEqb (Some ("/products/" ++ rest)%string) (Some "/products") = false.
Proof.
  change ("/products/" ++ rest)%string
    with (String "/" (String "p" (String "r" (String "o" (String "d"
           (String "u" (String "c" (String "t" (String "s"
           (String "/" rest)))))))))).
  reflexivity.
Qed.

Section Facts.
Context {W D : Type}.
Variable jsonParse : option string -> JsError + D.
Variable svc : Services W D.

(** X6.  A request without a [handle] query parameter (no query string,
    no such parameter, or an empty one) is answered 400 "Missing handle";
    no table and no platform is contacted and nothing is logged, whatever
    the method and path. *)
Theorem crud_rejects_missing_handle (event : Event) (st : State W) :
  truthy (queryStringParameters event ≫= (fun q => getProp q "handle"))
  = false ->
  handler jsonParse svc event st
  = (inr (Some {| statusCode := 400; body := BodyMessage "Missing handle" |}),
     st).
Proof. intros H. unfold handler. rewrite H. reflexivity. Qed.

(** X7.  [PUT /products/ID] writes to Shopline first and does not undo
    it.  Once the Shopline request went through, a store without Buy with
    Prime installation id gets 500 with the error "BWP installation ID not
    found for this store", and a failing Buy with Prime update gets 500
    with that failure's message; in both cases the world is left as the
    Shopline write (and the failed update) made it. *)
Theorem shopline_update_is_not_rolled_back (event : Event) (handle p : string)
        (productData : D) (store : Store) (st st1 st2 : State W) :
  queryStringParameters event ≫= (fun q => getProp q "handle")
  = Some handle ->
  handle <> "" ->
  httpMethod event = Some "PUT" ->
  path event = Some p -> String.prefix "/products/" p = true ->
  jsonParse (eventBody event) = inr productData ->
  getStoreInfo svc handle st = (inr store, st1) ->
  updateShoplineProduct svc handle
    (default "undefined" (nth_error (strSplit "/" p) 2)) productData st1
  = (inr tt, st2) ->
  (truthy (store_bwpInstallationId store) = false ->
   handler jsonParse svc event st
   = (inr (Some {| statusCode := 500;
                   body := BodyFailure
                             "Internal Server Error"
                             "BWP installation ID not found for this store" |}),
      {| world := world st2;
         console :=
           console st2
           ++ [Error "BWP installation ID not found for this store"] |}))
  /\
  (truthy (store_bwpInstallationId store) = true ->
   forall error st3,
     updateBWPProduct svc (default "" (store_bwpInstallationId store))
       (default "undefined" (nth_error (strSplit "/" p) 2)) productData st2
     = (inl error, st3) ->
     handler jsonParse svc event st
     = (inr (Some {| statusCode := 500;
                     body := BodyFailure "Internal Server Error"
                                         (err_message error) |}),
        {| world := world st3; console := console st3 ++ [error] |})).
Proof.
  intros Hq Hne Hm Hp Hpre Hbody Hstore Hshop.
  assert (Hhandle : truthy (Some handle) = true).
  { cbn. apply negb_true_iff, String.eqb_neq, Hne. }
  split.
  - intros Hun. unfold handler. rewrite Hq, Hhandle, Hm, Hp.
    cbn -[nth_error strSplit from_option String.prefix].
    change (default "" (Some handle)) with handle.
    unfold tryCatch, bind. rewrite Hstore, Hpre, Hbody, Hshop, Hun.
    reflexivity.
  - intros Hlinked error st3 Hbwp. unfold handler.
    rewrite Hq, Hhandle, Hm, Hp.
    cbn -[nth_error strSplit from_option String.prefix].
    change (default "" (Some handle)) with handle.
    unfold tryCatch, bind. rewrite Hstore, Hpre, Hbody, Hshop, Hlinked.
    cbn -[nth_error strSplit from_option String.prefix].
    rewrite Hbwp. reflexivity.
Qed.

(** X8.  For a known store, a [GET] whose path is not [/products] and a
    [PUT] whose path does not start with [/products/] end without a
    response: the handler returns [undefined], not the 404 it gives to
    the other methods.  Only the store's item has been read. *)
Theorem unmatched_path_gets_no_response (event : Event) (handle : string)
        (store : Store) (st st1 : State W) :
  queryStringParameters event ≫= (fun q => getProp q "handle")
  = Some handle ->
  handle <> "" ->
  getStoreInfo svc handle st = (inr store, st1) ->
  (httpMethod event = Some "GET" /\ path event <> Some "/products") \/
  (httpMethod event = Some "PUT" /\
   exists p, path event = Some p /\ String.prefix "/products/" p = false) ->
  handler jsonParse svc event st = (inr None, st1).
Proof.
  intros Hq Hne Hstore Hcase.
  assert (Hhandle : truthy (Some handle) = true).
  { cbn. apply negb_true_iff, String.eqb_neq, Hne. }
  unfold handler. rewrite Hq, Hhandle. cbn.
  unfold tryCatch, bind. rewrite Hstore.
  destruct Hcase as [[Hm Hp] | [Hm (p & Hp & Hpre)]]; rewrite Hm; cbn.
  - destruct (optStringEqb (path event) (Some "/products")) eqn:E;
      [|reflexivity].
    apply optStringEqb_eq in E. contradiction.
  - rewrite Hp, Hpre. reflexivity.
Qed.

(** X9.  The product id of a [PUT] is the path segment after
    [/products/]; whatever follows the next slash is ignored, so
    [/products/ID/...] is handled exactly as [/products/ID]. *)
Theorem trailing_path_segments_are_ignored (method : option string)
        (query : option Obj) (requestBody : option string) (i tail : string)
        (st : State W) :
  ~ In "/"%char (list_ascii_of_string i) ->
  handler jsonParse svc
          {| httpMethod := method;
             path := Some ("/products/" ++ i ++ String "/" tail)%string;
             eventBody := requestBody; queryStringParameters := query |} st
  = handler jsonParse svc
            {| httpMethod := method;
               path := Some ("/products/" ++ i)%string;
               eventBody := requestBody; queryStringParameters := query |} st.
Proof.
  intros Hno. unfold handler.
  cbn [path httpMethod eventBody queryStringParameters].
  rewrite (productId_of_path (i ++ String "/" tail)), (productId_of_path i).
  rewrite (strSplit_segment i tail Hno), (strSplit_single i Hno).
  rewrite !products_prefix, !products_not_list. reflexivity.
Qed.

End Facts.

(** A world that keeps the list of the PUT requests it received, by
    platform.  The body of a request is the text it carries. *)
Definition recordingServices (store : Store)
  : Services (list (string * string * string)) string :=
  {| getInstallationItem handle w :=
       (inr (if String.eqb handle (store_id store) then Some store else None),
        w);
     getTokenItem installationId w := (inr None, w);
     getShoplineSecret w :=
       (inr {| accessToken := None; refreshToken := None |}, w);
     getBwpSecret w :=
       (inr {| accessToken := None; refreshToken := None |}, w);
     httpGetShoplineProducts handle authorization w := (inr [], w);
     httpPutShoplineProduct handle productId data authorization w :=
       (inr tt, w ++ [("shopline", productId, data)]);
     httpPutBwpProduct productId data authorization w :=
       (inr tt, w ++ [("bwp", productId, data)]) |}.

Definition textBody (requestBody : option string) : JsError + string :=
  match requestBody with
  | Some text => inr text
  | None => inl (Error "Unexpected token u in JSON at position 0")
  end.

Definition request (method path_ : string) (query : Obj) : Event :=
  {| httpMethod := Some method; path := Some path_;
     eventBody := Some "{}"; queryStringParameters := Some query |}.

Definition quiet {W} (w : W) : State W := {| world := w; console := [] |}.

Lemma crud_rejects_missing_handle_witness :
  handler textBody (recordingServices (linkedStore "shop-1" "inst-1"))
          (request "PUT" "/products/p1" [("shop", "shop-1")]) (quiet [])
  = (inr (Some {| statusCode := 400; body := BodyMessage "Missing handle" |}),
     quiet []).
Proof.
  exact (crud_rejects_missing_handle textBody
           (recordingServices (linkedStore "shop-1" "inst-1"))
           (request "PUT" "/products/p1" [("shop", "shop-1")]) (quiet [])
           eq_refl).
Defined.

(** The store is not linked: Shopline has received the product, Buy with
    Prime has not, and the answer is 500. *)
Lemma shopline_update_is_not_rolled_back_witness :
  let run :=
    handler textBody
            (recordingServices {| store_id := "shop-1";
                                  store_bwpInstallationId := None |})
            (request "PUT" "/products/p1" [("handle", "shop-1")]) (quiet []) in
  world (snd run) = [("shopline", "p1", "{}")] /\
  fst run
  = inr (Some {| statusCode := 500;
                 body := BodyFailure
                           "Internal Server Error"
                           "BWP installation ID not found for this store" |}).
Proof.
  destruct (shopline_update_is_not_rolled_back textBody
              (recordingServices {| store_id := "shop-1";
                                    store_bwpInstallationId := None |})
              (request "PUT" "/products/p1" [("handle", "shop-1")])
              "shop-1" "/products/p1" "{}"
              {| store_id := "shop-1"; store_bwpInstallationId := None |}
              (quiet []) (quiet []) (quiet [("shopline", "p1", "{}")])
              eq_refl ltac:(discriminate) eq_refl eq_refl eq_refl eq_refl
              eq_refl eq_refl)
    as [Hunlinked _].
  cbv zeta. rewrite (Hunlinked eq_refl). split; reflexivity.
Defined.

Lemma unmatched_path_gets_no_response_witness :
  handler textBody (recordingServices (linkedStore "shop-1" "inst-1"))
          (request "GET" "/products/p1" [("handle", "shop-1")]) (quiet [])
  = (inr None, quiet []).
Proof.
  apply (unmatched_path_gets_no_response textBody
           (recordingServices (linkedStore "shop-1" "inst-1"))
           (request "GET" "/products/p1" [("handle", "shop-1")])
           "shop-1" (linkedStore "shop-1" "inst-1") (quiet []) (quiet [])
           eq_refl ltac:(discriminate) eq_refl).
  left. split; [reflexivity | discriminate].
Defined.

Lemma trailing_path_segments_are_ignored_witness :
  handler textBody
          (recordingServices {| store_id := "shop-1";
                                store_bwpInstallationId := None |})
          (request "PUT" "/products/p1/variants/3" [("handle", "shop-1")])
          (quiet [])
  = handler textBody
            (recordingServices {| store_id := "shop-1";
                                  store_bwpInstallationId := None |})
            (request "PUT" "/products/p1" [("handle", "shop-1")])
            (quiet []).
Proof.
  apply (trailing_path_segments_are_ignored textBody
           (recordingServices {| store_id := "shop-1";
                                 store_bwpInstallationId := None |})
           (Some "PUT") (Some [("handle", "shop-1")]) (Some "{}")
           "p1" "variants/3" (quiet [])).
  cbn. intros [H|[H|[]]]; discriminate H.
Defined.

End Crud.
